(** * VideoForge: the processing orchestrator and its collaborators

    A shallow embedding of the backend's lock model, retry policy,
    recovery service, video routes and processing service.  Persistent
    collections are finite maps, dates are milliseconds ([Z]), and every
    asynchronous method is a function in a state-and-exception monad over
    a [World] holding the two collections, the clock and the log of calls
    made to the external collaborators.

    Conventions.  Operations on the store always succeed.  What leaves the
    process (the providers, ffmpeg, the file system) answers as an [Env]
    says; while such a call is awaited a cancel request may be served.
    Durations and times are whole numbers, the progress of a segment is
    computed in exact arithmetic, and strings are sequences of code units
    below 256.  An identifier of a document stands for an ObjectId and is
    written as a string; the store does not look at its digits.  A query
    by a string that is no ObjectId, which Mongoose rejects with a
    CastError, is outside the model: what is proved about an identifier
    that names no document assumes [JS.isObjectIdString]. *)

From Stdlib Require Import ZArith Lia Ascii String.
From stdpp Require Import base option gmap strings list pretty.

(** ** JavaScript values used by the services *)

Module JS.

(** [error.code]: absent, a string (Node system errors) or a number
    (MongoDB server errors). *)
Inductive ErrCode : Type :=
| NoCode
| StrCode (s : string)
| NumCode (n : Z).

Record Error : Type := mkError { message : string; code : ErrCode }.

(** [new Error(msg)] *)
Definition newError (msg : string) : Error := mkError msg NoCode.

(** White space removed by [String.prototype.trim], for code units
    below 256: TAB, LF, VT, FF, CR, SPACE and NBSP. *)
Definition isWhiteSpace (c : ascii) : bool :=
  let n := nat_of_ascii c in
  (n =? 9) || (n =? 10) || (n =? 11) || (n =? 12) || (n =? 13)
  || (n =? 32) || (n =? 160).

Fixpoint trimStart (s : string) : string :=
  match s with
  | EmptyString => EmptyString
  | String c r => if isWhiteSpace c then trimStart r else s
  end.

Definition trimEnd (s : string) : string :=
  String.rev (trimStart (String.rev s)).

Definition trim (s : string) : string := trimEnd (trimStart s).

(** Truthiness of a string: every string but the empty one. *)
Definition truthy (s : string) : bool := negb (String.eqb s "").

(** [Array.prototype.join] *)
Definition join (sep : string) (l : list string) : string :=
  String.concat sep l.

(** [String(n)] for a natural number. *)
Definition ofNat (n : nat) : string := pretty n.

(** [String(n).padStart(3, '0')] *)
Definition padStart3 (n : nat) : string :=
  let s := ofNat n in
  match String.length s with
  | 1 => "00" +:+ s
  | 2 => "0" +:+ s
  | _ => s
  end.

(** [Math.ceil(a / b)] for integers [a] and [b > 0]. *)
Definition ceilDiv (a b : Z) : Z := (- ((- a) / b))%Z.

(** [Math.pow(b, e)] for a natural exponent. *)
Definition pow (b : Z) (e : nat) : Z := (b ^ Z.of_nat e)%Z.

(** [s] between double quotes. *)
Definition quoted (s : string) : string :=
  String (ascii_of_nat 34) (s +:+ String (ascii_of_nat 34) EmptyString).

Definition isHexDigit (c : ascii) : bool :=
  let n := nat_of_ascii c in
  ((48 <=? n) && (n <=? 57)) || ((65 <=? n) && (n <=? 70))
  || ((97 <=? n) && (n <=? 102)).

(** The strings that every version of the driver casts to an ObjectId:
    twenty-four hexadecimal digits. *)
Definition isObjectIdString (s : string) : bool :=
  (String.length s =? 24) && forallb isHexDigit (list_ascii_of_string s).

(** What a caller hands to a function that expects a path component: a
    string, or an ObjectId (written by its digits) passed in its
    place. *)
Inductive PathArg : Type :=
| PathString (s : string)
| PathObjectId (digits : string).

End JS.

(** ** Documents of the two collections *)

(** [IProcessingLock] (models/processing-lock.model). *)
Module Lock.

Record Metadata : Type := mkMetadata {
  videoId : option string;
  userId : option string;
  targetDuration : option Z;
  estimatedCompletion : option Z
}.

(** The empty object [{}]. *)
Definition noMetadata : Metadata := mkMetadata None None None None.

Record t : Type := mk {
  key : string;
  isLocked : bool;
  lockedBy : string;
  lockedAt : option Z;
  expiresAt : option Z;
  metadata : Metadata
}.

Definition VIDEO_PROCESSING : string := "video_processing_lock".
Definition SEGMENT_GENERATION : string := "segment_generation_lock".
Definition AUDIO_GENERATION : string := "audio_generation_lock".

End Lock.

(** [IScene], [IVideoSegment], [IVideoFile], [IVideoFiles],
    [IVideoMetadata] and [IVideo] (models/video.model). *)

Inductive VideoStatus : Type :=
| VPending | VDecomposing | VGenerating | VStitching | VAudio
| VMerging | VTranscoding | VCompleted | VFailed.

Inductive SegmentStatus : Type :=
| SPending | SGenerating | SCompleted | SFailed.

Inductive TransitionType : Type := Crossfade | Cut.

#[global] Instance VideoStatus_eq_dec : EqDecision VideoStatus.
Proof. solve_decision. Defined.
#[global] Instance SegmentStatus_eq_dec : EqDecision SegmentStatus.
Proof. solve_decision. Defined.

Module Scene.

Record t : Type := mk {
  sceneNumber : nat;
  scenePrompt : string;
  visualDescription : option string;
  continuityNotes : option string;
  narrationText : option string;
  startTime : Z;
  endTime : Z;
  transitionType : TransitionType
}.

End Scene.

Module Segment.

Record t : Type := mk {
  segmentNumber : nat;
  soraJobId : option string;
  status : SegmentStatus;
  filePath : option string;
  lastFramePath : option string;
  retryCount : nat;
  error : option string;
  startedAt : option Z;
  completedAt : option Z
}.

(** One entry of a [$set] (or [$inc]) on [segments.$.<field>]. *)
Inductive Update : Type :=
| SetStatus (s : SegmentStatus)
| SetRetryCount (n : nat)
| IncRetryCount (n : nat)
| SetStartedAt (d : Z)
| SetSoraJobId (j : string)
| SetFilePath (p : string)
| SetCompletedAt (d : Z)
| SetLastFramePath (p : string)
| SetError (e : option string).

Definition apply (u : Update) (s : t) : t :=
  match u with
  | SetStatus x =>
      mk (segmentNumber s) (soraJobId s) x (filePath s) (lastFramePath s)
         (retryCount s) (error s) (startedAt s) (completedAt s)
  | SetRetryCount n =>
      mk (segmentNumber s) (soraJobId s) (status s) (filePath s)
         (lastFramePath s) n (error s) (startedAt s) (completedAt s)
  | IncRetryCount n =>
      mk (segmentNumber s) (soraJobId s) (status s) (filePath s)
         (lastFramePath s) (retryCount s + n) (error s) (startedAt s)
         (completedAt s)
  | SetStartedAt d =>
      mk (segmentNumber s) (soraJobId s) (status s) (filePath s)
         (lastFramePath s) (retryCount s) (error s) (Some d) (completedAt s)
  | SetSoraJobId j =>
      mk (segmentNumber s) (Some j) (status s) (filePath s)
         (lastFramePath s) (retryCount s) (error s) (startedAt s)
         (completedAt s)
  | SetFilePath p =>
      mk (segmentNumber s) (soraJobId s) (status s) (Some p)
         (lastFramePath s) (retryCount s) (error s) (startedAt s)
         (completedAt s)
  | SetCompletedAt d =>
      mk (segmentNumber s) (soraJobId s) (status s) (filePath s)
         (lastFramePath s) (retryCount s) (error s) (startedAt s) (Some d)
  | SetLastFramePath p =>
      mk (segmentNumber s) (soraJobId s) (status s) (filePath s) (Some p)
         (retryCount s) (error s) (startedAt s) (completedAt s)
  | SetError e =>
      mk (segmentNumber s) (soraJobId s) (status s) (filePath s)
         (lastFramePath s) (retryCount s) e (startedAt s) (completedAt s)
  end.

Definition applyAll (us : list Update) (s : t) : t :=
  fold_left (fun acc u => apply u acc) us s.

(** The positional operator [$]: the update goes to the first element
    of the array whose [segmentNumber] is [n]; [None] when the query
    [{'segments.segmentNumber': n}] matches no element. *)
Fixpoint updateFirst (n : nat) (us : list Update) (l : list t)
  : option (list t) :=
  match l with
  | [] => None
  | s :: r =>
      if Nat.eqb (segmentNumber s) n then Some (applyAll us s :: r)
      else option_map (cons s) (updateFirst n us r)
  end.

(** A segment as pushed by the pre-save hook. *)
Definition fresh (i : nat) : t :=
  mk i None SPending None None 0 None None None.

End Segment.

Module File.

Record t : Type := mk {
  path : string;
  url : string;
  size : Z;
  format : string;
  duration : option Z
}.

End File.

Module Files.

Record t : Type := mk {
  stitched_720p : option File.t;
  final_720p : option File.t;
  final_480p : option File.t;
  audio : option File.t;
  thumbnail : option File.t
}.

Definition empty : t := mk None None None None None.

End Files.

Module Meta.

Record t : Type := mk {
  resolution : option string;
  fps : option Z;
  codec : option string;
  voiceId : option string
}.

End Meta.

Module Video.

Record t : Type := mk {
  userId : string;
  title : string;
  originalPrompt : string;
  enhancedPrompt : option string;
  targetDuration : Z;
  actualDuration : option Z;
  segmentCount : nat;
  segmentDuration : Z;
  scenes : list Scene.t;
  status : VideoStatus;
  progress : Z;
  currentPhase : option string;
  currentSegment : nat;
  errorMessage : option string;
  segments : list Segment.t;
  files : Files.t;
  metadata : Meta.t;
  completedAt : option Z
}.

(** One entry of the update document of [findByIdAndUpdate]. *)
Inductive Update : Type :=
| SetScenes (l : list Scene.t)
| SetSegmentCount (n : nat)
| SetStatus (s : VideoStatus)
| SetProgress (p : Z)
| SetCurrentPhase (m : string)
| SetCurrentSegment (n : nat)
| SetErrorMessage (e : option string)
| SetSegments (l : list Segment.t)
| SetStitched720p (f : File.t)
| SetFinal720p (f : File.t)
| SetFinal480p (f : File.t)
| SetAudio (f : File.t)
| SetThumbnail (f : File.t)
| SetActualDuration (d : Z)
| SetResolution (r : string)
| SetFps (n : Z)
| SetCodec (c : string)
| SetCompletedAt (d : Z).

Definition withFiles (f : Files.t) (v : t) : t :=
  mk (userId v) (title v) (originalPrompt v) (enhancedPrompt v)
     (targetDuration v) (actualDuration v) (segmentCount v)
     (segmentDuration v) (scenes v) (status v) (progress v)
     (currentPhase v) (currentSegment v) (errorMessage v) (segments v)
     f (metadata v) (completedAt v).

Definition withMetadata (m : Meta.t) (v : t) : t :=
  mk (userId v) (title v) (originalPrompt v) (enhancedPrompt v)
     (targetDuration v) (actualDuration v) (segmentCount v)
     (segmentDuration v) (scenes v) (status v) (progress v)
     (currentPhase v) (currentSegment v) (errorMessage v) (segments v)
     (files v) m (completedAt v).

Definition apply (u : Update) (v : t) : t :=
  match u with
  | SetScenes l =>
      mk (userId v) (title v) (originalPrompt v) (enhancedPrompt v)
         (targetDuration v) (actualDuration v) (segmentCount v)
         (segmentDuration v) l (status v) (progress v)
         (currentPhase v) (currentSegment v) (errorMessage v) (segments v)
         (files v) (metadata v) (completedAt v)
  | SetSegmentCount n =>
      mk (userId v) (title v) (originalPrompt v) (enhancedPrompt v)
         (targetDuration v) (actualDuration v) n
         (segmentDuration v) (scenes v) (status v) (progress v)
         (currentPhase v) (currentSegment v) (errorMessage v) (segments v)
         (files v) (metadata v) (completedAt v)
  | SetStatus s =>
      mk (userId v) (title v) (originalPrompt v) (enhancedPrompt v)
         (targetDuration v) (actualDuration v) (segmentCount v)
         (segmentDuration v) (scenes v) s (progress v)
         (currentPhase v) (currentSegment v) (errorMessage v) (segments v)
         (files v) (metadata v) (completedAt v)
  | SetProgress p =>
      mk (userId v) (title v) (originalPrompt v) (enhancedPrompt v)
         (targetDuration v) (actualDuration v) (segmentCount v)
         (segmentDuration v) (scenes v) (status v) p
         (currentPhase v) (currentSegment v) (errorMessage v) (segments v)
         (files v) (metadata v) (completedAt v)
  | SetCurrentPhase m =>
      mk (userId v) (title v) (originalPrompt v) (enhancedPrompt v)
         (targetDuration v) (actualDuration v) (segmentCount v)
         (segmentDuration v) (scenes v) (status v) (progress v)
         (Some m) (currentSegment v) (errorMessage v) (segments v)
         (files v) (metadata v) (completedAt v)
  | SetCurrentSegment n =>
      mk (userId v) (title v) (originalPrompt v) (enhancedPrompt v)
         (targetDuration v) (actualDuration v) (segmentCount v)
         (segmentDuration v) (scenes v) (status v) (progress v)
         (currentPhase v) n (errorMessage v) (segments v)
         (files v) (metadata v) (completedAt v)
  | SetErrorMessage e =>
      mk (userId v) (title v) (originalPrompt v) (enhancedPrompt v)
         (targetDuration v) (actualDuration v) (segmentCount v)
         (segmentDuration v) (scenes v) (status v) (progress v)
         (currentPhase v) (currentSegment v) e (segments v)
         (files v) (metadata v) (completedAt v)
  | SetSegments l =>
      mk (userId v) (title v) (originalPrompt v) (enhancedPrompt v)
         (targetDuration v) (actualDuration v) (segmentCount v)
         (segmentDuration v) (scenes v) (status v) (progress v)
         (currentPhase v) (currentSegment v) (errorMessage v) l
         (files v) (metadata v) (completedAt v)
  | SetStitched720p f =>
      let o := files v in
      withFiles (Files.mk (Some f) (Files.final_720p o) (Files.final_480p o)
                          (Files.audio o) (Files.thumbnail o)) v
  | SetFinal720p f =>
      let o := files v in
      withFiles (Files.mk (Files.stitched_720p o) (Some f)
                          (Files.final_480p o) (Files.audio o)
                          (Files.thumbnail o)) v
  | SetFinal480p f =>
      let o := files v in
      withFiles (Files.mk (Files.stitched_720p o) (Files.final_720p o)
                          (Some f) (Files.audio o) (Files.thumbnail o)) v
  | SetAudio f =>
      let o := files v in
      withFiles (Files.mk (Files.stitched_720p o) (Files.final_720p o)
                          (Files.final_480p o) (Some f)
                          (Files.thumbnail o)) v
  | SetThumbnail f =>
      let o := files v in
      withFiles (Files.mk (Files.stitched_720p o) (Files.final_720p o)
                          (Files.final_480p o) (Files.audio o) (Some f)) v
  | SetActualDuration d =>
      mk (userId v) (title v) (originalPrompt v) (enhancedPrompt v)
         (targetDuration v) (Some d) (segmentCount v)
         (segmentDuration v) (scenes v) (status v) (progress v)
         (currentPhase v) (currentSegment v) (errorMessage v) (segments v)
         (files v) (metadata v) (completedAt v)
  | SetResolution r =>
      let o := metadata v in
      withMetadata (Meta.mk (Some r) (Meta.fps o) (Meta.codec o)
                            (Meta.voiceId o)) v
  | SetFps n =>
      let o := metadata v in
      withMetadata (Meta.mk (Meta.resolution o) (Some n) (Meta.codec o)
                            (Meta.voiceId o)) v
  | SetCodec c =>
      let o := metadata v in
      withMetadata (Meta.mk (Meta.resolution o) (Meta.fps o) (Some c)
                            (Meta.voiceId o)) v
  | SetCompletedAt d =>
      mk (userId v) (title v) (originalPrompt v) (enhancedPrompt v)
         (targetDuration v) (actualDuration v) (segmentCount v)
         (segmentDuration v) (scenes v) (status v) (progress v)
         (currentPhase v) (currentSegment v) (errorMessage v) (segments v)
         (files v) (metadata v) (Some d)
  end.

Definition applyAll (us : list Update) (v : t) : t :=
  fold_left (fun acc u => apply u acc) us v.

(** [video.enhancedPrompt || video.originalPrompt] *)
Definition promptOf (v : t) : string :=
  match enhancedPrompt v with
  | Some p => if JS.truthy p then p else originalPrompt v
  | None => originalPrompt v
  end.

(** [['completed', 'failed', 'pending'].includes(status)] *)
Definition notProcessing (s : VideoStatus) : bool :=
  match s with
  | VCompleted | VFailed | VPending => true
  | _ => false
  end.

End Video.

(** ** Results, external calls and the environment *)

Inductive Res (A : Type) : Type :=
| Ok (a : A)
| Throw (e : JS.Error).
Arguments Ok {A} a.
Arguments Throw {A} e.

(** How one call of [segmentGenerationService.generateAndSaveSegment]
    ends: the start request throws, or the job starts (its id is handed
    to [onJobStarted]) and polling returns [completed], returns [failed]
    with an error text, or writing the file throws. *)
Inductive GenFinish : Type :=
| GenCompleted
| GenFailed (error : string)
| GenThrows (e : JS.Error).

Inductive GenOutcome : Type :=
| StartThrows (e : JS.Error)
| Started (jobId : string) (fin : GenFinish).

(** A scene as found in the parsed answer of the language model. *)
Record RawScene : Type := mkRawScene {
  raw_sceneNumber : option nat;
  raw_scenePrompt : option string;
  raw_prompt : option string;
  raw_visualDescription : option string;
  raw_continuityNotes : option string;
  raw_narrationText : option string;
  raw_startTime : option Z;
  raw_endTime : option Z;
  raw_transitionType : option string
}.

(** Result of [frameExtractionService.getVideoMetadata]. *)
Record Probe : Type := mkProbe {
  probe_duration : Z;
  probe_width : nat;
  probe_height : nat;
  probe_fps : Z;
  probe_codec : string
}.

(** Calls that leave the process, and the answer to a cancel request.
    [EvGenerateAndSaveSegment] carries the attempt number of the caller's
    retry loop, which identifies the call within a run. *)
Inductive Event : Type :=
| EvCreateVideoDirectories (userId videoId : string)
| EvDecomposePrompt (prompt : string) (targetDuration : Z)
| EvGenerateAndSaveSegment (scenePrompt : string) (segmentNumber : nat)
    (outputPath : string) (previousFramePath : option string)
    (duration : Z) (attempt : nat)
| EvExtractLastFrame (segmentPath framePath : string)
| EvGetExistingSegmentPaths (userId videoId : string)
| EvStitchWithCrossfade (segmentPaths : list string) (output : string)
| EvGetFileSize (path : string)
| EvGenerateNarrationScript (prompt : string) (scenes : list Scene.t)
    (targetDuration : Z)
| EvGenerateNarration (script : string) (output : string)
| EvMergeAudioVideo (video audio output : string)
| EvGenerateThumbnail (video output : string)
| EvGetVideoMetadata (path : string)
| EvTranscodeResolution (input output : string) (width height : nat)
| EvFileExists (path : string)
| EvOperation (name : string) (attempt : nat)
| EvSleep (ms : Z)
| EvCancel (videoId : string) (cancelled : bool)
| EvEnhancePrompt (prompt : string) (targetDuration : Z).

(** [config.duration], [config.processing] and the storage settings,
    with the defaults of [getEnvNumber]. *)
Record Config : Type := mkConfig {
  cfg_segment : Z;
  cfg_maxRetries : nat;
  cfg_lockTimeoutMs : Z;
  cfg_uploadDir : string;
  cfg_port : nat
}.

Definition defaultConfig : Config :=
  mkConfig 12 3 1800000 "/uploads" 3001.

(** The environment of a run: what every external call answers, how long
    it takes, and for which video (if any) a cancel request is served
    while the call is in flight. *)
Record Env : Type := mkEnv {
  elapsed : Event -> Z;
  cancelDuring : Event -> option string;
  fails : Event -> option JS.Error;
  llm : string -> Z -> Res (list RawScene);
  sora : nat -> nat -> GenOutcome;
  extractLastFrame : string -> string -> Res string;
  readSegments : string -> string -> list string;
  fileSize : string -> Res Z;
  narrationWriter : string -> list Scene.t -> Z -> Res string;
  probe : string -> Res Probe;
  diskHas : string -> bool
}.

Record World : Type := mkWorld {
  videos : gmap string Video.t;
  locks : gmap string Lock.t;
  now : Z;
  trace : list Event
}.

(** ** The monad of asynchronous methods *)

Definition M (A : Type) : Type := World -> Res A * World.

Definition ret {A} (a : A) : M A := fun w => (Ok a, w).

Definition throw {A} (e : JS.Error) : M A := fun w => (Throw e, w).

Definition bind {A B} (m : M A) (k : A -> M B) : M B :=
  fun w =>
    match m w with
    | (Ok a, w1) => k a w1
    | (Throw e, w1) => (Throw e, w1)
    end.

(** [try { m } catch (error) { h error }] *)
Definition tryCatch {A} (m : M A) (h : JS.Error -> M A) : M A :=
  fun w =>
    match m w with
    | (Ok a, w1) => (Ok a, w1)
    | (Throw e, w1) => h e w1
    end.

(** [try { m } finally { f }] *)
Definition tryFinally {A} (m : M A) (f : M unit) : M A :=
  fun w =>
    match m w with
    | (r, w1) =>
        match f w1 with
        | (Ok _, w2) => (r, w2)
        | (Throw e, w2) => (Throw e, w2)
        end
    end.

(** [Promise.resolve] of a result computed elsewhere. *)
Definition liftRes {A} (r : Res A) : M A := fun w => (r, w).

Declare Scope js_scope.
Delimit Scope js_scope with js.
Notation "x <- c1 ;; c2" := (bind c1 (fun x => c2))
  (at level 100, c1 at next level, right associativity) : js_scope.
Notation "c1 ;; c2" := (bind c1 (fun _ => c2))
  (at level 100, right associativity) : js_scope.
Open Scope js_scope.

(** [new Date()] and [Date.now()] *)
Definition getNow : M Z := fun w => (Ok (now w), w).

Definition setVideos (vs : gmap string Video.t) : M unit :=
  fun w => (Ok tt, mkWorld vs (locks w) (now w) (trace w)).

Definition setLocks (ls : gmap string Lock.t) : M unit :=
  fun w => (Ok tt, mkWorld (videos w) ls (now w) (trace w)).

Definition logEvent (e : Event) : M unit :=
  fun w => (Ok tt, mkWorld (videos w) (locks w) (now w) (trace w ++ [e])).

Definition advance (dt : Z) : M unit :=
  fun w => (Ok tt, mkWorld (videos w) (locks w) (now w + dt)%Z (trace w)).

(** [Video.findById], for an identifier that is an ObjectId. *)
Definition findById (videoId : string) : M (option Video.t) :=
  fun w => (Ok (videos w !! videoId), w).

(** [Video.findByIdAndUpdate(videoId, update)]: nothing happens when no
    document has this id. *)
Definition findByIdAndUpdate (videoId : string) (us : list Video.Update)
  : M unit :=
  fun w =>
    setVideos (alter (Video.applyAll us) videoId (videos w)) w.

(** An update of [segments.$] under the query
    [{_id: videoId, 'segments.segmentNumber': n}]. *)
Definition updateSegment (videoId : string) (n : nat)
    (us : list Segment.Update) : M unit :=
  fun w =>
    match videos w !! videoId with
    | Some v =>
        match Segment.updateFirst n us (Video.segments v) with
        | Some l =>
            setVideos (<[videoId := Video.apply (Video.SetSegments l) v]>
                         (videos w)) w
        | None => (Ok tt, w)
        end
    | None => (Ok tt, w)
    end.

(** ** The processing lock (models/processing-lock.model) *)

Module ProcessingLock.

(** The [$or] of the acquire query on a document that has the key:
    [{isLocked: false}] or [{expiresAt: {$lt: now}}].  A missing or null
    [expiresAt] is not less than any date. *)
Definition acquirable (now : Z) (l : Lock.t) : bool :=
  negb (Lock.isLocked l)
  || match Lock.expiresAt l with
     | Some e => (e <? now)%Z
     | None => false
     end.

(** The server error of a unique-index violation. *)
Definition duplicateKey : JS.Error :=
  JS.mkError "E11000 duplicate key error collection" (JS.NumCode 11000).

(** [findOneAndUpdate({key, ...filter}, {$set}, {new: true, upsert: true})]
    on a collection with a unique index on [key]: the document with this
    key is updated when it passes the filter; when no document passes,
    the upsert inserts one, which the index refuses if the key is taken. *)
Definition findOneAndUpdateUpsert (key : string) (filter : Lock.t -> bool)
    (set : Lock.t -> Lock.t) (inserted : Lock.t) : M (option Lock.t) :=
  fun w =>
    match locks w !! key with
    | Some l =>
        if filter l
        then (_ <- setLocks (<[key := set l]> (locks w));;
              ret (Some (set l))) w
        else (Throw duplicateKey, w)
    | None =>
        (_ <- setLocks (<[key := inserted]> (locks w));;
         ret (Some inserted)) w
    end.

Definition acquireLock (key lockedBy : string) (metadata : Lock.Metadata)
    (timeoutMs : Z) : M (option Lock.t) :=
  now <- getNow;;
  let expiresAt := (now + timeoutMs)%Z in
  tryCatch
    (lock <- findOneAndUpdateUpsert key (acquirable now)
               (fun l => Lock.mk (Lock.key l) true lockedBy (Some now)
                                 (Some expiresAt) metadata)
               (Lock.mk key true lockedBy (Some now) (Some expiresAt)
                        metadata);;
     match lock with
     | Some l =>
         if String.eqb (Lock.lockedBy l) lockedBy then ret (Some l)
         else ret None
     | None => ret None
     end)
    (fun error =>
       match JS.code error with
       | JS.NumCode 11000 => ret None
       | _ => throw error
       end).

(** The [$set] of a release: [isLocked: false, expiresAt: null,
    metadata: {}]. *)
Definition released (l : Lock.t) : Lock.t :=
  Lock.mk (Lock.key l) false (Lock.lockedBy l) (Lock.lockedAt l) None
          Lock.noMetadata.

Definition releaseLock (key : string) : M bool :=
  fun w =>
    match locks w !! key with
    | Some l =>
        (_ <- setLocks (<[key := released l]> (locks w));; ret true) w
    | None => (Ok false, w)
    end.

Definition getLock (key : string) : M (option Lock.t) :=
  fun w =>
    match locks w !! key with
    | Some l =>
        if Lock.isLocked l
           && match Lock.expiresAt l with
              | Some e => (e <? now w)%Z
              | None => false
              end
        then (_ <- setLocks (<[key := released l]> (locks w));;
              ret (Some (released l))) w
        else (Ok (Some l), w)
    | None => (Ok None, w)
    end.

Definition isLocked (key : string) : M bool :=
  lock <- getLock key;;
  ret match lock with
      | Some l => Lock.isLocked l
      | None => false
      end.

(** The filter of [cleanupExpiredLocks]:
    [{isLocked: true, expiresAt: {$lt: now}}]. *)
Definition expiredHeld (now : Z) (l : Lock.t) : bool :=
  Lock.isLocked l
  && match Lock.expiresAt l with
     | Some e => (e <? now)%Z
     | None => false
     end.

(** [updateMany(filter, {$set})] and its [modifiedCount]: every row that
    passes the filter is modified, since its [isLocked] changes. *)
Definition cleanupExpiredLocks : M nat :=
  now <- getNow;;
  fun w =>
    let expired :=
      filter (fun kl => expiredHeld now (snd kl) = true) (locks w) in
    (setLocks ((fun l => if expiredHeld now l then released l else l)
                 <$> locks w);;
     ret (size expired)) w.

End ProcessingLock.

(** ** The lock service (services/lock.service) *)

Module LockService.

Definition acquireVideoProcessingLock (cfg : Config) (lockedBy : string)
    (metadata : Lock.Metadata) : M (option Lock.t) :=
  ProcessingLock.acquireLock Lock.VIDEO_PROCESSING lockedBy metadata
    (cfg_lockTimeoutMs cfg).

Definition releaseVideoProcessingLock : M bool :=
  ProcessingLock.releaseLock Lock.VIDEO_PROCESSING.




(** The validators of [processingLockSchema] and of its metadata, which
    [save] runs on every path of a loaded row, modified or not: [key] and
    [lockedBy] are required, and [metadata.targetDuration], when present,
    lies between 60 and 120.  The update of [acquireLock] does not run
    them. *)
Definition validates (l : Lock.t) : bool :=
  JS.truthy (Lock.key l) && JS.truthy (Lock.lockedBy l)
  && match Lock.targetDuration (Lock.metadata l) with
     | Some d => (60 <=? d)%Z && (d <=? 120)%Z
     | None => true
     end.


Definition forceReleaseLock : M bool :=
  ProcessingLock.releaseLock Lock.VIDEO_PROCESSING.

Definition cleanupExpiredLocks : M nat :=
  ProcessingLock.cleanupExpiredLocks.


End LockService.

(** A lock row is held when it is locked, whatever its expiry. *)
Definition lockHeld (w : World) (key : string) : Prop :=
  exists l, locks w !! key = Some l /\ Lock.isLocked l = true.

(** ** Cancelling a run, and awaiting an external call *)

(** [ProcessingService.cancelProcessing] *)
Definition cancelProcessing (videoId : string) : M bool :=
  video <- findById videoId;;
  match video with
  | None => ret false
  | Some v =>
      if Video.notProcessing (Video.status v) then ret false
      else
        findByIdAndUpdate videoId
          [Video.SetStatus VFailed;
           Video.SetErrorMessage (Some "Processing cancelled by user")];;
        LockService.releaseVideoProcessingLock;;
        ret true
  end.

(** Awaiting a call that leaves the process: the call is logged, [dt]
    milliseconds pass, and a cancel request that the environment delivers
    meanwhile is served before the caller resumes. *)
Definition await (env : Env) (e : Event) (dt : Z) : M unit :=
  logEvent e;;
  advance dt;;
  match cancelDuring env e with
  | Some videoId =>
      cancelled <- cancelProcessing videoId;;
      logEvent (EvCancel videoId cancelled)
  | None => ret tt
  end.

Definition external (env : Env) (e : Event) : M unit :=
  await env e (elapsed env e).

(** An external call without a result: it may throw. *)
Definition externalUnit (env : Env) (e : Event) : M unit :=
  external env e;;
  match fails env e with
  | Some err => throw err
  | None => ret tt
  end.

(** [new Promise(resolve => setTimeout(resolve, ms))] *)
Definition sleep (env : Env) (ms : Z) : M unit :=
  await env (EvSleep ms) ms.

(** ** The retry service (utils/retry) *)

Module RetryService.

Record RetryConfig : Type := mkRetryConfig {
  maxRetries : nat;
  baseDelay : Z;
  maxDelay : Z;
  backoffMultiplier : Z
}.

Definition DEFAULT_RETRY_CONFIG : RetryConfig :=
  mkRetryConfig 3 2000 30000 2.

Record Options : Type := mkOptions {
  videoId : option string;
  segmentNumber : option nat;
  operation : string
}.

(** [String.prototype.toLowerCase] on the letters A to Z. *)
Definition lowerChar (c : ascii) : ascii :=
  let n := nat_of_ascii c in
  if (65 <=? n) && (n <=? 90) then ascii_of_nat (n + 32) else c.

Fixpoint toLowerCase (s : string) : string :=
  match s with
  | EmptyString => EmptyString
  | String c r => String (lowerChar c) (toLowerCase r)
  end.

Fixpoint startsWith (p s : string) : bool :=
  match p, s with
  | EmptyString, _ => true
  | String a p', String b s' => Ascii.eqb a b && startsWith p' s'
  | String _ _, EmptyString => false
  end.

(** [String.prototype.includes] *)
Fixpoint includes (s p : string) : bool :=
  startsWith p s
  || match s with
     | EmptyString => false
     | String _ r => includes r p
     end.

Definition isRetryableError (error : JS.Error) : bool :=
  let message := toLowerCase (JS.message error) in
  match JS.code error with
  | JS.StrCode c =>
      String.eqb c "ECONNRESET" || String.eqb c "ETIMEDOUT"
      || String.eqb c "ENOTFOUND" || String.eqb c "EAI_AGAIN"
  | _ => false
  end
  || includes message "rate limit" || includes message "too many requests"
  || includes message "service unavailable" || includes message "503"
  || includes message "timeout"
  || includes message "502" || includes message "504".

Definition incrementRetryCount (videoId : string) (segmentNumber : nat)
  : M unit :=
  updateSegment videoId segmentNumber [Segment.IncRetryCount 1].

Definition markSegmentFailed (videoId : string) (segmentNumber : nat)
    (errorMessage : string) : M unit :=
  updateSegment videoId segmentNumber
    [Segment.SetStatus SFailed; Segment.SetError (Some errorMessage)].

(** [if (videoId && segmentNumber !== undefined) k videoId segmentNumber] *)
Definition whenSegment (o : Options) (k : string -> nat -> M unit)
  : M unit :=
  match videoId o, segmentNumber o with
  | Some v, Some n => if JS.truthy v then k v n else ret tt
  | _, _ => ret tt
  end.

(** The delay computed before the retry that follows attempt [attempt]. *)
Definition backoff (c : RetryConfig) (attempt : nat) : Z :=
  Z.min (baseDelay c * JS.pow (backoffMultiplier c) (attempt - 1))%Z
        (maxDelay c).

Section WithRetry.

Context {T : Type} (env : Env) (c : RetryConfig).

(** The retried function: what its [attempt]-th call of this
    [withRetry] answers. *)
Variable fn : nat -> Res T.

(** The [for] loop of [withRetry], [remaining] iterations before
    [attempt] exceeds [maxRetries]. *)
Fixpoint withRetryFrom (o : Options) (remaining attempt : nat)
    (lastError : option JS.Error) : M T :=
  match remaining with
  | 0 =>
      throw match lastError with
            | Some e => e
            | None => JS.newError "All retry attempts failed"
            end
  | S remaining' =>
      tryCatch
        (external env (EvOperation (operation o) attempt);;
         liftRes (fn attempt))
        (fun error =>
           let isLastAttempt := Nat.eqb attempt (maxRetries c) in
           let isRetryable := isRetryableError error in
           if negb isRetryable || isLastAttempt
           then
             whenSegment o
               (fun v n => markSegmentFailed v n (JS.message error));;
             throw error
           else
             let delay := backoff c attempt in
             whenSegment o incrementRetryCount;;
             sleep env delay;;
             withRetryFrom o remaining' (S attempt) (Some error))
  end.

Definition withRetry (o : Options) : M T :=
  withRetryFrom o (maxRetries c) 1 None.

End WithRetry.

(** [retryFailedSegment], the retried [generateFn] answering
    [generateFn attempt] at its [attempt]-th call. *)
Definition retryFailedSegment (env : Env) (c : RetryConfig)
    (videoId : string) (segmentNumber : nat) (generateFn : nat -> Res string)
  : M string :=
  video <- findById videoId;;
  match video with
  | None => throw (JS.newError "Video not found")
  | Some v =>
      match List.find (fun s => Nat.eqb (Segment.segmentNumber s) segmentNumber)
                      (Video.segments v) with
      | None => throw (JS.newError "Segment not found")
      | Some segment =>
          if maxRetries c <=? Segment.retryCount segment
          then throw (JS.newError ("Segment " +:+ JS.ofNat segmentNumber
                                   +:+ " has exceeded max retry attempts"))
          else
            updateSegment videoId segmentNumber
              [Segment.SetStatus SGenerating; Segment.SetError None];;
            withRetry env c generateFn
              (mkOptions (Some videoId) (Some segmentNumber)
                 ("Segment " +:+ JS.ofNat segmentNumber +:+ " generation"))
      end
  end.

End RetryService.

(** ** Storage paths (services/storage.service) *)

Module StorageService.

Record VideoPathsResult : Type := mkPaths {
  videoDir : string;
  segmentsDir : string;
  framesDir : string;
  stitched720p : string;
  final720p : string;
  final480p : string;
  audio : string;
  thumbnail : string
}.

(** [path.join] of components that hold no separator. *)
Definition pathJoin (parts : list string) : string := JS.join "/" parts.

Definition getVideoPaths (cfg : Config) (userId videoId : string)
  : VideoPathsResult :=
  let videoDir := pathJoin [cfg_uploadDir cfg; "videos"; userId; videoId] in
  mkPaths videoDir
    (pathJoin [videoDir; "segments"])
    (pathJoin [videoDir; "frames"])
    (pathJoin [videoDir; "stitched_720p.mp4"])
    (pathJoin [videoDir; "final_720p.mp4"])
    (pathJoin [videoDir; "final_480p.mp4"])
    (pathJoin [videoDir; "audio.mp3"])
    (pathJoin [videoDir; "thumbnail.jpg"]).

Definition createVideoDirectories (env : Env) (cfg : Config)
    (userId videoId : string) : M VideoPathsResult :=
  externalUnit env (EvCreateVideoDirectories userId videoId);;
  ret (getVideoPaths cfg userId videoId).

Definition getSegmentPath (cfg : Config) (userId videoId : string)
    (segmentNumber : nat) : string :=
  pathJoin [cfg_uploadDir cfg; "videos"; userId; videoId; "segments";
            "segment_" +:+ JS.padStart3 segmentNumber +:+ ".mp4"].

Definition getFramePath (cfg : Config) (userId videoId : string)
    (segmentNumber : nat) : string :=
  pathJoin [cfg_uploadDir cfg; "videos"; userId; videoId; "frames";
            "frame_" +:+ JS.padStart3 segmentNumber +:+ ".jpg"].

(** [getExistingSegmentPaths] never throws: a failed [readdir] gives the
    empty list. *)
Definition getExistingSegmentPaths (env : Env) (userId videoId : string)
  : M (list string) :=
  external env (EvGetExistingSegmentPaths userId videoId);;
  ret (readSegments env userId videoId).

(** [path.join] validates each argument before it joins: one that is
    not a string is rejected with a [TypeError]. *)
Definition invalidArgType : JS.Error :=
  JS.mkError
    ("The " +:+ JS.quoted "path"
     +:+ " argument must be of type string. Received an instance of ObjectId")
    (JS.StrCode "ERR_INVALID_ARG_TYPE").

Definition pathArg (a : JS.PathArg) : Res string :=
  match a with
  | JS.PathString s => Ok s
  | JS.PathObjectId _ => Throw invalidArgType
  end.

(** [getVideoPaths] and [getExistingSegmentPaths] as JavaScript calls
    them, with a [userId] whose type nothing checks before [path.join]
    sees it.  In [getExistingSegmentPaths] the join stands before the
    [try]. *)
Definition getVideoPathsOf (cfg : Config) (userId : JS.PathArg)
    (videoId : string) : Res VideoPathsResult :=
  match pathArg userId with
  | Ok u => Ok (getVideoPaths cfg u videoId)
  | Throw e => Throw e
  end.

Definition getExistingSegmentPathsOf (env : Env) (userId : JS.PathArg)
    (videoId : string) : M (list string) :=
  u <- liftRes (pathArg userId);;
  getExistingSegmentPaths env u videoId.

Definition getFileSize (env : Env) (filePath : string) : M Z :=
  external env (EvGetFileSize filePath);;
  liftRes (fileSize env filePath).

Definition fileExists (env : Env) (filePath : string) : M bool :=
  external env (EvFileExists filePath);;
  ret (diskHas env filePath).

(** [path.relative(uploadDir, filePath)] for a path below [uploadDir]. *)
Fixpoint stripPrefix (p s : string) : string :=
  match p, s with
  | EmptyString, String "/" r => r
  | String a p', String b s' => if Ascii.eqb a b then stripPrefix p' s' else s
  | _, _ => s
  end.

Definition getPublicUrl (cfg : Config) (filePath : string) : string :=
  "http://localhost:" +:+ JS.ofNat (cfg_port cfg) +:+ "/uploads/"
  +:+ stripPrefix (cfg_uploadDir cfg) filePath.

End StorageService.

(** ** Scene decomposition (services/scene-decomposition.service) *)

Module SceneDecompositionService.

Record SceneDecompositionResult : Type := mkResult {
  scenes : list Scene.t;
  totalDuration : Z;
  segmentCount : nat
}.

(** [targetDuration === 5 ? 5 : config.duration.segment] *)
Definition segmentDurationOf (cfg : Config) (targetDuration : Z) : Z :=
  if (targetDuration =? 5)%Z then 5%Z else cfg_segment cfg.

(** [Math.ceil(targetDuration / segmentDuration)] *)
Definition segmentCountOf (cfg : Config) (targetDuration : Z) : nat :=
  Z.to_nat (JS.ceilDiv targetDuration (segmentDurationOf cfg targetDuration)).

(** [a || b] on optional strings. *)
Definition orElse (a : option string) (b : string) : string :=
  match a with
  | Some s => if JS.truthy s then s else b
  | None => b
  end.

Definition transformScene (segmentDuration : Z) (index : nat)
    (scene : RawScene) : Scene.t :=
  Scene.mk
    match raw_sceneNumber scene with
    | Some (S n) => S n
    | _ => index + 1
    end
    (orElse (raw_scenePrompt scene) (orElse (raw_prompt scene) ""))
    (Some (orElse (raw_visualDescription scene) ""))
    (Some (orElse (raw_continuityNotes scene) ""))
    (Some (orElse (raw_narrationText scene) ""))
    match raw_startTime scene with
    | Some t => t
    | None => (Z.of_nat index * segmentDuration)%Z
    end
    match raw_endTime scene with
    | Some t => t
    | None => ((Z.of_nat index + 1) * segmentDuration)%Z
    end
    match raw_transitionType scene with
    | Some "cut" => Cut
    | _ => Crossfade
    end.

(** [rawScenes.map((scene, index) => ...)]; the expected count is only
    compared for a warning. *)
Definition validateAndTransformScenes (rawScenes : list RawScene)
    (expectedCount : nat) (segmentDuration : Z) : list Scene.t :=
  imap (transformScene segmentDuration) rawScenes.

Definition decomposePrompt (env : Env) (cfg : Config) (prompt : string)
    (targetDuration : Z) : M SceneDecompositionResult :=
  let segmentDuration := segmentDurationOf cfg targetDuration in
  let segmentCount := segmentCountOf cfg targetDuration in
  tryCatch
    (external env (EvDecomposePrompt prompt targetDuration);;
     rawScenes <- liftRes (llm env prompt targetDuration);;
     let scenes :=
       validateAndTransformScenes rawScenes segmentCount segmentDuration in
     ret (mkResult scenes targetDuration segmentCount))
    (fun error =>
       throw (JS.newError ("Scene decomposition failed: "
                           +:+ JS.message error))).

Definition fallbackScene (prompt : string) (segmentDuration : Z)
    (segmentCount i : nat) : Scene.t :=
  Scene.mk (i + 1)
    (prompt +:+ " - Scene " +:+ JS.ofNat (i + 1) +:+ " of "
     +:+ JS.ofNat segmentCount)
    (Some "")
    (Some (if 0 <? i then "Continue from previous scene" else ""))
    None
    (Z.of_nat i * segmentDuration)%Z
    ((Z.of_nat i + 1) * segmentDuration)%Z
    Crossfade.

Definition generateFallbackScenes (cfg : Config) (prompt : string)
    (targetDuration : Z) : SceneDecompositionResult :=
  let segmentDuration := segmentDurationOf cfg targetDuration in
  let segmentCount := segmentCountOf cfg targetDuration in
  mkResult
    (List.map (fallbackScene prompt segmentDuration segmentCount)
              (seq 0 segmentCount))
    targetDuration segmentCount.

End SceneDecompositionService.

(** ** The recovery service (utils/recovery) *)

Module RecoveryService.

Record RecoveryResult : Type := mkResult {
  recovered : bool;
  message : string;
  resumeFrom : option nat
}.

(** The loop of [recoverFromGeneration]: [resumeFrom] becomes [i + 2]
    while [segments[i]] is completed, and the loop breaks at the first
    segment that is not. *)
Fixpoint resumeLoop (segments : list Segment.t) (i resumeFrom : nat) : nat :=
  match segments with
  | [] => resumeFrom
  | s :: r =>
      match Segment.status s with
      | SCompleted => resumeLoop r (S i) (i + 2)
      | _ => resumeFrom
      end
  end.

Definition recoverFromGeneration (_id : string) (video : Video.t)
  : M RecoveryResult :=
  let segments := Video.segments video in
  let resumeFrom := resumeLoop segments 0 1 in
  findByIdAndUpdate _id
    [Video.SetStatus VPending;
     Video.SetCurrentSegment resumeFrom;
     Video.SetErrorMessage None];;
  ret (mkResult true
         ("Marked for resume from segment " +:+ JS.ofNat resumeFrom)
         (Some resumeFrom)).

(** The two methods below pass [video.userId], the ObjectId of the
    loaded document, where the storage service expects a string (the
    processing service passes [video.userId.toString()]). *)
Definition recoverFromStitching (env : Env) (_id : string) (video : Video.t)
  : M RecoveryResult :=
  segmentPaths <-
    StorageService.getExistingSegmentPathsOf env
      (JS.PathObjectId (Video.userId video)) _id;;
  if Nat.eqb (length segmentPaths) (Video.segmentCount video)
  then
    findByIdAndUpdate _id
      [Video.SetStatus VPending;
       Video.SetCurrentPhase "stitching";
       Video.SetErrorMessage None];;
    ret (mkResult true "Ready to retry stitching" None)
  else recoverFromGeneration _id video.

Definition recoverFromPostProcessing (env : Env) (cfg : Config)
    (_id : string) (video : Video.t) : M RecoveryResult :=
  paths <-
    liftRes (StorageService.getVideoPathsOf cfg
               (JS.PathObjectId (Video.userId video)) _id);;
  stitchedExists <-
    StorageService.fileExists env (StorageService.stitched720p paths);;
  if stitchedExists
  then
    findByIdAndUpdate _id
      [Video.SetStatus VPending;
       Video.SetCurrentPhase "audio";
       Video.SetErrorMessage None];;
    ret (mkResult true "Ready to retry audio generation" None)
  else recoverFromStitching env _id video.

Definition recoverVideo (env : Env) (cfg : Config) (videoId : string)
  : M RecoveryResult :=
  video <- findById videoId;;
  match video with
  | None => ret (mkResult false "Video not found" None)
  | Some v =>
      match Video.status v with
      | VGenerating => recoverFromGeneration videoId v
      | VStitching => recoverFromStitching env videoId v
      | VAudio | VMerging | VTranscoding =>
          recoverFromPostProcessing env cfg videoId v
      | _ => ret (mkResult false "Video not in recoverable state" None)
      end
  end.

End RecoveryService.

(** ** The video routes (routes/video.routes) *)

Module VideoRoutes.

(** [new Video({...})] of the create handler followed by the pre-save
    hook, which pushes one pending segment per counted segment.  The
    schema trims the title when it is set. *)
Definition newVideo (userId title originalPrompt : string)
    (enhancedPrompt : option string) (duration : Z) (segmentDuration : Z)
    (segmentCount : nat) (scenes : list Scene.t) (voiceId : option string)
  : Video.t :=
  Video.mk userId (JS.trim title) originalPrompt enhancedPrompt duration None
    segmentCount segmentDuration scenes VPending 0 None 0 None
    (List.map Segment.fresh (seq 1 segmentCount))
    Files.empty (Meta.mk None None None voiceId) None.


(** [maxlength] of a string, and of an optional one. *)
Definition atMost (n : Z) (s : string) : bool :=
  (Z.of_nat (String.length s) <=? n)%Z.

Definition atMostOpt (n : Z) (s : option string) : bool :=
  match s with
  | Some x => atMost n x
  | None => true
  end.

(** The validators of [sceneSchema]. *)
Definition validScene (s : Scene.t) : bool :=
  (1 <=? Scene.sceneNumber s)
  && JS.truthy (Scene.scenePrompt s)
  && atMost 2000 (Scene.scenePrompt s)
  && atMostOpt 2000 (Scene.visualDescription s)
  && atMostOpt 1000 (Scene.continuityNotes s)
  && atMostOpt 500 (Scene.narrationText s)
  && (0 <=? Scene.startTime s)%Z && (0 <=? Scene.endTime s)%Z.

(** The validators of [videoSchema] that a document of the create
    handler can fail; [save] runs them before the pre-save hook and
    before the document is stored.  A required string must not be
    empty. *)
Definition validates (v : Video.t) : bool :=
  JS.truthy (Video.title v) && atMost 200 (Video.title v)
  && JS.truthy (Video.originalPrompt v)
  && atMost 5000 (Video.originalPrompt v)
  && atMostOpt 10000 (Video.enhancedPrompt v)
  && (5 <=? Video.targetDuration v)%Z && (Video.targetDuration v <=? 120)%Z
  && (1 <=? Video.segmentCount v) && (Video.segmentCount v <=? 10)
  && (1 <=? Video.segmentDuration v)%Z && (Video.segmentDuration v <=? 20)%Z
  && forallb validScene (Video.scenes v).

Inductive Response : Type :=
| Created (id : string) (video : Video.t)
| Status (code : nat).


(** [POST /:id/cancel] *)
Definition cancel (userId id : string) : M Response :=
  video <- findById id;;
  match video with
  | None => ret (Status 404)
  | Some v =>
      if negb (String.eqb (Video.userId v) userId) then ret (Status 404)
      else
        cancelled <- cancelProcessing id;;
        if negb cancelled then ret (Status 400) else ret (Status 200)
  end.

(** A JSON answer, or a refusal with its HTTP status. *)
Inductive Reply (A : Type) : Type :=
| Json (data : A)
| Refused (code : nat).
Arguments Json {A} data.
Arguments Refused {A} code.

(** The data of [GET /:id/status]. *)
Record StatusData : Type := mkStatusData {
  sd_status : VideoStatus;
  sd_progress : Z;
  sd_currentPhase : option string;
  sd_currentSegment : nat;
  sd_segmentCount : nat;
  sd_completedSegments : nat;
  sd_failedSegments : nat;
  sd_errorMessage : option string;
  sd_isProcessing : bool
}.

(** [segments.filter((s) => s.status === status).length] *)
Definition countStatus (status : SegmentStatus) (segments : list Segment.t)
  : nat :=
  length (List.filter (fun s => bool_decide (Segment.status s = status))
                      segments).

(** [GET /:id/status] *)
Definition status (userId id : string) : M (Reply StatusData) :=
  video <- findById id;;
  match video with
  | None => ret (Refused 404)
  | Some v =>
      if negb (String.eqb (Video.userId v) userId) then ret (Refused 404)
      else
        ret (Json (mkStatusData (Video.status v) (Video.progress v)
                     (Video.currentPhase v) (Video.currentSegment v)
                     (Video.segmentCount v)
                     (countStatus SCompleted (Video.segments v))
                     (countStatus SFailed (Video.segments v))
                     (Video.errorMessage v)
                     (negb (Video.notProcessing (Video.status v)))))
  end.

(** [DELETE /:id]; [deleteVideoFiles] is the method of the storage
    service, which removes the directory of the video. *)
Definition deleteVideo (deleteVideoFiles : string -> string -> M unit)
    (userId id : string) : M Response :=
  video <- findById id;;
  match video with
  | None => ret (Status 404)
  | Some v =>
      if negb (String.eqb (Video.userId v) userId) then ret (Status 404)
      else if negb (Video.notProcessing (Video.status v))
      then ret (Status 400)
      else
        deleteVideoFiles userId id;;
        (fun w => setVideos (delete id (videos w)) w);;
        ret (Status 200)
  end.

End VideoRoutes.

(** ** Segment generation (services/segment-generation.service) *)

Module SegmentGenerationService.

Inductive Status : Type := Completed | Failed.

Record SegmentGenerationResult : Type := mkResult {
  jobId : string;
  status : Status;
  error : option string
}.

(** [generateAndSaveSegment]: start the job, report its id through
    [onJobStarted] (whose failure is only logged), poll, save. *)
Definition generateAndSaveSegment (env : Env) (scenePrompt : string)
    (segmentNumber : nat) (outputPath : string)
    (previousFramePath : option string) (duration : Z) (attempt : nat)
    (onJobStarted : string -> M unit) : M SegmentGenerationResult :=
  external env (EvGenerateAndSaveSegment scenePrompt segmentNumber outputPath
                  previousFramePath duration attempt);;
  match sora env segmentNumber attempt with
  | StartThrows e => throw e
  | Started jobId fin =>
      tryCatch (onJobStarted jobId) (fun _ => ret tt);;
      match fin with
      | GenCompleted => ret (mkResult jobId Completed None)
      | GenFailed err => ret (mkResult jobId Failed (Some err))
      | GenThrows e => throw e
      end
  end.

(** The job as [checkJobStatus] reports it; [generations] holds the ids
    of the generations of a succeeded job. *)
Inductive JobStatus : Type :=
| JobPending
| JobRunning
| JobSucceeded (generations : list string)
| JobFailed (message : option string).

Section Polling.

Variable env : Env.

(** [config.processing.pollingIntervalMs] and
    [config.processing.segmentTimeoutMs] *)
Variables pollingIntervalMs segmentTimeoutMs : Z.

(** What the status check of the [attempt]-th iteration answers, and the
    download that follows it. *)
Variable checkJobStatus : nat -> Res JobStatus.
Variable downloadVideo : nat -> Res unit.

Definition maxAttempts : nat :=
  Z.to_nat (JS.ceilDiv segmentTimeoutMs pollingIntervalMs).

(** One iteration of the loop of [pollForCompletion]: [Some r] when the
    iteration returns [r], [None] when the loop goes on. *)
Definition pollOnce (jobId : string) (attempt : nat)
  : M (option SegmentGenerationResult) :=
  tryCatch
    (external env (EvOperation "checkJobStatus" attempt);;
     result <- liftRes (checkJobStatus attempt);;
     match result with
     | JobSucceeded generations =>
         match generations with
         | _ :: _ =>
             external env (EvOperation "downloadVideo" attempt);;
             liftRes (downloadVideo attempt);;
             ret (Some (mkResult jobId Completed None))
         | [] =>
             ret (Some (mkResult jobId Failed
                          (Some "No generations returned")))
         end
     | JobFailed message =>
         ret (Some (mkResult jobId Failed
                      (Some (SceneDecompositionService.orElse message
                               "Unknown error"))))
     | _ =>
         (if attempt <? maxAttempts then sleep env pollingIntervalMs
          else ret tt);;
         ret None
     end)
    (fun error =>
       if Nat.eqb attempt maxAttempts
       then ret (Some (mkResult jobId Failed
                         (Some ("Polling failed: " +:+ JS.message error))))
       else
         sleep env pollingIntervalMs;;
         ret None).

(** The [for] loop of [pollForCompletion], [remaining] iterations before
    [attempt] exceeds [maxAttempts]. *)
Fixpoint pollFrom (jobId : string) (remaining attempt : nat)
  : M SegmentGenerationResult :=
  match remaining with
  | 0 => ret (mkResult jobId Failed (Some "Segment generation timeout"))
  | S remaining' =>
      r <- pollOnce jobId attempt;;
      match r with
      | Some result => ret result
      | None => pollFrom jobId remaining' (S attempt)
      end
  end.

Definition pollForCompletion (jobId : string) (segmentNumber : nat)
  : M SegmentGenerationResult :=
  pollFrom jobId maxAttempts 1.

End Polling.

End SegmentGenerationService.

(** ** The processing service (services/processing.service) *)

Module ProcessingService.

Definition phaseName (phase : VideoStatus) : string :=
  match phase with
  | VPending => "pending"
  | VDecomposing => "decomposing"
  | VGenerating => "generating"
  | VStitching => "stitching"
  | VAudio => "audio"
  | VMerging => "merging"
  | VTranscoding => "transcoding"
  | VCompleted => "completed"
  | VFailed => "failed"
  end.

(** What [generateSegmentWithRetry] returns. *)
Record SegmentResult : Type := mkSegmentResult {
  status : SegmentGenerationService.Status;
  error : option string
}.

(** [Math.round(5 + 65 * ((i + 0.5) / total))], in exact arithmetic. *)
Definition segmentProgress (i total : nat) : Z :=
  ((11 * Z.of_nat total + 130 * Z.of_nat i + 65) / (2 * Z.of_nat total))%Z.

(** [s.narrationText && s.narrationText.trim()] *)
Definition narrated (s : Scene.t) : bool :=
  match Scene.narrationText s with
  | Some t => JS.truthy t && JS.truthy (JS.trim t)
  | None => false
  end.

(** [s.narrationText?.trim() || ''] *)
Definition trimmedNarration (s : Scene.t) : string :=
  match Scene.narrationText s with
  | Some t => JS.trim t
  | None => ""
  end.

Definition hasUserNarration (scenes : list Scene.t) : bool :=
  existsb narrated scenes.

Definition userScript (scenes : list Scene.t) : string :=
  JS.join " "
    (List.filter (fun text => 0 <? String.length text)
                 (List.map trimmedNarration scenes)).

Section Service.

Variable env : Env.
Variable cfg : Config.

Definition maxRetries : nat := cfg_maxRetries cfg.

Definition updateProgress (videoId : string) (phase : VideoStatus)
    (progress : Z) (message : option string) (currentSegment : option nat)
  : M unit :=
  completedAt <- getNow;;
  findByIdAndUpdate videoId
    ([Video.SetStatus phase;
      Video.SetProgress progress;
      Video.SetCurrentPhase
        (SceneDecompositionService.orElse message (phaseName phase))]
     ++ match currentSegment with
        | Some n => [Video.SetCurrentSegment n]
        | None => []
        end
     ++ match phase with
        | VCompleted => [Video.SetCompletedAt completedAt]
        | _ => []
        end).

Definition updateSegmentStatus (videoId : string) (segmentNumber : nat)
    (updates : list Segment.Update) : M unit :=
  updateSegment videoId segmentNumber updates.

Definition handleProcessingError (videoId : string) (error : JS.Error)
  : M unit :=
  findByIdAndUpdate videoId
    [Video.SetStatus VFailed;
     Video.SetErrorMessage (Some (JS.message error))].

(** Phase 1 *)
Definition decomposeScenes (videoId : string) (video : Video.t)
  : M (list Scene.t) :=
  tryCatch
    (result <- SceneDecompositionService.decomposePrompt env cfg
                 (Video.promptOf video) (Video.targetDuration video);;
     findByIdAndUpdate videoId
       [Video.SetScenes (SceneDecompositionService.scenes result);
        Video.SetSegmentCount
          (SceneDecompositionService.segmentCount result)];;
     ret (SceneDecompositionService.scenes result))
    (fun _ =>
       let result :=
         SceneDecompositionService.generateFallbackScenes cfg
           (Video.promptOf video) (Video.targetDuration video) in
       findByIdAndUpdate videoId
         [Video.SetScenes (SceneDecompositionService.scenes result);
          Video.SetSegmentCount
            (SceneDecompositionService.segmentCount result)];;
       ret (SceneDecompositionService.scenes result)).

(** One iteration of the loop of [generateSegmentWithRetry]: [Some r]
    when the iteration returns [r], [None] when the loop goes on. *)
Definition generateSegmentAttempt (scenePrompt : string)
    (segmentNumber : nat) (outputPath : string)
    (previousFramePath : option string) (videoId : string) (duration : Z)
    (attempt : nat) : M (option SegmentResult) :=
  tryCatch
    (startedAt <- getNow;;
     updateSegmentStatus videoId segmentNumber
       [Segment.SetStatus SGenerating;
        Segment.SetRetryCount (attempt - 1);
        Segment.SetStartedAt startedAt];;
     result <- SegmentGenerationService.generateAndSaveSegment env
                 scenePrompt segmentNumber outputPath previousFramePath
                 duration attempt
                 (fun jobId =>
                    updateSegmentStatus videoId segmentNumber
                      [Segment.SetSoraJobId jobId]);;
     match SegmentGenerationService.status result with
     | SegmentGenerationService.Completed =>
         completedAt <- getNow;;
         updateSegmentStatus videoId segmentNumber
           [Segment.SetStatus SCompleted;
            Segment.SetFilePath outputPath;
            Segment.SetSoraJobId (SegmentGenerationService.jobId result);
            Segment.SetCompletedAt completedAt];;
         ret (Some (mkSegmentResult SegmentGenerationService.Completed None))
     | SegmentGenerationService.Failed =>
         (if attempt <? maxRetries
          then sleep env (5000 * Z.of_nat attempt)
          else ret tt);;
         ret None
     end)
    (fun error =>
       if Nat.eqb attempt maxRetries
       then
         updateSegmentStatus videoId segmentNumber
           [Segment.SetStatus SFailed;
            Segment.SetError (Some (JS.message error))];;
         ret (Some (mkSegmentResult SegmentGenerationService.Failed
                      (Some (JS.message error))))
       else
         sleep env (5000 * Z.of_nat attempt);;
         ret None).

(** The [for] loop of [generateSegmentWithRetry], [remaining] iterations
    before [attempt] exceeds [maxRetries]. *)
Fixpoint generateSegmentAttempts (scenePrompt : string)
    (segmentNumber : nat) (outputPath : string)
    (previousFramePath : option string) (videoId : string) (duration : Z)
    (remaining attempt : nat) : M SegmentResult :=
  match remaining with
  | 0 =>
      ret (mkSegmentResult SegmentGenerationService.Failed
             (Some "Max retries exceeded"))
  | S remaining' =>
      r <- generateSegmentAttempt scenePrompt segmentNumber outputPath
             previousFramePath videoId duration attempt;;
      match r with
      | Some result => ret result
      | None =>
          generateSegmentAttempts scenePrompt segmentNumber outputPath
            previousFramePath videoId duration remaining' (S attempt)
      end
  end.

Definition generateSegmentWithRetry (scenePrompt : string)
    (segmentNumber : nat) (outputPath : string)
    (previousFramePath : option string) (videoId : string) (duration : Z)
  : M SegmentResult :=
  generateSegmentAttempts scenePrompt segmentNumber outputPath
    previousFramePath videoId duration maxRetries 1.

Definition segmentFailedMessage (segmentNumber : nat) : string :=
  "Segment " +:+ JS.ofNat segmentNumber +:+ " failed after "
  +:+ JS.ofNat maxRetries +:+ " retries".

(** The loop of [generateAllSegments] from index [i], over the scenes
    that remain; [total] is [scenes.length]. *)
Fixpoint generateSegmentsFrom (total : nat) (scenes : list Scene.t)
    (i : nat) (previousFramePath : option string) (userId videoId : string)
  : M unit :=
  match scenes with
  | [] => ret tt
  | scene :: rest =>
      let segmentNumber := i + 1 in
      updateProgress videoId VGenerating (segmentProgress i total)
        (Some ("Generating segment " +:+ JS.ofNat segmentNumber +:+ " of "
               +:+ JS.ofNat total))
        (Some segmentNumber);;
      let segmentPath :=
        StorageService.getSegmentPath cfg userId videoId segmentNumber in
      let duration := (Scene.endTime scene - Scene.startTime scene)%Z in
      result <- generateSegmentWithRetry (Scene.scenePrompt scene)
                  segmentNumber segmentPath
                  match previousFramePath with
                  | Some p => if JS.truthy p then Some p else None
                  | None => None
                  end
                  videoId duration;;
      match status result with
      | SegmentGenerationService.Failed =>
          throw (JS.newError (segmentFailedMessage segmentNumber))
      | SegmentGenerationService.Completed =>
          previousFramePath' <-
            (if i <? total - 1
             then
               let framePath :=
                 StorageService.getFramePath cfg userId videoId
                   segmentNumber in
               external env (EvExtractLastFrame segmentPath framePath);;
               p <- liftRes (extractLastFrame env segmentPath framePath);;
               updateSegmentStatus videoId segmentNumber
                 [Segment.SetLastFramePath framePath];;
               ret (Some p)
             else ret previousFramePath);;
          generateSegmentsFrom total rest (S i) previousFramePath'
            userId videoId
      end
  end.

(** Phase 2 *)
Definition generateAllSegments (scenes : list Scene.t)
    (userId videoId : string) : M unit :=
  generateSegmentsFrom (length scenes) scenes 0 None userId videoId.

(** Phase 3 *)
Definition stitchSegments (paths : StorageService.VideoPathsResult)
    (userId videoId : string) : M unit :=
  segmentPaths <- StorageService.getExistingSegmentPaths env userId videoId;;
  match segmentPaths with
  | [] => throw (JS.newError "No segments found to stitch")
  | _ =>
      externalUnit env
        (EvStitchWithCrossfade segmentPaths
           (StorageService.stitched720p paths));;
      fileSize <- StorageService.getFileSize env
                    (StorageService.stitched720p paths);;
      findByIdAndUpdate videoId
        [Video.SetStitched720p
           (File.mk (StorageService.stitched720p paths)
              (StorageService.getPublicUrl cfg
                 (StorageService.stitched720p paths))
              fileSize "mp4" None)]
  end.

(** Phase 4 *)
Definition generateAudio (videoId : string) (video : Video.t)
    (scenes : list Scene.t) (paths : StorageService.VideoPathsResult)
  : M unit :=
  script <-
    (if hasUserNarration scenes
     then ret (userScript scenes)
     else
       external env
         (EvGenerateNarrationScript (Video.promptOf video) scenes
            (Video.targetDuration video));;
       liftRes (narrationWriter env (Video.promptOf video) scenes
                  (Video.targetDuration video)));;
  externalUnit env (EvGenerateNarration script (StorageService.audio paths));;
  fileSize <- StorageService.getFileSize env (StorageService.audio paths);;
  findByIdAndUpdate videoId
    [Video.SetAudio
       (File.mk (StorageService.audio paths)
          (StorageService.getPublicUrl cfg (StorageService.audio paths))
          fileSize "mp3" None)].

(** [await Promise.all([a, b, c])]: the three calls are all made; the
    first rejection, in the order of the array, is thrown. *)
Definition promiseAll3 {A B C} (a : M A) (b : M B) (c : M C)
  : M (A * B * C) :=
  fun w =>
    match a w with
    | (ra, w1) =>
        match b w1 with
        | (rb, w2) =>
            match c w2 with
            | (rc, w3) =>
                match ra, rb, rc with
                | Ok x, Ok y, Ok z => (Ok (x, y, z), w3)
                | Throw e, _, _ => (Throw e, w3)
                | _, Throw e, _ => (Throw e, w3)
                | _, _, Throw e => (Throw e, w3)
                end
            end
        end
    end.

(** Phase 5 *)
Definition mergeAudioVideo (videoId : string)
    (paths : StorageService.VideoPathsResult) : M unit :=
  externalUnit env
    (EvMergeAudioVideo (StorageService.stitched720p paths)
       (StorageService.audio paths) (StorageService.final720p paths));;
  externalUnit env
    (EvGenerateThumbnail (StorageService.final720p paths)
       (StorageService.thumbnail paths));;
  r <- promiseAll3
         (StorageService.getFileSize env (StorageService.final720p paths))
         (StorageService.getFileSize env (StorageService.thumbnail paths))
         (external env (EvGetVideoMetadata (StorageService.final720p paths));;
          liftRes (probe env (StorageService.final720p paths)));;
  let '(videoSize, thumbSize, metadata) := r in
  findByIdAndUpdate videoId
    [Video.SetFinal720p
       (File.mk (StorageService.final720p paths)
          (StorageService.getPublicUrl cfg (StorageService.final720p paths))
          videoSize "mp4" (Some (probe_duration metadata)));
     Video.SetThumbnail
       (File.mk (StorageService.thumbnail paths)
          (StorageService.getPublicUrl cfg (StorageService.thumbnail paths))
          thumbSize "jpg" None);
     Video.SetActualDuration (probe_duration metadata);
     Video.SetResolution
       (JS.ofNat (probe_width metadata) +:+ "x"
        +:+ JS.ofNat (probe_height metadata));
     Video.SetFps (probe_fps metadata);
     Video.SetCodec (probe_codec metadata)].

(** Phase 6 *)
Definition transcodeResolutions (videoId : string)
    (paths : StorageService.VideoPathsResult) : M unit :=
  externalUnit env
    (EvTranscodeResolution (StorageService.final720p paths)
       (StorageService.final480p paths) 854 480);;
  fileSize <- StorageService.getFileSize env
                (StorageService.final480p paths);;
  findByIdAndUpdate videoId
    [Video.SetFinal480p
       (File.mk (StorageService.final480p paths)
          (StorageService.getPublicUrl cfg (StorageService.final480p paths))
          fileSize "mp4" None)].

(** The [try] block of [processVideo]. *)
Definition pipeline (videoId : string) (video : Video.t) : M unit :=
  let userId := Video.userId video in
  paths <- StorageService.createVideoDirectories env cfg userId videoId;;
  scenes <-
    match Video.scenes video with
    | [] =>
        updateProgress videoId VDecomposing 0
          (Some "Decomposing prompt into scenes") None;;
        scenes <- decomposeScenes videoId video;;
        updateProgress videoId VDecomposing 5 (Some "Scenes decomposed") None;;
        ret scenes
    | scenes =>
        updateProgress videoId VDecomposing 5 (Some "Using custom scenes")
          None;;
        ret scenes
    end;;
  updateProgress videoId VGenerating 5 (Some "Starting segment generation")
    None;;
  generateAllSegments scenes userId videoId;;
  updateProgress videoId VGenerating 70 (Some "All segments generated") None;;
  updateProgress videoId VStitching 70 (Some "Stitching video segments") None;;
  stitchSegments paths userId videoId;;
  updateProgress videoId VStitching 80 (Some "Video stitched") None;;
  updateProgress videoId VAudio 80 (Some "Generating narration") None;;
  generateAudio videoId video scenes paths;;
  updateProgress videoId VAudio 90 (Some "Audio generated") None;;
  updateProgress videoId VMerging 90 (Some "Merging audio and video") None;;
  mergeAudioVideo videoId paths;;
  updateProgress videoId VMerging 95 (Some "Audio merged") None;;
  updateProgress videoId VTranscoding 95
    (Some "Creating additional resolutions") None;;
  transcodeResolutions videoId paths;;
  updateProgress videoId VCompleted 100 (Some "Video processing complete")
    None.

Definition processVideo (videoId : string) : M unit :=
  video <- findById videoId;;
  match video with
  | None => throw (JS.newError ("Video not found: " +:+ videoId))
  | Some video =>
      let lockOwner := "processing-" +:+ videoId in
      now <- getNow;;
      lock <- LockService.acquireVideoProcessingLock cfg lockOwner
                (Lock.mkMetadata (Some videoId) (Some (Video.userId video))
                   (Some (Video.targetDuration video))
                   (Some (now + Video.targetDuration video * 60 * 1000)%Z));;
      match lock with
      | None => throw (JS.newError "System is busy processing another video")
      | Some _ =>
          tryFinally
            (tryCatch (pipeline videoId video)
               (fun error =>
                  handleProcessingError videoId error;;
                  throw error))
            (LockService.releaseVideoProcessingLock;; ret tt)
      end
  end.

End Service.

(** [ProcessingProgress] *)
Record ProcessingProgress : Type := mkProcessingProgress {
  pp_phase : VideoStatus;
  pp_progress : Z;
  pp_currentSegment : nat;
  pp_message : option string
}.

Definition getProcessingStatus (videoId : string)
  : M (option ProcessingProgress) :=
  video <- findById videoId;;
  match video with
  | None => ret None
  | Some v =>
      ret (Some (mkProcessingProgress (Video.status v) (Video.progress v)
                   (Video.currentSegment v) (Video.currentPhase v)))
  end.



End ProcessingService.

(** ** Recovery status of a video (utils/recovery, [getRecoveryInfo]) *)

Module RecoveryInfo.

Record t : Type := mk {
  canRecover : bool;
  lastCompletedSegment : nat;
  totalSegments : nat;
  phase : string
}.

(** The loop of [getRecoveryInfo]: [lastCompleted] becomes [i + 1] while
    [segments[i]] is completed. *)
Fixpoint lastCompletedLoop (segments : list Segment.t)
    (i lastCompleted : nat) : nat :=
  match segments with
  | [] => lastCompleted
  | s :: r =>
      match Segment.status s with
      | SCompleted => lastCompletedLoop r (S i) (i + 1)
      | _ => lastCompleted
      end
  end.

(** [['generating', 'stitching', 'audio', 'merging', 'transcoding',
      'failed'].includes(status)] *)
Definition recoverable (s : VideoStatus) : bool :=
  match s with
  | VGenerating | VStitching | VAudio | VMerging | VTranscoding | VFailed =>
      true
  | _ => false
  end.

Definition getRecoveryInfo (videoId : string) : M t :=
  video <- findById videoId;;
  match video with
  | None => ret (mk false 0 0 "unknown")
  | Some v =>
      ret (mk (recoverable (Video.status v))
              (lastCompletedLoop (Video.segments v) 0 0)
              (Video.segmentCount v)
              (SceneDecompositionService.orElse (Video.currentPhase v)
                 (ProcessingService.phaseName (Video.status v))))
  end.

End RecoveryInfo.

(** ** The segment cache (services/segment-cache.service) *)

Module SegmentCacheService.

Record CacheEntry : Type := mkEntry {
  hash : string;
  filePath : string;
  createdAt : Z;
  expiresAt : Z;
  meta_scenePrompt : string;
  meta_segmentNumber : nat;
  meta_duration : Z
}.

(** The manifest that the service keeps in memory, and the files and
    the directories that exist on disk.  A file is read when it exists
    and written when its directory exists.  The manifest is saved into
    the cache directory, which exists whenever the manifest has an entry
    and whenever [cleanup] runs: entries come from [store] or from the
    manifest file that [initialize] loads after it has made the
    directory, and [initialize] is the caller of [cleanup]. *)
Record Cache : Type := mkCache {
  entries : gmap string CacheEntry;
  lastCleanup : Z;
  disk : gset string;
  dirs : gset string
}.

Section Service.

(** The first sixteen hexadecimal digits of the SHA-256 digest,
    [path.extname], and the cache directory. *)
Variable sha256hex16 : string -> string.
Variable extname : string -> string.
Variable cacheDir : string.

Definition maxAgeMs : Z := 7 * 24 * 60 * 60 * 1000.

Definition generateCacheKey (scenePrompt : string) (segmentNumber : nat)
  : string :=
  sha256hex16 (scenePrompt +:+ "::" +:+ JS.ofNat segmentNumber).

(** [new Date() > new Date(entry.expiresAt)] *)
Definition expired (now : Z) (entry : CacheEntry) : bool :=
  (expiresAt entry <? now)%Z.

(** [removeEntry]: the file is unlinked (a missing file is ignored) and
    the entry deleted. *)
Definition removeEntry (key : string) (c : Cache) : Cache :=
  match entries c !! key with
  | Some entry =>
      mkCache (delete key (entries c)) (lastCleanup c)
              (disk c ∖ {[filePath entry]}) (dirs c)
  | None => c
  end.

Definition isCached (now : Z) (scenePrompt : string) (segmentNumber : nat)
    (c : Cache) : bool * Cache :=
  let key := generateCacheKey scenePrompt segmentNumber in
  match entries c !! key with
  | None => (false, c)
  | Some entry =>
      if expired now entry then (false, removeEntry key c)
      else if decide (filePath entry ∈ disk c) then (true, c)
      else (false, removeEntry key c)
  end.

Definition getCached (now : Z) (scenePrompt : string) (segmentNumber : nat)
    (c : Cache) : option string * Cache :=
  let key := generateCacheKey scenePrompt segmentNumber in
  match entries c !! key with
  | None => (None, c)
  | Some entry =>
      if expired now entry then (None, removeEntry key c)
      else if decide (filePath entry ∈ disk c)
      then (Some (filePath entry), c)
      else (None, removeEntry key c)
  end.

(** The error of a file operation on a path that does not exist. *)
Definition noEntry : JS.Error :=
  JS.mkError "ENOENT: no such file or directory" (JS.StrCode "ENOENT").

(** [store]: [fs.copyFile] throws when the source does not exist, and
    when the cache directory, which only [initialize] makes, does
    not. *)
Definition store (now : Z) (scenePrompt : string) (segmentNumber : nat)
    (sourcePath : string) (duration : Z) (c : Cache) : Res string * Cache :=
  let key := generateCacheKey scenePrompt segmentNumber in
  let ext := extname sourcePath in
  let cachedPath := StorageService.pathJoin [cacheDir; key +:+ ext] in
  if decide (sourcePath ∈ disk c /\ cacheDir ∈ dirs c)
  then
    let entry :=
      mkEntry key cachedPath now (now + maxAgeMs)%Z
              (String.substring 0 200 scenePrompt) segmentNumber duration in
    (Ok cachedPath,
     mkCache (<[key := entry]> (entries c)) (lastCleanup c)
             ({[cachedPath]} ∪ disk c) (dirs c))
  else (Throw noEntry, c).


End Service.

End SegmentCacheService.

(** ** Concrete scenarios *)

Module Scenario.

Definition theProbe : Probe := mkProbe 24 1280 720 30 "h264".

(** Every external call succeeds at once, nobody cancels, and the
    language model is unavailable. *)
Definition calmEnv : Env :=
  mkEnv (fun _ => 0%Z) (fun _ => None) (fun _ => None)
    (fun _ _ => Throw (JS.newError "model unavailable"))
    (fun _ _ => Started "job" GenCompleted)
    (fun _ framePath => Ok framePath)
    (fun _ _ => ["segment_001.mp4"; "segment_002.mp4"])
    (fun _ => Ok 1000%Z)
    (fun _ _ _ => Ok "written script")
    (fun _ => Ok theProbe)
    (fun _ => true).

Definition scene (n : nat) (narration : option string) : Scene.t :=
  Scene.mk n ("scene " +:+ JS.ofNat n) None None narration
    (Z.of_nat (n - 1) * 12)%Z (Z.of_nat n * 12)%Z Crossfade.

Definition twoScenes : list Scene.t :=
  [scene 1 (Some "Hello"); scene 2 None].

Definition video2 : Video.t :=
  VideoRoutes.newVideo "u1" "Eagle" "A majestic eagle soaring" None 24 12 2
    twoScenes None.

Definition world2 : World := mkWorld {["v1" := video2]} ∅ 1000 [].

End Scenario.

(** ** Vocabulary of the properties *)

(** The row of [key] is absent, unlocked, or expired at the clock of
    [w]. *)
Definition lockAvailable (w : World) (key : string) : Prop :=
  locks w !! key = None
  \/ exists l, locks w !! key = Some l
       /\ (Lock.isLocked l = false
           \/ exists e, Lock.expiresAt l = Some e /\ (e < now w)%Z).

(** The events a computation appended to the log of [w]. *)
Definition newEvents (w w' : World) : list Event :=
  drop (length (trace w)) (trace w').

Definition isCancel (e : Event) : bool :=
  match e with
  | EvCancel _ _ => true
  | _ => false
  end.

Definition isStitch (e : Event) : bool :=
  match e with
  | EvStitchWithCrossfade _ _ => true
  | _ => false
  end.

Definition isWriter (e : Event) : bool :=
  match e with
  | EvGenerateNarrationScript _ _ _ => true
  | _ => false
  end.

(** The delays of the sleeps in a log, in order. *)
Definition sleeps (l : list Event) : list Z :=
  omap (fun e => match e with EvSleep ms => Some ms | _ => None end) l.



(** How many times [withRetry] retries: the attempts, counted from
    [attempt], that throw a retryable error and are not the last one
    allowed. *)
Fixpoint retriesFrom {T} (c : RetryService.RetryConfig) (fn : nat -> Res T)
    (remaining attempt : nat) : nat :=
  match remaining with
  | 0 => 0
  | S remaining' =>
      match fn attempt with
      | Throw e =>
          if RetryService.isRetryableError e
             && negb (Nat.eqb attempt (RetryService.maxRetries c))
          then S (retriesFrom c fn remaining' (S attempt))
          else 0
      | Ok _ => 0
      end
  end.

(** The document that a served cancel request leaves. *)
Definition cancelledDoc (v : Video.t) : Video.t :=
  Video.applyAll
    [Video.SetStatus VFailed;
     Video.SetErrorMessage (Some "Processing cancelled by user")] v.

Definition touchesFiles (u : Video.Update) : bool :=
  match u with
  | Video.SetStitched720p _ | Video.SetFinal720p _ | Video.SetFinal480p _
  | Video.SetAudio _ | Video.SetThumbnail _ => true
  | _ => false
  end.

Definition filesOf (w : World) (videoId : string) : option Files.t :=
  Video.files <$> videos w !! videoId.

(** From [w] to [w'] no file is recorded on the video and the stitcher
    is not called. *)
Definition Quiet (videoId : string) (w w' : World) : Prop :=
  filesOf w' videoId = filesOf w videoId
  /\ exists evs, trace w' = trace w ++ evs
                 /\ Forall (fun e => isStitch e = false) evs.

(** [m] ends in a result that satisfies [P], through worlds related by
    [R]. *)
Definition run {A} (R : World -> World -> Prop) (m : M A)
    (P : Res A -> Prop) : Prop :=
  forall w, P (fst (m w)) /\ R w (snd (m w)).

(** The provider completes the [attempt]-th job of segment [n]. *)
Definition soraCompletes (env : Env) (n attempt : nat) : bool :=
  match sora env n attempt with
  | Started _ GenCompleted => true
  | _ => false
  end.

(** Some attempt allowed by [maxRetries] completes segment [n]. *)
Definition segmentSucceeds (env : Env) (cfg : Config) (n : nat) : bool :=
  existsb (soraCompletes env n) (seq 1 (cfg_maxRetries cfg)).

(** The scenes a run works on: the stored ones, or else the decomposed
    ones (the fallback when the language model fails). *)
Definition runScenes (env : Env) (cfg : Config) (v : Video.t)
  : list Scene.t :=
  match Video.scenes v with
  | [] =>
      match llm env (Video.promptOf v) (Video.targetDuration v) with
      | Ok rawScenes =>
          SceneDecompositionService.validateAndTransformScenes rawScenes
            (SceneDecompositionService.segmentCountOf cfg
               (Video.targetDuration v))
            (SceneDecompositionService.segmentDurationOf cfg
               (Video.targetDuration v))
      | Throw _ =>
          SceneDecompositionService.scenes
            (SceneDecompositionService.generateFallbackScenes cfg
               (Video.promptOf v) (Video.targetDuration v))
      end
  | scenes => scenes
  end.

(** What [generateAndSaveSegment] answers, as fixed by the provider. *)
Definition generated (env : Env) (n attempt : nat)
  : Res SegmentGenerationService.SegmentGenerationResult :=
  match sora env n attempt with
  | StartThrows e => Throw e
  | Started jobId GenCompleted =>
      Ok (SegmentGenerationService.mkResult jobId
            SegmentGenerationService.Completed None)
  | Started jobId (GenFailed err) =>
      Ok (SegmentGenerationService.mkResult jobId
            SegmentGenerationService.Failed (Some err))
  | Started jobId (GenThrows e) => Throw e
  end.

(** The last frame of segment [n] can be extracted. *)
Definition frameExtracts (env : Env) (cfg : Config) (userId videoId : string)
    (n : nat) : Prop :=
  exists p,
    extractLastFrame env
      (StorageService.getSegmentPath cfg userId videoId n)
      (StorageService.getFramePath cfg userId videoId n) = Ok p.


(** A cancel request for [videoId] was accepted. *)
Definition isCancelOf (videoId : string) (e : Event) : bool :=
  match e with
  | EvCancel v true => String.eqb v videoId
  | _ => false
  end.

(** The events after the first accepted cancel request for [videoId]. *)
Fixpoint afterCancel (videoId : string) (l : list Event) : list Event :=
  match l with
  | [] => []
  | e :: r => if isCancelOf videoId e then r else afterCancel videoId r
  end.

(** Calls that generate a segment or carry out a later phase. *)
Definition startsWork (e : Event) : bool :=
  match e with
  | EvGenerateAndSaveSegment _ _ _ _ _ _ | EvStitchWithCrossfade _ _
  | EvGenerateNarrationScript _ _ _ | EvGenerateNarration _ _
  | EvMergeAudioVideo _ _ _ | EvTranscodeResolution _ _ _ _ => true
  | _ => false
  end.

(** The cancellation behaviour as the specification words it: once a
    cancel request is accepted during a run, no further segment is
    generated and no further phase runs, and the run ends failed with the
    message "cancelled" and the lock released. *)
Definition cancellationHonoured (env : Env) (cfg : Config) (videoId : string)
    (w : World) : Prop :=
  let w' := snd (ProcessingService.processVideo env cfg videoId w) in
  existsb (isCancelOf videoId) (newEvents w w') = true ->
  List.filter startsWork (afterCancel videoId (newEvents w w')) = []
  /\ (exists v', videos w' !! videoId = Some v'
                 /\ Video.status v' = VFailed
                 /\ Video.errorMessage v' = Some "cancelled")
  /\ ~ lockHeld w' Lock.VIDEO_PROCESSING.

(** Every scene has a non-empty [narrationText]. *)
Definition everySceneNarrated (scenes : list Scene.t) : bool :=
  forallb (fun s => match Scene.narrationText s with
                    | Some t => JS.truthy t
                    | None => false
                    end) scenes.

(** The choice of the narration script as the specification words it:
    the joined narration texts when every scene has one, the narration
    writer otherwise. *)
Definition narrationClaim (env : Env) (cfg : Config) (videoId : string)
    (video : Video.t) (scenes : list Scene.t)
    (paths : StorageService.VideoPathsResult) (w : World) : Prop :=
  let w' := snd (ProcessingService.generateAudio env cfg videoId video scenes
                   paths w) in
  if everySceneNarrated scenes
  then head (newEvents w w')
       = Some (EvGenerateNarration
                 (JS.join " "
                    (List.map (fun s => default "" (Scene.narrationText s))
                              scenes))
                 (StorageService.audio paths))
  else head (newEvents w w')
       = Some (EvGenerateNarrationScript (Video.promptOf video) scenes
                 (Video.targetDuration video)).

(** ** More scenarios *)

Module Cases.

Import Scenario.

(** A cancel request for "v1" arrives while the first segment is being
    generated; everything else is calm. *)
Definition cancelEnv : Env :=
  mkEnv (elapsed calmEnv)
    (fun e => match e with
              | EvGenerateAndSaveSegment _ 1 _ _ _ _ => Some "v1"
              | _ => None
              end)
    (fails calmEnv) (llm calmEnv) (sora calmEnv) (extractLastFrame calmEnv)
    (readSegments calmEnv) (fileSize calmEnv) (narrationWriter calmEnv)
    (probe calmEnv) (diskHas calmEnv).

(** The first job of every segment times out at the start request. *)
Definition flakyEnv : Env :=
  mkEnv (elapsed calmEnv) (cancelDuring calmEnv) (fails calmEnv)
    (llm calmEnv)
    (fun _ attempt =>
       match attempt with
       | 1 => StartThrows (JS.newError "Request timeout")
       | _ => Started "job" GenCompleted
       end)
    (extractLastFrame calmEnv) (readSegments calmEnv) (fileSize calmEnv)
    (narrationWriter calmEnv) (probe calmEnv) (diskHas calmEnv).

(** Every job of segment 2 fails. *)
Definition brokenEnv : Env :=
  mkEnv (elapsed calmEnv) (cancelDuring calmEnv) (fails calmEnv)
    (llm calmEnv)
    (fun n _ =>
       match n with
       | 2 => Started "job" (GenFailed "content filtered")
       | _ => Started "job" GenCompleted
       end)
    (extractLastFrame calmEnv) (readSegments calmEnv) (fileSize calmEnv)
    (narrationWriter calmEnv) (probe calmEnv) (diskHas calmEnv).

(** The video of [world2], interrupted while generating. *)
Definition generatingWorld : World :=
  mkWorld {["v1" := Video.apply (Video.SetStatus VGenerating) video2]}
          ∅ 1000 [].

(** The lock is held by another run until 5000. *)
Definition heldWorld : World :=
  mkWorld {["v1" := video2]}
    {[Lock.VIDEO_PROCESSING :=
        Lock.mk Lock.VIDEO_PROCESSING true "processing-v0" (Some 0%Z)
                (Some 5000%Z) Lock.noMetadata]}
    1000 [].


(** A retried operation that always times out. *)
Definition alwaysTimeout : nat -> Res string :=
  fun _ => Throw (JS.newError "API timeout").


End Cases.

(** ** Vocabulary of the further properties *)

(** The segment of [videoId] that [segments.$] addresses under the query
    [{'segments.segmentNumber': n}]. *)
Definition segmentOf (w : World) (videoId : string) (n : nat)
  : option Segment.t :=
  match videos w !! videoId with
  | Some v =>
      List.find (fun s => Nat.eqb (Segment.segmentNumber s) n)
                (Video.segments v)
  | None => None
  end.

(** The attempt at which the loop of [generateSegmentWithRetry] ends:
    the first one from [attempt] on that completes, or else the last of
    the [remaining] ones. *)
Fixpoint endingAttempt (env : Env) (n remaining attempt : nat) : nat :=
  match remaining with
  | 0 => attempt - 1
  | S remaining' =>
      if soraCompletes env n attempt then attempt
      else
        match remaining' with
        | 0 => attempt
        | _ => endingAttempt env n remaining' (S attempt)
        end
  end.





(** A status check that reports the job as not finished yet. *)
Definition unfinished (r : Res SegmentGenerationService.JobStatus) : bool :=
  match r with
  | Ok SegmentGenerationService.JobPending
  | Ok SegmentGenerationService.JobRunning => true
  | _ => false
  end.

(** * Properties *)

(** ** The model on small inputs *)

Example trim_both_ends : JS.trim "  a  b  " = "a  b".
Proof. reflexivity. Qed.

Example padStart3_7 : JS.padStart3 7 = "007".
Proof. reflexivity. Qed.

Example ceilDiv_60_12 : JS.ceilDiv 60 12 = 5%Z /\ JS.ceilDiv 61 12 = 6%Z.
Proof. split; reflexivity. Qed.

Example segmentProgress_ends :
  ProcessingService.segmentProgress 0 5 = 12%Z
  /\ ProcessingService.segmentProgress 4 5 = 64%Z.
Proof. split; reflexivity. Qed.

Example timeout_is_retryable :
  RetryService.isRetryableError (JS.newError "Gateway Timeout") = true
  /\ RetryService.isRetryableError (JS.newError "invalid credentials") = false.
Proof. split; reflexivity. Qed.

(** With calm collaborators a run of two scenes completes: progress 100,
    both final files recorded, lock released. *)
Example calm_run_completes :
  let r := ProcessingService.processVideo Scenario.calmEnv defaultConfig "v1"
             Scenario.world2 in
  fst r = Ok tt
  /\ (exists v, videos (snd r) !! "v1" = Some v
                /\ Video.status v = VCompleted
                /\ Video.progress v = 100%Z
                /\ is_Some (Files.final_720p (Video.files v))
                /\ is_Some (Files.final_480p (Video.files v))
                /\ Video.actualDuration v = Some 24%Z)
  /\ (Lock.isLocked <$> locks (snd r) !! Lock.VIDEO_PROCESSING) = Some false.
Proof.
  split; [by vm_compute|]. split; [|by vm_compute].
  eexists. split; [vm_compute; reflexivity|].
  cbn. repeat split; eauto.
Qed.



Lemma findByIdAndUpdate_run id us w :
  findByIdAndUpdate id us w
  = (Ok tt, mkWorld (alter (Video.applyAll us) id (videos w)) (locks w)
              (now w) (trace w)).
Proof. reflexivity. Qed.

Lemma releaseLock_run key w :
  exists b ls,
    ProcessingLock.releaseLock key w
    = (Ok b, mkWorld (videos w) ls (now w) (trace w))
    /\ (forall l, ls !! key = Some l -> Lock.isLocked l = false)
    /\ (forall k, k <> key -> ls !! k = locks w !! k).
Proof.
  unfold ProcessingLock.releaseLock, bind, setLocks, ret.
  destruct (locks w !! key) as [l|] eqn:Hl.
  - exists true, (<[key := ProcessingLock.released l]> (locks w)).
    split; [reflexivity|]. split.
    + intros l'. rewrite lookup_insert_eq. by intros [= <-].
    + intros k Hk. by rewrite lookup_insert_ne.
  - exists false, (locks w). split; [by destruct w|]. split; [|done].
    intros l'. by rewrite Hl.
Qed.

(** What serving a cancel request does to the world. *)
Lemma cancelProcessing_run vid w :
  exists b w',
    cancelProcessing vid w = (Ok b, w')
    /\ trace w' = trace w
    /\ now w' = now w
    /\ (forall id, videos w' !! id = videos w !! id
                   \/ exists v, videos w !! id = Some v
                                /\ videos w' !! id = Some (cancelledDoc v))
    /\ (forall k, k <> Lock.VIDEO_PROCESSING -> locks w' !! k = locks w !! k).
Proof.
  unfold cancelProcessing, bind, findById.
  destruct (videos w !! vid) as [v|] eqn:Hv.
  2:{ exists false, w. by repeat split; auto. }
  destruct (Video.notProcessing (Video.status v)).
  { exists false, w. by repeat split; auto. }
  rewrite findByIdAndUpdate_run.
  unfold LockService.releaseVideoProcessingLock.
  match goal with |- context [ProcessingLock.releaseLock ?k ?w1] =>
    destruct (releaseLock_run k w1) as (b & ls & -> & Hrel & Hoth) end.
  cbn [ret]. eexists. eexists. split; [reflexivity|].
  cbn [videos locks now trace] in *. repeat split; [|done].
  intros id. destruct (decide (id = vid)) as [->|Hne].
  - right. exists v. by rewrite lookup_alter_eq, Hv.
  - left. by rewrite lookup_alter_ne.
Qed.

Lemma await_run env e dt w :
  exists w1 cs,
    await env e dt w = (Ok tt, w1)
    /\ trace w1 = trace w ++ e :: cs
    /\ Forall (fun c => isCancel c = true) cs
    /\ (forall id, videos w1 !! id = videos w !! id
                   \/ exists v, videos w !! id = Some v
                                /\ videos w1 !! id = Some (cancelledDoc v))
    /\ (forall k, k <> Lock.VIDEO_PROCESSING -> locks w1 !! k = locks w !! k).
Proof.
  unfold await, bind, logEvent, advance. cbn [fst snd videos locks now trace].
  destruct (cancelDuring env e) as [vid|].
  - match goal with |- context [cancelProcessing ?v ?w'] =>
      destruct (cancelProcessing_run v w') as (b & w2 & -> & Ht & _ & Hv & Hl) end.
    cbn [videos locks now trace] in *.
    eexists. eexists. split; [reflexivity|].
    cbn [videos locks now trace]. rewrite Ht, <- app_assoc.
    split; [reflexivity|]. split; [by repeat constructor|]. by split.
  - eexists. exists []. repeat split; auto.
Qed.

Lemma newEvents_app w w' evs :
  trace w' = trace w ++ evs -> newEvents w w' = evs.
Proof. intros H. unfold newEvents. rewrite H. apply drop_app_length. Qed.

Lemma sleeps_app l1 l2 : sleeps (l1 ++ l2) = sleeps l1 ++ sleeps l2.
Proof. apply omap_app. Qed.

Lemma sleeps_cancels cs :
  Forall (fun c => isCancel c = true) cs -> sleeps cs = [].
Proof.
  induction 1 as [|c cs Hc _ IH]; [done|].
  destruct c; try discriminate. exact IH.
Qed.


(** Segments *)
Lemma Segment_apply_number u s :
  Segment.segmentNumber (Segment.apply u s) = Segment.segmentNumber s.
Proof. by destruct u. Qed.

Lemma Segment_applyAll_number us s :
  Segment.segmentNumber (Segment.applyAll us s) = Segment.segmentNumber s.
Proof.
  unfold Segment.applyAll. revert s.
  induction us as [|u us IH]; intros s; [done|].
  cbn. by rewrite IH, Segment_apply_number.
Qed.

Lemma find_updateFirst n us l :
  match Segment.updateFirst n us l with
  | Some l' =>
      List.find (fun s => Nat.eqb (Segment.segmentNumber s) n) l'
      = Segment.applyAll us
          <$> List.find (fun s => Nat.eqb (Segment.segmentNumber s) n) l
      /\ is_Some (List.find (fun s => Nat.eqb (Segment.segmentNumber s) n) l)
  | None => List.find (fun s => Nat.eqb (Segment.segmentNumber s) n) l = None
  end.
Proof.
  induction l as [|s r IH]; [done|]. cbn.
  destruct (Segment.segmentNumber s =? n) eqn:Hs.
  - cbn. by rewrite Segment_applyAll_number, Hs.
  - destruct (Segment.updateFirst n us r) as [l'|]; cbn; [|done].
    by rewrite Hs.
Qed.



Section Run.

Context (R : World -> World -> Prop) `{!PreOrder R}.

Lemma run_ret {A} (a : A) (P : Res A -> Prop) : P (Ok a) -> run R (ret a) P.
Proof. intros H w. split; [exact H|reflexivity]. Qed.

Lemma run_throw {A} e (P : Res A -> Prop) : P (Throw e) -> run R (throw e) P.
Proof. intros H w. split; [exact H|reflexivity]. Qed.

Lemma run_liftRes {A} (r : Res A) (P : Res A -> Prop) :
  P r -> run R (liftRes r) P.
Proof. intros H w. split; [exact H|reflexivity]. Qed.

Lemma run_getNow (P : Res Z -> Prop) : (forall z, P (Ok z)) -> run R getNow P.
Proof. intros H w. split; [apply H|reflexivity]. Qed.

Lemma run_bind {A B} (m : M A) (k : A -> M B) (P : Res A -> Prop)
    (Q : Res B -> Prop) :
  run R m P ->
  (forall a, P (Ok a) -> run R (k a) Q) ->
  (forall e, P (Throw e) -> Q (Throw e)) ->
  run R (bind m k) Q.
Proof.
  intros Hm Hk He w. unfold bind.
  destruct (Hm w) as [HP HR]. destruct (m w) as [[a|e] w1]; cbn in *.
  - destruct (Hk a HP w1) as [HQ HR']. split; [exact HQ|]. by etrans.
  - split; [by apply He|done].
Qed.

Lemma run_tryCatch {A} (m : M A) (h : JS.Error -> M A) (P Q : Res A -> Prop) :
  run R m P ->
  (forall a, P (Ok a) -> Q (Ok a)) ->
  (forall e, P (Throw e) -> run R (h e) Q) ->
  run R (tryCatch m h) Q.
Proof.
  intros Hm Ha Hh w. unfold tryCatch.
  destruct (Hm w) as [HP HR]. destruct (m w) as [[a|e] w1]; cbn in *.
  - split; [by apply Ha|done].
  - destruct (Hh e HP w1) as [HQ HR']. split; [exact HQ|]. by etrans.
Qed.

Lemma run_weaken {A} (m : M A) (P Q : Res A -> Prop) :
  run R m P -> (forall r, P r -> Q r) -> run R m Q.
Proof. intros Hm HPQ w. destruct (Hm w). split; auto. Qed.

Lemma run_seq {A B} (m : M A) (k : A -> M B) (a : A) (Q : Res B -> Prop) :
  run R m (eq (Ok a)) -> run R (k a) Q -> run R (bind m k) Q.
Proof.
  intros Hm Hk. eapply run_bind; [exact Hm|..].
  - by intros ? [= <-].
  - by intros.
Qed.

Lemma run_now {B} (k : Z -> M B) (Q : Res B -> Prop) :
  (forall z, run R (k z) Q) -> run R (bind getNow k) Q.
Proof.
  intros Hk. eapply run_bind with (P := fun r => exists z, r = Ok z).
  - apply run_getNow. by eexists.
  - intros z _. apply Hk.
  - by intros e [z [=]].
Qed.

End Run.

(** ** The quiet steps of a run *)

Lemma Video_apply_files u v :
  touchesFiles u = false -> Video.files (Video.apply u v) = Video.files v.
Proof. by destruct u. Qed.

Lemma Video_applyAll_files us v :
  Forall (fun u => touchesFiles u = false) us ->
  Video.files (Video.applyAll us v) = Video.files v.
Proof.
  unfold Video.applyAll. intros H. revert v.
  induction H as [|u us Hu _ IH]; intros v; [done|].
  cbn. by rewrite IH, Video_apply_files.
Qed.

Section QuietSteps.

Variable vid : string.

#[local] Instance Quiet_preorder : PreOrder (Quiet vid).
Proof.
  split.
  - intros w. split; [done|]. exists []. by rewrite app_nil_r.
  - intros w1 w2 w3 [Hf1 (e1 & Ht1 & He1)] [Hf2 (e2 & Ht2 & He2)].
    split; [by rewrite Hf2|]. exists (e1 ++ e2).
    rewrite Ht2, Ht1, app_assoc. split; [done|]. by apply Forall_app.
Qed.

Lemma quiet_await env e dt :
  isStitch e = false -> run (Quiet vid) (await env e dt) (eq (Ok tt)).
Proof.
  intros He w.
  destruct (await_run env e dt w) as (w1 & cs & -> & Ht & Hc & Hv & _).
  split; [done|]. split.
  - unfold filesOf. cbn [snd].
    destruct (Hv vid) as [->|(v & -> & ->)]; done.
  - exists (e :: cs). split; [done|]. constructor; [done|].
    eapply Forall_impl; [exact Hc|]. by intros [].
Qed.

Lemma quiet_update id us :
  Forall (fun u => touchesFiles u = false) us ->
  run (Quiet vid) (findByIdAndUpdate id us) (eq (Ok tt)).
Proof.
  intros Hus w. rewrite findByIdAndUpdate_run. split; [done|]. split.
  - unfold filesOf. cbn [snd videos].
    destruct (decide (id = vid)) as [->|Hne].
    + rewrite lookup_alter_eq. destruct (videos w !! vid); [|done].
      cbn. by rewrite Video_applyAll_files.
    + by rewrite lookup_alter_ne.
  - exists []. by rewrite app_nil_r.
Qed.

Lemma quiet_updateSegment id n us :
  run (Quiet vid) (updateSegment id n us) (eq (Ok tt)).
Proof.
  intros w. unfold updateSegment.
  destruct (videos w !! id) as [v|] eqn:Hv; [|split; [done|reflexivity]].
  destruct (Segment.updateFirst n us (Video.segments v));
    [|split; [done|reflexivity]].
  split; [done|]. split.
  - unfold filesOf. cbn [snd setVideos videos].
    destruct (decide (id = vid)) as [->|Hne].
    + by rewrite lookup_insert_eq, Hv.
    + by rewrite lookup_insert_ne.
  - exists []. by rewrite app_nil_r.
Qed.

Section Service.

Variable env : Env.
Variable cfg : Config.

Lemma quiet_external e :
  isStitch e = false -> run (Quiet vid) (external env e) (eq (Ok tt)).
Proof. apply quiet_await. Qed.

Lemma quiet_sleep ms : run (Quiet vid) (sleep env ms) (eq (Ok tt)).
Proof. by apply quiet_await. Qed.

Lemma quiet_updateProgress id phase progress message currentSegment :
  run (Quiet vid)
    (ProcessingService.updateProgress id phase progress message currentSegment)
    (eq (Ok tt)).
Proof.
  unfold ProcessingService.updateProgress.
  apply run_now; [apply _|]. intros z. apply quiet_update.
  repeat (apply Forall_cons; split; [done|]).
  apply Forall_app. split; [by destruct currentSegment; repeat constructor|].
  destruct phase; by repeat constructor.
Qed.

Lemma quiet_generateAndSaveSegment scenePrompt n outputPath prev duration
    attempt onJobStarted :
  (forall jobId, run (Quiet vid) (onJobStarted jobId) (fun _ => True)) ->
  run (Quiet vid)
    (SegmentGenerationService.generateAndSaveSegment env scenePrompt n
       outputPath prev duration attempt onJobStarted)
    (eq (generated env n attempt)).
Proof.
  intros Hcb. unfold SegmentGenerationService.generateAndSaveSegment, generated.
  eapply run_seq; [apply _|by apply quiet_external|].
  destruct (sora env n attempt) as [e|jobId fin].
  { by apply run_throw; [apply _|]. }
  eapply run_seq with (a := tt); [apply _|..].
  - eapply run_tryCatch; [apply _|apply Hcb|..].
    + by intros [].
    + intros e _. by apply run_ret; [apply _|].
  - destruct fin;
      by (apply run_ret; [apply _|]) || (apply run_throw; [apply _|]).
Qed.

Lemma soraCompletes_generated n attempt :
  soraCompletes env n attempt = true ->
  exists jobId,
    generated env n attempt
    = Ok (SegmentGenerationService.mkResult jobId
            SegmentGenerationService.Completed None).
Proof.
  unfold soraCompletes, generated.
  destruct (sora env n attempt) as [|jobId []]; try done. by exists jobId.
Qed.

Lemma not_soraCompletes_generated n attempt :
  soraCompletes env n attempt = false ->
  (exists e, generated env n attempt = Throw e)
  \/ exists res, generated env n attempt = Ok res
                 /\ SegmentGenerationService.status res
                    = SegmentGenerationService.Failed.
Proof.
  unfold soraCompletes, generated.
  destruct (sora env n attempt) as [|jobId []]; try done; eauto.
Qed.

(** One attempt: it returns a completed result exactly when the provider
    completes the job, and never throws. *)
Lemma quiet_generateSegmentAttempt scenePrompt n outputPath prev videoId duration
    attempt :
  run (Quiet vid)
    (ProcessingService.generateSegmentAttempt env cfg scenePrompt n outputPath
       prev videoId duration attempt)
    (fun r =>
       if soraCompletes env n attempt
       then r = Ok (Some (ProcessingService.mkSegmentResult
                            SegmentGenerationService.Completed None))
       else exists x, r = Ok x
                      /\ forall res, x = Some res ->
                           ProcessingService.status res
                           = SegmentGenerationService.Failed
                           /\ attempt = ProcessingService.maxRetries cfg).
Proof.
  unfold ProcessingService.generateSegmentAttempt.
  eapply run_tryCatch with
    (P := fun r =>
       if soraCompletes env n attempt
       then r = Ok (Some (ProcessingService.mkSegmentResult
                            SegmentGenerationService.Completed None))
       else r = Ok None \/ exists e, r = Throw e); [apply _|..].
  - apply run_now; [apply _|]. intros startedAt.
    eapply run_seq; [apply _|apply quiet_updateSegment|].
    eapply run_bind; [apply _|apply quiet_generateAndSaveSegment|..].
    + intros jobId. eapply run_weaken; [apply quiet_updateSegment|done].
    + intros res Hres.
      destruct (soraCompletes env n attempt) eqn:Hc.
      * destruct (soraCompletes_generated _ _ Hc) as [jobId Hg].
        rewrite Hg in Hres. injection Hres as <-. cbn.
        apply run_now; [apply _|]. intros completedAt.
        eapply run_seq; [apply _|apply quiet_updateSegment|].
        by apply run_ret; [apply _|].
      * destruct (not_soraCompletes_generated _ _ Hc) as [[e He]|(res' & Hg & Hst)].
        { congruence. }
        rewrite Hg in Hres. injection Hres as <-. rewrite Hst.
        eapply run_seq with (a := tt); [apply _|..].
        -- destruct (attempt <? _); [apply quiet_sleep|by apply run_ret; [apply _|]].
        -- apply run_ret; [apply _|]. by left.
    + intros e He. destruct (soraCompletes env n attempt) eqn:Hc.
      * destruct (soraCompletes_generated _ _ Hc) as [jobId Hg]. congruence.
      * right. by exists e.
  - intros a Ha. destruct (soraCompletes env n attempt); [done|].
    destruct Ha as [Ha|[e He]]; [|done]. exists a. split; [done|].
    injection Ha as ->. by intros.
  - intros error He. destruct (soraCompletes env n attempt); [done|].
    destruct (attempt =? ProcessingService.maxRetries cfg) eqn:Hlast.
    + eapply run_seq; [apply _|apply quiet_updateSegment|].
      apply run_ret; [apply _|]. eexists. split; [reflexivity|].
      intros res [= <-]. cbn. split; [done|]. by apply Nat.eqb_eq.
    + eapply run_seq; [apply _|apply quiet_sleep|].
      apply run_ret; [apply _|]. exists None. by split.
Qed.

Lemma quiet_generateSegmentAttempts scenePrompt n outputPath prev videoId
    duration remaining :
  forall attempt,
    attempt + remaining = S (ProcessingService.maxRetries cfg) ->
    run (Quiet vid)
      (ProcessingService.generateSegmentAttempts env cfg scenePrompt n
         outputPath prev videoId duration remaining attempt)
      (fun r =>
         exists res,
           r = Ok res
           /\ ProcessingService.status res
              = if existsb (soraCompletes env n) (seq attempt remaining)
                then SegmentGenerationService.Completed
                else SegmentGenerationService.Failed).
Proof.
  induction remaining as [|remaining IH]; intros attempt Hsum.
  - cbn. apply run_ret; [apply _|]. by eexists.
  - cbn [ProcessingService.generateSegmentAttempts seq existsb].
    eapply run_bind; [apply _|apply quiet_generateSegmentAttempt|..].
    + intros x Hx. destruct (soraCompletes env n attempt) eqn:Hc.
      * injection Hx as ->. apply run_ret; [apply _|]. by eexists.
      * destruct Hx as (x' & [= <-] & Hx). cbn [orb].
        destruct x as [res|].
        -- destruct (Hx res eq_refl) as [Hst Hlast].
           assert (remaining = 0) as ->.
           { unfold ProcessingService.maxRetries in *. lia. }
           apply run_ret; [apply _|]. by exists res.
        -- apply IH. lia.
    + intros e He. destruct (soraCompletes env n attempt); [done|].
      by destruct He as (x & [=] & _).
Qed.

Lemma quiet_generateSegmentWithRetry scenePrompt n outputPath prev videoId
    duration :
  run (Quiet vid)
    (ProcessingService.generateSegmentWithRetry env cfg scenePrompt n
       outputPath prev videoId duration)
    (fun r =>
       exists res,
         r = Ok res
         /\ ProcessingService.status res
            = if segmentSucceeds env cfg n
              then SegmentGenerationService.Completed
              else SegmentGenerationService.Failed).
Proof.
  unfold ProcessingService.generateSegmentWithRetry, segmentSucceeds.
  apply quiet_generateSegmentAttempts.
  unfold ProcessingService.maxRetries. lia.
Qed.

Lemma quiet_generateSegmentsFrom total userId videoId scenes :
  forall i prev k,
    k < length scenes ->
    (forall j, j < k ->
       segmentSucceeds env cfg (i + j + 1) = true
       /\ frameExtracts env cfg userId videoId (i + j + 1)) ->
    segmentSucceeds env cfg (i + k + 1) = false ->
    run (Quiet vid)
      (ProcessingService.generateSegmentsFrom env cfg total scenes i prev
         userId videoId)
      (eq (Throw (JS.newError
                    (ProcessingService.segmentFailedMessage cfg (i + k + 1))))).
Proof.
  induction scenes as [|scene rest IH]; intros i prev k Hk Hbefore Hfail.
  { cbn in Hk. lia. }
  cbn [ProcessingService.generateSegmentsFrom].
  eapply run_seq; [apply _|apply quiet_updateProgress|].
  eapply run_bind; [apply _|apply quiet_generateSegmentWithRetry|..].
  2:{ by intros e (res & [=] & _). }
  intros res (res' & [= <-] & Hst). rewrite Hst.
  destruct k as [|k].
  - replace (i + 0 + 1) with (i + 1) in * by lia. rewrite Hfail.
    by apply run_throw; [apply _|].
  - destruct (Hbefore 0 ltac:(lia)) as [Hok (p & Hp)].
    replace (i + 0 + 1) with (i + 1) in * by lia. rewrite Hok.
    eapply run_bind with (P := fun r => exists x, r = Ok x); [apply _|..].
    + destruct (i <? total - 1).
      * eapply run_seq; [apply _|by apply quiet_external|].
        rewrite Hp. eapply run_seq; [apply _|by apply run_liftRes; [apply _|]|].
        eapply run_seq; [apply _|apply quiet_updateSegment|].
        apply run_ret; [apply _|]. by eexists.
      * apply run_ret; [apply _|]. by eexists.
    + intros prev' _.
      replace (i + S k + 1) with (S i + k + 1) by lia.
      apply IH.
      * cbn in Hk. lia.
      * intros j Hj. replace (S i + j + 1) with (i + S j + 1) by lia.
        apply Hbefore. lia.
      * by replace (S i + k + 1) with (i + S k + 1) by lia.
    + by intros e (x & [=]).
Qed.

Lemma quiet_decomposeScenes videoId v :
  run (Quiet vid) (ProcessingService.decomposeScenes env cfg videoId v)
    (eq (Ok match llm env (Video.promptOf v) (Video.targetDuration v) with
            | Ok rawScenes =>
                SceneDecompositionService.validateAndTransformScenes rawScenes
                  (SceneDecompositionService.segmentCountOf cfg
                     (Video.targetDuration v))
                  (SceneDecompositionService.segmentDurationOf cfg
                     (Video.targetDuration v))
            | Throw _ =>
                SceneDecompositionService.scenes
                  (SceneDecompositionService.generateFallbackScenes cfg
                     (Video.promptOf v) (Video.targetDuration v))
            end)).
Proof.
  unfold ProcessingService.decomposeScenes.
  set (prompt := Video.promptOf v). set (d := Video.targetDuration v).
  eapply run_tryCatch with
    (P := fun r => match llm env prompt d with
                   | Ok rawScenes =>
                       r = Ok (SceneDecompositionService.validateAndTransformScenes
                                 rawScenes
                                 (SceneDecompositionService.segmentCountOf cfg d)
                                 (SceneDecompositionService.segmentDurationOf cfg d))
                   | Throw _ => exists e, r = Throw e
                   end); [apply _|..].
  - eapply run_bind with
      (P := fun r => match llm env prompt d with
                     | Ok rawScenes =>
                         r = Ok (SceneDecompositionService.mkResult
                                   (SceneDecompositionService.validateAndTransformScenes
                                      rawScenes
                                      (SceneDecompositionService.segmentCountOf cfg d)
                                      (SceneDecompositionService.segmentDurationOf cfg d))
                                   d (SceneDecompositionService.segmentCountOf cfg d))
                     | Throw _ => exists e, r = Throw e
                     end); [apply _|..].
    + unfold SceneDecompositionService.decomposePrompt.
      eapply run_tryCatch with
        (P := fun r => match llm env prompt d with
                       | Ok rawScenes =>
                           r = Ok (SceneDecompositionService.mkResult
                                     (SceneDecompositionService.validateAndTransformScenes
                                        rawScenes
                                        (SceneDecompositionService.segmentCountOf cfg d)
                                        (SceneDecompositionService.segmentDurationOf cfg d))
                                     d (SceneDecompositionService.segmentCountOf cfg d))
                       | Throw e => r = Throw e
                       end); [apply _|..].
      * eapply run_seq; [apply _|by apply quiet_external|].
        destruct (llm env prompt d) as [raw|e].
        -- eapply run_seq; [apply _|by apply run_liftRes; [apply _|]|].
           by apply run_ret; [apply _|].
        -- eapply run_bind with (P := eq (Throw e)); [apply _|..].
           ++ by apply run_liftRes; [apply _|].
           ++ by intros.
           ++ intros e0 He0. cbn. congruence.
      * intros a Ha. by destruct (llm env prompt d).
      * intros e He. apply run_throw; [apply _|].
        destruct (llm env prompt d); [done|by eexists].
    + intros res Hres. destruct (llm env prompt d) as [raw|e].
      * injection Hres as ->. cbn.
        eapply run_seq; [apply _|by apply quiet_update; repeat constructor|].
        by apply run_ret; [apply _|].
      * by destruct Hres.
    + intros e He. by destruct (llm env prompt d); [|eexists].
  - intros a Ha. by destruct (llm env prompt d) as [raw|e]; [|destruct Ha].
  - intros e He. destruct (llm env prompt d) as [raw|e']; [done|].
    eapply run_seq; [apply _|by apply quiet_update; repeat constructor|].
    by apply run_ret; [apply _|].
Qed.

Lemma quiet_pipeline videoId v k :
  fails env (EvCreateVideoDirectories (Video.userId v) videoId) = None ->
  k < length (runScenes env cfg v) ->
  (forall j, j < k ->
     segmentSucceeds env cfg (j + 1) = true
     /\ frameExtracts env cfg (Video.userId v) videoId (j + 1)) ->
  segmentSucceeds env cfg (k + 1) = false ->
  run (Quiet vid) (ProcessingService.pipeline env cfg videoId v)
    (eq (Throw (JS.newError
                  (ProcessingService.segmentFailedMessage cfg (k + 1))))).
Proof.
  intros Hdirs Hk Hbefore Hfail. unfold ProcessingService.pipeline.
  eapply run_seq; [apply _|..].
  { unfold StorageService.createVideoDirectories, externalUnit.
    eapply run_seq; [apply _|..].
    - eapply run_seq; [apply _|by apply quiet_external|].
      rewrite Hdirs. by apply run_ret; [apply _|].
    - by apply run_ret; [apply _|]. }
  eapply run_seq with (a := runScenes env cfg v); [apply _|..].
  { unfold runScenes. destruct (Video.scenes v) as [|s l].
    - eapply run_seq; [apply _|apply quiet_updateProgress|].
      eapply run_seq; [apply _|apply quiet_decomposeScenes|].
      eapply run_seq; [apply _|apply quiet_updateProgress|].
      by apply run_ret; [apply _|].
    - eapply run_seq; [apply _|apply quiet_updateProgress|].
      by apply run_ret; [apply _|]. }
  eapply run_seq; [apply _|apply quiet_updateProgress|].
  eapply run_bind; [apply _|..].
  - unfold ProcessingService.generateAllSegments.
    apply (quiet_generateSegmentsFrom _ _ _ _ 0 None k); [done|..].
    + intros j Hj. cbn. by apply Hbefore.
    + done.
  - by intros.
  - by intros e <-.
Qed.

End Service.

End QuietSteps.

(** * The processing lock *)

Lemma acquirable_available w key l :
  locks w !! key = Some l ->
  ProcessingLock.acquirable (now w) l = true <-> lockAvailable w key.
Proof.
  intros Hl. unfold ProcessingLock.acquirable, lockAvailable. split.
  - intros H. right. exists l. split; [done|].
    apply orb_true_iff in H as [H|H].
    + left. by destruct (Lock.isLocked l).
    + right. destruct (Lock.expiresAt l) as [e|]; [|done].
      exists e. split; [done|]. by apply Z.ltb_lt.
  - intros [H|(l' & Hl' & H)]; [congruence|].
    assert (l' = l) as -> by congruence.
    apply orb_true_iff. destruct H as [H|(e & He & Hlt)].
    + left. by rewrite H.
    + right. rewrite He. by apply Z.ltb_lt.
Qed.

Lemma acquireLock_available key lockedBy md timeoutMs w :
  lockAvailable w key ->
  exists lock,
    ProcessingLock.acquireLock key lockedBy md timeoutMs w
    = (Ok (Some lock),
       mkWorld (videos w) (<[key := lock]> (locks w)) (now w) (trace w))
    /\ Lock.isLocked lock = true
    /\ Lock.lockedBy lock = lockedBy
    /\ Lock.lockedAt lock = Some (now w)
    /\ Lock.expiresAt lock = Some (now w + timeoutMs)%Z
    /\ Lock.metadata lock = md.
Proof.
  intros Hav.
  unfold ProcessingLock.acquireLock, bind, getNow, tryCatch,
    ProcessingLock.findOneAndUpdateUpsert, setLocks, ret.
  destruct (locks w !! key) as [l|] eqn:Hl.
  - apply (acquirable_available w key l Hl) in Hav. rewrite Hav.
    eexists. cbn. rewrite String.eqb_refl. cbn.
    split; [reflexivity|]. by repeat split.
  - eexists. cbn. rewrite String.eqb_refl. cbn.
    split; [reflexivity|]. by repeat split.
Qed.

Lemma acquireLock_contended key lockedBy md timeoutMs w :
  ~ lockAvailable w key ->
  ProcessingLock.acquireLock key lockedBy md timeoutMs w = (Ok None, w).
Proof.
  intros Hn.
  unfold ProcessingLock.acquireLock, bind, getNow, tryCatch,
    ProcessingLock.findOneAndUpdateUpsert, setLocks, ret.
  destruct (locks w !! key) as [l|] eqn:Hl.
  - destruct (ProcessingLock.acquirable (now w) l) eqn:Hq; [|done].
    exfalso. by apply Hn, (acquirable_available w key l Hl).
  - exfalso. apply Hn. by left.
Qed.

(** C1.  [acquireLock] takes the lock exactly when the row of the key is
    absent, unlocked or expired: then it stores, in one step, a row that
    is locked by the caller from [now] until [now + timeoutMs] and
    returns it; otherwise, whoever the caller is, it returns [null] and
    the store is unchanged. *)
Theorem acquireLock_atomic key lockedBy md timeoutMs w :
  (lockAvailable w key ->
   exists lock,
     ProcessingLock.acquireLock key lockedBy md timeoutMs w
     = (Ok (Some lock),
        mkWorld (videos w) (<[key := lock]> (locks w)) (now w) (trace w))
     /\ Lock.isLocked lock = true
     /\ Lock.lockedBy lock = lockedBy
     /\ Lock.lockedAt lock = Some (now w)
     /\ Lock.expiresAt lock = Some (now w + timeoutMs)%Z
     /\ Lock.metadata lock = md)
  /\ (~ lockAvailable w key ->
      ProcessingLock.acquireLock key lockedBy md timeoutMs w = (Ok None, w)).
Proof.
  split; [apply acquireLock_available|apply acquireLock_contended].
Qed.

Lemma acquireLock_atomic_witness :
  (exists lock,
     ProcessingLock.acquireLock Lock.VIDEO_PROCESSING "processing-v1"
       Lock.noMetadata 1800000 Scenario.world2
     = (Ok (Some lock),
        mkWorld (videos Scenario.world2)
          (<[Lock.VIDEO_PROCESSING := lock]> (locks Scenario.world2))
          (now Scenario.world2) (trace Scenario.world2))
     /\ Lock.isLocked lock = true
     /\ Lock.lockedBy lock = "processing-v1"
     /\ Lock.lockedAt lock = Some (now Scenario.world2)
     /\ Lock.expiresAt lock = Some (now Scenario.world2 + 1800000)%Z
     /\ Lock.metadata lock = Lock.noMetadata)
  /\ ProcessingLock.acquireLock Lock.VIDEO_PROCESSING "processing-v1"
       Lock.noMetadata 1800000 Cases.heldWorld
     = (Ok None, Cases.heldWorld).
Proof.
  split.
  - apply (proj1 (acquireLock_atomic Lock.VIDEO_PROCESSING "processing-v1"
                    Lock.noMetadata 1800000 Scenario.world2)).
    left. reflexivity.
  - apply (proj2 (acquireLock_atomic Lock.VIDEO_PROCESSING "processing-v1"
                    Lock.noMetadata 1800000 Cases.heldWorld)).
    intros [H|(l & Hl & [H|(e & He & Hlt)])].
    + discriminate H.
    + vm_compute in Hl. injection Hl as <-. discriminate H.
    + vm_compute in Hl. injection Hl as <-. injection He as <-.
      vm_compute in Hlt. discriminate Hlt.
Defined.

(** * The orchestrator *)

(** The run of [processVideo] once the lock is taken: the [try] block
    with its handler, then the release of the [finally] block. *)
Lemma processVideo_locked env cfg vid v w :
  videos w !! vid = Some v ->
  lockAvailable w Lock.VIDEO_PROCESSING ->
  exists lock b ls,
    let w1 := mkWorld (videos w) (<[Lock.VIDEO_PROCESSING := lock]> (locks w))
                (now w) (trace w) in
    let body :=
      tryCatch (ProcessingService.pipeline env cfg vid v)
        (fun error =>
           ProcessingService.handleProcessingError vid error;; throw error) w1 in
    ProcessingService.processVideo env cfg vid w
    = (fst body,
       mkWorld (videos (snd body)) ls (now (snd body)) (trace (snd body)))
    /\ ProcessingLock.releaseLock Lock.VIDEO_PROCESSING (snd body)
       = (Ok b, mkWorld (videos (snd body)) ls (now (snd body))
                  (trace (snd body)))
    /\ (forall l, ls !! Lock.VIDEO_PROCESSING = Some l ->
                  Lock.isLocked l = false).
Proof.
  intros Hv Hav.
  unfold ProcessingService.processVideo, bind at 1, findById. rewrite Hv.
  unfold bind at 1, getNow. unfold bind at 1.
  unfold LockService.acquireVideoProcessingLock.
  match goal with |- context [ProcessingLock.acquireLock ?k ?o ?m ?t w] =>
    destruct (acquireLock_available k o m t w Hav) as (lock & -> & _) end.
  exists lock. unfold tryFinally. cbn zeta.
  match goal with |- context [tryCatch ?m ?h ?w1] =>
    destruct (tryCatch m h w1) as [r w2] end.
  unfold bind, LockService.releaseVideoProcessingLock.
  destruct (releaseLock_run Lock.VIDEO_PROCESSING w2) as (b & ls & Hrel & Hl & _).
  rewrite Hrel. exists b, ls. cbn [ret fst snd]. by repeat split.
Qed.

(** C2.  When the provider completes no attempt of some segment [k + 1],
    the segments before it having been generated and their last frames
    extracted, the run throws "Segment k+1 failed after N retries", the
    video is left [failed] with that message, the stitcher is never
    called, and the files recorded on the video are those it had before
    the run (no [final_720p], no [final_480p] is added). *)
Theorem segment_failure_fails_run env cfg vid v w k :
  videos w !! vid = Some v ->
  lockAvailable w Lock.VIDEO_PROCESSING ->
  fails env (EvCreateVideoDirectories (Video.userId v) vid) = None ->
  k < length (runScenes env cfg v) ->
  (forall j, j < k ->
     segmentSucceeds env cfg (j + 1) = true
     /\ frameExtracts env cfg (Video.userId v) vid (j + 1)) ->
  segmentSucceeds env cfg (k + 1) = false ->
  let message := ProcessingService.segmentFailedMessage cfg (k + 1) in
  let w' := snd (ProcessingService.processVideo env cfg vid w) in
  fst (ProcessingService.processVideo env cfg vid w)
  = Throw (JS.newError message)
  /\ (exists v', videos w' !! vid = Some v'
                 /\ Video.status v' = VFailed
                 /\ Video.errorMessage v' = Some message
                 /\ Video.files v' = Video.files v)
  /\ Forall (fun e => isStitch e = false) (newEvents w w').
Proof.
  intros Hv Hav Hdirs Hk Hbefore Hfail. cbn zeta.
  destruct (processVideo_locked env cfg vid v w Hv Hav)
    as (lock & b & ls & -> & _ & _).
  cbn [fst snd].
  set (w1 := mkWorld _ _ _ _).
  unfold tryCatch.
  destruct (quiet_pipeline vid env cfg vid v k Hdirs Hk Hbefore Hfail w1)
    as [Hres [Hfiles (evs & Ht & Hevs)]].
  destruct (ProcessingService.pipeline env cfg vid v w1) as [r w2].
  cbn [fst snd] in *. subst r.
  unfold bind, ProcessingService.handleProcessingError.
  rewrite findByIdAndUpdate_run. cbn [throw fst snd videos trace].
  split; [done|]. split.
  - unfold filesOf in Hfiles. cbn [videos w1] in Hfiles. rewrite Hv in Hfiles.
    destruct (videos w2 !! vid) as [v2|] eqn:Hv2; [|done].
    injection Hfiles as Hfiles.
    rewrite lookup_alter_eq, Hv2. eexists. split; [reflexivity|].
    by repeat split.
  - rewrite (newEvents_app w _ evs); [done|]. by rewrite Ht.
Qed.

Lemma segment_failure_fails_run_witness :
  let w' := snd (ProcessingService.processVideo Cases.brokenEnv defaultConfig
                   "v1" Scenario.world2) in
  fst (ProcessingService.processVideo Cases.brokenEnv defaultConfig "v1"
         Scenario.world2)
  = Throw (JS.newError (ProcessingService.segmentFailedMessage defaultConfig 2))
  /\ (exists v', videos w' !! "v1" = Some v'
                 /\ Video.status v' = VFailed
                 /\ Video.errorMessage v'
                    = Some (ProcessingService.segmentFailedMessage
                              defaultConfig 2)
                 /\ Video.files v' = Video.files Scenario.video2)
  /\ Forall (fun e => isStitch e = false) (newEvents Scenario.world2 w').
Proof.
  apply (segment_failure_fails_run Cases.brokenEnv defaultConfig "v1"
           Scenario.video2 Scenario.world2 1).
  - reflexivity.
  - left. reflexivity.
  - reflexivity.
  - vm_compute. lia.
  - intros j Hj. assert (j = 0) as -> by lia.
    split; [reflexivity|]. eexists. reflexivity.
  - reflexivity.
Defined.

(** C3, as the code has it.  A cancel request served while the video is
    in a processing phase (its status is neither [pending], [completed]
    nor [failed]) is accepted: the video becomes [failed] with the
    message "Processing cancelled by user", nothing else of it changes,
    the processing lock is released and no other video is touched. *)
Theorem cancelProcessing_effect vid v w :
  videos w !! vid = Some v ->
  Video.notProcessing (Video.status v) = false ->
  exists w',
    cancelProcessing vid w = (Ok true, w')
    /\ videos w' !! vid
       = Some (Video.mk (Video.userId v) (Video.title v)
                 (Video.originalPrompt v) (Video.enhancedPrompt v)
                 (Video.targetDuration v) (Video.actualDuration v)
                 (Video.segmentCount v) (Video.segmentDuration v)
                 (Video.scenes v) VFailed (Video.progress v)
                 (Video.currentPhase v) (Video.currentSegment v)
                 (Some "Processing cancelled by user") (Video.segments v)
                 (Video.files v) (Video.metadata v) (Video.completedAt v))
    /\ ~ lockHeld w' Lock.VIDEO_PROCESSING
    /\ (forall id, id <> vid -> videos w' !! id = videos w !! id)
    /\ trace w' = trace w.
Proof.
  intros Hv Hs. unfold cancelProcessing, bind, findById. rewrite Hv, Hs.
  rewrite findByIdAndUpdate_run.
  unfold LockService.releaseVideoProcessingLock.
  match goal with |- context [ProcessingLock.releaseLock ?k ?w1] =>
    destruct (releaseLock_run k w1) as (b & ls & -> & Hrel & _) end.
  cbn [ret videos locks now trace]. eexists. split; [reflexivity|].
  cbn [videos locks trace]. split; [by rewrite lookup_alter_eq, Hv|].
  split.
  { intros (l & Hl & Hheld). rewrite (Hrel l Hl) in Hheld. done. }
  split; [|done]. intros id Hne. by rewrite lookup_alter_ne.
Qed.

Lemma cancelProcessing_effect_witness :
  exists w',
    cancelProcessing "v1" Cases.generatingWorld = (Ok true, w')
    /\ (exists v', videos w' !! "v1" = Some v'
                   /\ Video.status v' = VFailed
                   /\ Video.errorMessage v'
                      = Some "Processing cancelled by user")
    /\ ~ lockHeld w' Lock.VIDEO_PROCESSING.
Proof.
  destruct (cancelProcessing_effect "v1"
              (Video.apply (Video.SetStatus VGenerating) Scenario.video2)
              Cases.generatingWorld eq_refl eq_refl)
    as (w' & Hrun & Hv & Hlock & _).
  exists w'. split; [exact Hrun|]. split; [|exact Hlock].
  eexists. split; [exact Hv|]. split; reflexivity.
Defined.

Lemma cancellation_not_honoured :
  ~ cancellationHonoured Cases.cancelEnv defaultConfig "v1" Scenario.world2.
Proof.
  intros H. destruct (H ltac:(vm_compute; reflexivity)) as [Hwork _].
  vm_compute in Hwork. discriminate.
Qed.

(** C4.  A run that takes the lock (the video exists and the lock is
    available) ends, whatever the external calls answer and whenever a
    cancel request is served, with the lock not held. *)
Theorem processVideo_releases_lock env cfg vid v w :
  videos w !! vid = Some v ->
  lockAvailable w Lock.VIDEO_PROCESSING ->
  ~ lockHeld (snd (ProcessingService.processVideo env cfg vid w))
      Lock.VIDEO_PROCESSING.
Proof.
  intros Hv Hav.
  destruct (processVideo_locked env cfg vid v w Hv Hav)
    as (lock & b & ls & -> & _ & Hl).
  cbn [snd]. intros (l & Hlk & Hheld). cbn [locks] in Hlk.
  rewrite (Hl l Hlk) in Hheld. done.
Qed.

Lemma processVideo_releases_lock_witness :
  ~ lockHeld (snd (ProcessingService.processVideo Cases.brokenEnv
                     defaultConfig "v1" Scenario.world2))
      Lock.VIDEO_PROCESSING.
Proof.
  apply (processVideo_releases_lock Cases.brokenEnv defaultConfig "v1"
           Scenario.video2 Scenario.world2).
  - reflexivity.
  - left. reflexivity.
Defined.

(** * Recovery *)

Lemma resumeLoop_prefix segments i :
  exists k,
    Forall (fun s => Segment.status s = SCompleted) (take k segments)
    /\ (forall s, segments !! k = Some s -> Segment.status s <> SCompleted)
    /\ RecoveryService.resumeLoop segments i (i + 1) = i + k + 1.
Proof.
  revert i. induction segments as [|s r IH]; intros i.
  - exists 0. cbn. repeat split; [constructor|done|lia].
  - cbn [RecoveryService.resumeLoop].
    destruct (Segment.status s) eqn:Hs;
      try (exists 0; cbn; repeat split;
           [constructor|intros ? [= <-]; congruence|lia]).
    destruct (IH (S i)) as (k & Hall & Hnext & Hres).
    exists (S k). cbn. repeat split; [by constructor|done|].
    replace (i + 2) with (S i + 1) by lia. rewrite Hres. lia.
Qed.



(** What [recoverVideo] does with a stored video, status by status: it
    recovers one that is [generating]; for the four later phases it
    fails in [path.join]; for the others it refuses. *)
Lemma recoverVideo_stored env cfg vid v w :
  videos w !! vid = Some v ->
  RecoveryService.recoverVideo env cfg vid w
  = match Video.status v with
    | VGenerating =>
        let k := RecoveryService.resumeLoop (Video.segments v) 0 1 in
        (Ok (RecoveryService.mkResult true
               ("Marked for resume from segment " +:+ JS.ofNat k) (Some k)),
         mkWorld (alter (Video.applyAll
                           [Video.SetStatus VPending;
                            Video.SetCurrentSegment k;
                            Video.SetErrorMessage None]) vid (videos w))
                 (locks w) (now w) (trace w))
    | VStitching | VAudio | VMerging | VTranscoding =>
        (Throw StorageService.invalidArgType, w)
    | _ =>
        (Ok (RecoveryService.mkResult false "Video not in recoverable state"
               None), w)
    end.
Proof.
  intros Hv. unfold RecoveryService.recoverVideo, bind, findById. rewrite Hv.
  destruct (Video.status v); reflexivity.
Qed.




(** * The retry policy *)

Section WithRetryFacts.

Context {T : Type} (env : Env) (c : RetryService.RetryConfig).
Variable fn : nat -> Res T.
Variable o : RetryService.Options.





End WithRetryFacts.




(** * The audio phase *)

Lemma narrated_trimmed s :
  ProcessingService.narrated s = true ->
  (0 <? String.length (ProcessingService.trimmedNarration s)) = true.
Proof.
  unfold ProcessingService.narrated, ProcessingService.trimmedNarration.
  destruct (Scene.narrationText s) as [t|]; [|done].
  intros [_ H]%andb_true_iff. unfold JS.truthy in H.
  by destruct (JS.trim t).
Qed.

(** C8, as the code has it.  The audio phase uses the scenes' own
    narration as soon as one scene has a narration text that is not
    blank: the script handed to the speech service is then the trimmed,
    non-empty narration texts joined by single spaces, and the narration
    writer is not called.  Only when no scene has such a text is the
    narration writer called, and its script handed to the speech
    service. *)
Theorem generateAudio_script env cfg videoId video scenes paths w :
  let w' := snd (ProcessingService.generateAudio env cfg videoId video scenes
                   paths w) in
  (ProcessingService.hasUserNarration scenes = true <->
   exists s t, In s scenes /\ Scene.narrationText s = Some t
               /\ JS.trim t <> "")
  /\ (ProcessingService.hasUserNarration scenes = true ->
      head (newEvents w w')
      = Some (EvGenerateNarration
                (JS.join " "
                   (List.filter (fun text => negb (String.eqb text ""))
                      (List.map (fun s => JS.trim (default "" (Scene.narrationText s)))
                                scenes)))
                (StorageService.audio paths))
      /\ Forall (fun e => isWriter e = false) (newEvents w w'))
  /\ (ProcessingService.hasUserNarration scenes = false ->
      head (newEvents w w')
      = Some (EvGenerateNarrationScript (Video.promptOf video) scenes
                (Video.targetDuration video))
      /\ forall script,
           narrationWriter env (Video.promptOf video) scenes
             (Video.targetDuration video) = Ok script ->
           exists cs rest,
             newEvents w w'
             = EvGenerateNarrationScript (Video.promptOf video) scenes
                 (Video.targetDuration video)
               :: cs ++ EvGenerateNarration script (StorageService.audio paths)
               :: rest
             /\ Forall (fun c => isCancel c = true) cs).
Proof.
  cbn zeta. split; [|split].
  - unfold ProcessingService.hasUserNarration. rewrite existsb_exists. split.
    + intros (s & Hin & Hn). unfold ProcessingService.narrated in Hn.
      destruct (Scene.narrationText s) as [t|] eqn:Ht; [|done].
      apply andb_true_iff in Hn as [_ Hn]. exists s, t.
      split; [done|]. split; [done|].
      intros Heq. rewrite Heq in Hn. done.
    + intros (s & t & Hin & Ht & Hne). exists s. split; [done|].
      unfold ProcessingService.narrated. rewrite Ht.
      assert (Htr : JS.truthy (JS.trim t) = true).
      { unfold JS.truthy. destruct (String.eqb_spec (JS.trim t) ""); done. }
      rewrite Htr, andb_true_r. unfold JS.truthy.
      destruct (String.eqb_spec t "") as [->|]; [|done].
      exfalso. apply Hne. reflexivity.
  - intros Hn.
    replace (JS.join " "
         (List.filter (fun text => negb (String.eqb text ""))
            (List.map (fun s => JS.trim (default "" (Scene.narrationText s)))
               scenes)))
      with (ProcessingService.userScript scenes).
    2:{ unfold ProcessingService.userScript. f_equal.
        clear. induction scenes as [|s r IH]; [done|].
        cbn [List.filter List.map].
        assert (Heq : JS.trim (default "" (Scene.narrationText s))
                      = ProcessingService.trimmedNarration s).
        { unfold ProcessingService.trimmedNarration.
          by destruct (Scene.narrationText s). }
        rewrite Heq.
        assert (Hb : negb (ProcessingService.trimmedNarration s =? "")%string
                     = (0 <? String.length (ProcessingService.trimmedNarration s))).
        { by destruct (ProcessingService.trimmedNarration s). }
        rewrite Hb. destruct (0 <? _); by rewrite IH. }
    set (script := ProcessingService.userScript scenes).
    set (e1 := EvGenerateNarration script (StorageService.audio paths)).
    set (e2 := EvGetFileSize (StorageService.audio paths)).
    assert (Hcw : forall cs, Forall (fun c => isCancel c = true) cs ->
                             Forall (fun e => isWriter e = false) cs).
    { intros cs H. eapply Forall_impl; [exact H|]. by intros []. }
    assert (Hrun : exists cs, trace (snd (ProcessingService.generateAudio env cfg
                                     videoId video scenes paths w))
                    = trace w ++ e1 :: cs
                    /\ Forall (fun e => isWriter e = false) cs).
    { unfold ProcessingService.generateAudio. rewrite Hn.
      unfold externalUnit, StorageService.getFileSize, external, bind, liftRes.
      cbn [ret]. fold script. fold e1. fold e2.
      destruct (await_run env e1 (elapsed env e1) w)
        as (w1 & cs1 & -> & Ht1 & Hc1 & _).
      destruct (fails env e1) as [err|]; cbn [throw ret snd].
      { exists cs1. split; [done|]. by apply Hcw. }
      destruct (await_run env e2 (elapsed env e2) w1)
        as (w2 & cs2 & -> & Ht2 & Hc2 & _).
      exists (cs1 ++ e2 :: cs2). split.
      - destruct (fileSize env _); cbn [snd findByIdAndUpdate setVideos trace];
          rewrite Ht2, Ht1, <- app_assoc; done.
      - apply Forall_app. split; [by apply Hcw|].
        constructor; [done|]. by apply Hcw. }
    destruct Hrun as (cs & Ht & Hcs).
    rewrite (newEvents_app _ _ _ Ht). split; [done|]. by constructor.
  - intros Hn.
    set (e0 := EvGenerateNarrationScript _ _ _).
    set (out := StorageService.audio paths).
    set (e2 := EvGetFileSize out).
    assert (Hrun : exists cs,
               trace (snd (ProcessingService.generateAudio env cfg
                             videoId video scenes paths w))
               = trace w ++ e0 :: cs
               /\ forall script,
                    narrationWriter env (Video.promptOf video) scenes
                      (Video.targetDuration video) = Ok script ->
                    exists cs1 rest,
                      cs = cs1 ++ EvGenerateNarration script out :: rest
                      /\ Forall (fun c => isCancel c = true) cs1).
    { unfold ProcessingService.generateAudio. rewrite Hn.
      unfold externalUnit, StorageService.getFileSize, external, bind, liftRes.
      fold e0. fold out. fold e2.
      destruct (await_run env e0 (elapsed env e0) w)
        as (w1 & cs1 & -> & Ht1 & Hc1 & _).
      destruct (narrationWriter env _ _ _) as [script|err] eqn:Hw; cbn [snd].
      2:{ exists cs1. split; [done|]. intros ? [=]. }
      set (e1 := EvGenerateNarration script out).
      destruct (await_run env e1 (elapsed env e1) w1)
        as (w2 & cs2 & -> & Ht2 & Hc2 & _).
      destruct (fails env e1) as [err|]; cbn [throw ret snd].
      { exists (cs1 ++ e1 :: cs2). split.
        - rewrite Ht2, Ht1, <- app_assoc. done.
        - intros ? [= <-]. by exists cs1, cs2. }
      destruct (await_run env e2 (elapsed env e2) w2)
        as (w3 & cs3 & -> & Ht3 & Hc3 & _).
      exists (cs1 ++ e1 :: cs2 ++ e2 :: cs3). split.
      - destruct (fileSize env _); cbn [snd findByIdAndUpdate setVideos trace];
          rewrite Ht3, Ht2, Ht1; repeat rewrite <- app_assoc; done.
      - intros ? [= <-]. by eexists cs1, _. }
    destruct Hrun as (cs & Ht & Hcs).
    rewrite (newEvents_app _ _ _ Ht). split; [done|].
    intros script Hw. destruct (Hcs script Hw) as (cs1 & rest & -> & Hc1).
    by exists cs1, rest.
Qed.

Lemma generateAudio_script_witness :
  let paths := StorageService.getVideoPaths defaultConfig "u1" "v1" in
  let w' := snd (ProcessingService.generateAudio Scenario.calmEnv
                   defaultConfig "v1" Scenario.video2 Scenario.twoScenes
                   paths Scenario.world2) in
  head (newEvents Scenario.world2 w')
  = Some (EvGenerateNarration
            (JS.join " "
               (List.filter (fun text => negb (String.eqb text ""))
                  (List.map
                     (fun s => JS.trim (default "" (Scene.narrationText s)))
                     Scenario.twoScenes)))
            (StorageService.audio paths))
  /\ Forall (fun e => isWriter e = false) (newEvents Scenario.world2 w').
Proof.
  apply (proj1 (proj2 (generateAudio_script Scenario.calmEnv defaultConfig
                         "v1" Scenario.video2 Scenario.twoScenes
                         (StorageService.getVideoPaths defaultConfig "u1" "v1")
                         Scenario.world2))).
  reflexivity.
Defined.

Lemma narration_claim_fails :
  ~ narrationClaim Scenario.calmEnv defaultConfig "v1" Scenario.video2
      Scenario.twoScenes
      (StorageService.getVideoPaths defaultConfig "u1" "v1") Scenario.world2.
Proof. vm_compute. discriminate. Qed.

(** * Segment counts *)

Lemma ceilDiv_bounds a b :
  (0 < b)%Z -> (b * (JS.ceilDiv a b - 1) < a <= b * JS.ceilDiv a b)%Z.
Proof.
  intros Hb. unfold JS.ceilDiv.
  pose proof (Z.div_mod (- a) b ltac:(lia)) as Hdm.
  pose proof (Z.mod_pos_bound (- a) b Hb) as Hm.
  nia.
Qed.




(** * Refused cancel requests *)

(** C10.  For a video that is [completed], [failed] or [pending],
    [cancelProcessing] answers false and changes nothing, and the cancel
    route, called by the owner, answers 400. *)
Theorem cancelProcessing_refuses_idle userId vid v w :
  videos w !! vid = Some v ->
  Video.status v = VCompleted \/ Video.status v = VFailed
  \/ Video.status v = VPending ->
  cancelProcessing vid w = (Ok false, w)
  /\ (Video.userId v = userId ->
      VideoRoutes.cancel userId vid w = (Ok (VideoRoutes.Status 400), w)).
Proof.
  intros Hv Hs.
  assert (Hc : cancelProcessing vid w = (Ok false, w)).
  { unfold cancelProcessing, bind, findById. rewrite Hv.
    by destruct Hs as [->|[->| ->]]. }
  split; [exact Hc|]. intros Hu.
  unfold VideoRoutes.cancel, bind, findById. rewrite Hv, Hu, String.eqb_refl.
  cbn [negb]. by rewrite Hc.
Qed.

Lemma cancelProcessing_refuses_idle_witness :
  cancelProcessing "v1" Scenario.world2 = (Ok false, Scenario.world2)
  /\ VideoRoutes.cancel "u1" "v1" Scenario.world2
     = (Ok (VideoRoutes.Status 400), Scenario.world2).
Proof.
  destruct (cancelProcessing_refuses_idle "u1" "v1" Scenario.video2
              Scenario.world2 eq_refl (or_intror (or_intror eq_refl)))
    as [Hc Hr].
  split; [exact Hc|]. apply Hr. reflexivity.
Defined.

(** ** Further properties of the lock *)

Lemma lockAvailable_cases w key :
  lockAvailable w key
  <-> match locks w !! key with
      | Some l => ProcessingLock.acquirable (now w) l = true
      | None => True
      end.
Proof.
  destruct (locks w !! key) as [l|] eqn:Hl.
  - symmetry. apply acquirable_available. exact Hl.
  - split; [tauto|]. intros _. left. exact Hl.
Qed.





Lemma acquired_row key o md t w w2 :
  lockAvailable w key ->
  locks w2 !! key
  = locks (snd (ProcessingLock.acquireLock key o md t w)) !! key ->
  exists lock,
    locks w2 !! key = Some lock
    /\ Lock.isLocked lock = true
    /\ Lock.lockedBy lock = o
    /\ Lock.lockedAt lock = Some (now w)
    /\ Lock.expiresAt lock = Some (now w + t)%Z
    /\ Lock.metadata lock = md.
Proof.
  intros Ha Hrow.
  destruct (acquireLock_available key o md t w Ha) as (lock & Hacq & Hrest).
  rewrite Hacq in Hrow. cbn in Hrow. rewrite lookup_insert_eq in Hrow.
  exists lock. auto.
Qed.

(** X2.  After a successful [acquireLock] with timeout [t1], as long as the row
    stays as acquired, every further [acquireLock] up to and including
    the expiry instant returns null and changes nothing, whoever asks
    (the first owner included); strictly after the expiry instant the
    lock is taken over by the one who asks. *)
Theorem acquireLock_excludes_until_expiry key o1 md1 t1 o2 md2 t2 w w2 :
  lockAvailable w key ->
  locks w2 !! key
  = locks (snd (ProcessingLock.acquireLock key o1 md1 t1 w)) !! key ->
  ((now w2 <= now w + t1)%Z ->
   ProcessingLock.acquireLock key o2 md2 t2 w2 = (Ok None, w2))
  /\ ((now w + t1 < now w2)%Z ->
      exists lock,
        fst (ProcessingLock.acquireLock key o2 md2 t2 w2) = Ok (Some lock)
        /\ Lock.lockedBy lock = o2
        /\ Lock.expiresAt lock = Some (now w2 + t2)%Z).
Proof.
  intros Ha Hrow.
  destruct (acquired_row _ _ _ _ _ _ Ha Hrow)
    as (lock & Hl & Hlk & _ & _ & He & _).
  assert (Hiff : lockAvailable w2 key <-> (now w + t1 < now w2)%Z).
  { rewrite lockAvailable_cases, Hl. unfold ProcessingLock.acquirable.
    rewrite Hlk, He. cbn. rewrite Z.ltb_lt. reflexivity. }
  split.
  - intros Hle. apply acquireLock_contended. rewrite Hiff. lia.
  - intros Hlt. apply Hiff in Hlt.
    destruct (acquireLock_available key o2 md2 t2 w2 Hlt)
      as (lock2 & Hacq & _ & Hby & _ & He2 & _).
    exists lock2. rewrite Hacq. auto.
Qed.

Lemma acquireLock_excludes_until_expiry_witness :
  let w1 := snd (ProcessingLock.acquireLock Lock.VIDEO_PROCESSING
                   "processing-v1" Lock.noMetadata 1800000 Scenario.world2) in
  ProcessingLock.acquireLock Lock.VIDEO_PROCESSING "processing-v2"
    Lock.noMetadata 1800000 w1
  = (Ok None, w1).
Proof.
  refine (proj1 (acquireLock_excludes_until_expiry Lock.VIDEO_PROCESSING
                   "processing-v1" Lock.noMetadata 1800000 "processing-v2"
                   Lock.noMetadata 1800000 Scenario.world2 _ _ _) _).
  - left. reflexivity.
  - reflexivity.
  - vm_compute. discriminate.
Defined.

(** X3.  [releaseLock] returns true exactly when the row exists, whoever holds
    it; on a missing row it returns false and changes nothing.  The row
    it leaves can be acquired at any clock, keeps the name of its last
    owner, and no other row, video, clock or log entry changes. *)
Theorem releaseLock_frees key w :
  exists b w',
    ProcessingLock.releaseLock key w = (Ok b, w')
    /\ (b = true <-> is_Some (locks w !! key))
    /\ (b = false -> w' = w)
    /\ (forall w2, locks w2 !! key = locks w' !! key -> lockAvailable w2 key)
    /\ Lock.lockedBy <$> locks w' !! key = Lock.lockedBy <$> locks w !! key
    /\ (forall k, k <> key -> locks w' !! k = locks w !! k)
    /\ videos w' = videos w /\ now w' = now w /\ trace w' = trace w.
Proof.
  unfold ProcessingLock.releaseLock.
  destruct (locks w !! key) as [l|] eqn:Hl.
  - eexists true, _. split; [reflexivity|]. cbn.
    split; [split; eauto|]. split; [discriminate|].
    split.
    { intros w2 Hrow. rewrite lookup_insert_eq in Hrow.
      right. eexists. split; [exact Hrow|]. left. reflexivity. }
    rewrite lookup_insert_eq.
    split; [reflexivity|].
    split; [intros k Hk; apply lookup_insert_ne; congruence|]. auto.
  - exists false, w. split; [reflexivity|]. rewrite Hl.
    split; [split; [discriminate|intros [? [=]]]|].
    split; [reflexivity|].
    split; [intros w2 Hrow; left; exact Hrow|]. auto.
Qed.

Lemma expiredHeld_acquirable now l :
  ProcessingLock.expiredHeld now l = true ->
  ProcessingLock.acquirable now l = true.
Proof.
  unfold ProcessingLock.expiredHeld, ProcessingLock.acquirable.
  destruct (Lock.isLocked l); cbn; [auto|discriminate].
Qed.

Lemma acquirable_released now l :
  ProcessingLock.acquirable now (ProcessingLock.released l) = true.
Proof. reflexivity. Qed.

Lemma expiredHeld_released now l :
  ProcessingLock.expiredHeld now (ProcessingLock.released l) = false.
Proof. reflexivity. Qed.

Lemma cleanupExpiredLocks_run w :
  let sweep := fun l =>
    if ProcessingLock.expiredHeld (now w) l then ProcessingLock.released l
    else l in
  ProcessingLock.cleanupExpiredLocks w
  = (Ok (size (filter (fun kl => ProcessingLock.expiredHeld (now w) (snd kl)
                                 = true) (locks w))),
     mkWorld (videos w) (sweep <$> locks w) (now w) (trace w)).
Proof. reflexivity. Qed.

(** X4.  [cleanupExpiredLocks] returns 0 exactly when it changes no row.  It
    never changes which locks can be acquired; afterwards a row is marked
    locked exactly when its lock cannot be acquired, and a second cleanup
    at the same clock returns 0 and changes nothing. *)
Theorem cleanupExpiredLocks_effect w :
  exists n w',
    ProcessingLock.cleanupExpiredLocks w = (Ok n, w')
    /\ (n = 0 <-> locks w' = locks w)
    /\ (forall k, lockAvailable w' k <-> lockAvailable w k)
    /\ (forall k, lockHeld w' k <-> ~ lockAvailable w k)
    /\ ProcessingLock.cleanupExpiredLocks w' = (Ok 0, w')
    /\ videos w' = videos w /\ now w' = now w /\ trace w' = trace w.
Proof.
  rewrite cleanupExpiredLocks_run. cbv zeta.
  set (sweep := fun l => if ProcessingLock.expiredHeld (now w) l
                         then ProcessingLock.released l else l).
  set (expired := filter _ (locks w)).
  assert (Hnone : size expired = 0
                  <-> forall k l, locks w !! k = Some l ->
                                  ProcessingLock.expiredHeld (now w) l = false).
  { rewrite map_size_empty_iff. unfold expired.
    rewrite map_empty. split.
    - intros He k l Hl.
      destruct (ProcessingLock.expiredHeld (now w) l) eqn:Hx; [|reflexivity].
      specialize (He k). rewrite map_lookup_filter_None in He.
      destruct He as [He|He]; [congruence|]. specialize (He l Hl). cbn in He.
      congruence.
    - intros He k. apply map_lookup_filter_None. right. intros l Hl. cbn.
      rewrite (He k l Hl). discriminate. }
  eexists _, _. split; [reflexivity|]. cbn [videos locks now trace].
  split; [|split; [|split; [|split]]].
  - rewrite Hnone. split.
    + intros He. apply map_eq. intros k. rewrite lookup_fmap.
      destruct (locks w !! k) as [l|] eqn:Hl; [|reflexivity]. cbn.
      unfold sweep. rewrite (He k l Hl). reflexivity.
    + intros Heq k l Hl.
      assert (Hk : (sweep <$> locks w) !! k = Some l) by (rewrite Heq; exact Hl).
      rewrite lookup_fmap, Hl in Hk. cbn in Hk. unfold sweep in Hk.
      destruct (ProcessingLock.expiredHeld (now w) l) eqn:Hx; [|reflexivity].
      injection Hk as Hk. unfold ProcessingLock.expiredHeld in Hx.
      destruct (Lock.isLocked l) eqn:Hlk; [|discriminate].
      rewrite <- Hk in Hlk. discriminate.
  - intros k. rewrite !lockAvailable_cases. cbn [locks now].
    rewrite lookup_fmap. destruct (locks w !! k) as [l|]; [|reflexivity]. cbn.
    unfold sweep.
    destruct (ProcessingLock.expiredHeld (now w) l) eqn:Hx; [|reflexivity].
    rewrite acquirable_released, (expiredHeld_acquirable _ _ Hx). reflexivity.
  - intros k. rewrite lockAvailable_cases. unfold lockHeld. cbn [locks].
    rewrite lookup_fmap. destruct (locks w !! k) as [l|]; cbn.
    + unfold sweep, ProcessingLock.expiredHeld, ProcessingLock.acquirable.
      destruct (Lock.isLocked l) eqn:Hlk; cbn.
      * destruct (Lock.expiresAt l) as [e|]; [destruct (e <? now w)%Z|].
        -- split; [intros (l' & [= <-] & Hl'); discriminate|congruence].
        -- split; [discriminate|]. intros _. exists l. auto.
        -- split; [discriminate|]. intros _. exists l. auto.
      * split; [intros (l' & [= <-] & Hl'); congruence|congruence].
    + split; [intros (l' & [=] & _)|tauto].
  - rewrite cleanupExpiredLocks_run. cbn [videos locks now trace]. f_equal.
    + f_equal. apply map_size_empty_iff, map_empty. intros k.
      apply map_lookup_filter_None. right. intros l Hl. cbn.
      rewrite lookup_fmap in Hl.
      destruct (locks w !! k) as [l0|]; [|discriminate]. cbn in Hl.
      injection Hl as <-. unfold sweep.
      destruct (ProcessingLock.expiredHeld (now w) l0) eqn:Hx;
        [rewrite expiredHeld_released|rewrite Hx]; discriminate.
    + f_equal. apply map_eq. intros k. rewrite !lookup_fmap.
      destruct (locks w !! k) as [l0|]; [|reflexivity]. cbn. f_equal.
      unfold sweep.
      destruct (ProcessingLock.expiredHeld (now w) l0) eqn:Hx;
        [rewrite expiredHeld_released|rewrite Hx]; reflexivity.
  - auto.
Qed.









(** ** Further properties of the routes *)

(** X7.  For an id that names a video of another user, or that is a
    well-formed ObjectId without a video, the status, cancel and delete
    routes answer 404 and change nothing. *)
Theorem routes_hide_foreign_videos deleteVideoFiles userId id w :
  (exists v, videos w !! id = Some v /\ Video.userId v <> userId)
  \/ (videos w !! id = None /\ JS.isObjectIdString id = true) ->
  VideoRoutes.status userId id w = (Ok (VideoRoutes.Refused 404), w)
  /\ VideoRoutes.cancel userId id w = (Ok (VideoRoutes.Status 404), w)
  /\ VideoRoutes.deleteVideo deleteVideoFiles userId id w
     = (Ok (VideoRoutes.Status 404), w).
Proof.
  intros Hown.
  unfold VideoRoutes.status, VideoRoutes.cancel, VideoRoutes.deleteVideo,
    bind, findById.
  destruct (videos w !! id) as [v|]; [|auto].
  destruct Hown as [(v0 & [= <-] & Hne)|[[=] _]].
  destruct (String.eqb (Video.userId v) userId) eqn:He; [|auto].
  apply String.eqb_eq in He. congruence.
Qed.

Lemma routes_hide_foreign_videos_witness :
  (VideoRoutes.status "u2" "v1" Scenario.world2
   = (Ok (VideoRoutes.Refused 404), Scenario.world2)
   /\ VideoRoutes.cancel "u2" "v1" Scenario.world2
      = (Ok (VideoRoutes.Status 404), Scenario.world2)
   /\ VideoRoutes.deleteVideo (fun _ _ => ret tt) "u2" "v1" Scenario.world2
      = (Ok (VideoRoutes.Status 404), Scenario.world2))
  /\ VideoRoutes.status "u1" "507f1f77bcf86cd799439011" Scenario.world2
     = (Ok (VideoRoutes.Refused 404), Scenario.world2).
Proof.
  split.
  - apply (routes_hide_foreign_videos (fun _ _ => ret tt) "u2" "v1"
             Scenario.world2).
    left. exists Scenario.video2. split; [reflexivity|discriminate].
  - apply (routes_hide_foreign_videos (fun _ _ => ret tt) "u1"
             "507f1f77bcf86cd799439011" Scenario.world2).
    right. split; reflexivity.
Defined.

Lemma cancelProcessing_cases id v w :
  videos w !! id = Some v ->
  exists b w1,
    cancelProcessing id w = (Ok b, w1)
    /\ if Video.notProcessing (Video.status v)
       then b = false /\ w1 = w
       else b = true /\ Video.status <$> videos w1 !! id = Some VFailed.
Proof.
  intros Hv. unfold cancelProcessing, bind, findById. rewrite Hv.
  destruct (Video.notProcessing (Video.status v)).
  - eexists _, _. split; [reflexivity|]. auto.
  - rewrite findByIdAndUpdate_run.
    match goal with
    | |- context [LockService.releaseVideoProcessingLock ?w0] =>
        destruct (releaseLock_run Lock.VIDEO_PROCESSING w0)
          as (b' & ls & Hr & _)
    end.
    unfold LockService.releaseVideoProcessingLock. rewrite Hr.
    eexists _, _. split; [reflexivity|]. cbn.
    rewrite lookup_alter_eq, Hv. auto.
Qed.

(** X8.  For a video of the caller, exactly one of cancelling and deleting is
    accepted, as the status route tells: when [isProcessing] is true,
    cancel answers 200 and leaves the video failed while delete answers
    400 and changes nothing; when it is false, cancel answers 400 and
    changes nothing while delete answers 200 and removes exactly this
    document (provided the removal of its files returns). *)
Theorem cancel_or_delete deleteVideoFiles userId id v w :
  videos w !! id = Some v ->
  Video.userId v = userId ->
  (forall w0, exists w1, deleteVideoFiles userId id w0 = (Ok tt, w1)
                         /\ videos w1 = videos w0) ->
  exists data code_cancel code_delete w1 w2,
    VideoRoutes.status userId id w = (Ok (VideoRoutes.Json data), w)
    /\ VideoRoutes.cancel userId id w = (Ok (VideoRoutes.Status code_cancel), w1)
    /\ VideoRoutes.deleteVideo deleteVideoFiles userId id w
       = (Ok (VideoRoutes.Status code_delete), w2)
    /\ (VideoRoutes.sd_isProcessing data = true ->
        code_cancel = 200 /\ code_delete = 400 /\ w2 = w
        /\ Video.status <$> videos w1 !! id = Some VFailed)
    /\ (VideoRoutes.sd_isProcessing data = false ->
        code_cancel = 400 /\ code_delete = 200 /\ w1 = w
        /\ videos w2 = delete id (videos w)).
Proof.
  intros Hv Hu Hdel.
  assert (He : String.eqb (Video.userId v) userId = true)
    by (apply String.eqb_eq; exact Hu).
  assert (Hstatus : exists data,
            VideoRoutes.status userId id w = (Ok (VideoRoutes.Json data), w)
            /\ VideoRoutes.sd_isProcessing data
               = negb (Video.notProcessing (Video.status v))).
  { unfold VideoRoutes.status, bind, findById. rewrite Hv, He. cbn.
    eexists. split; reflexivity. }
  destruct Hstatus as (data & Hstatus & Hproc).
  destruct (cancelProcessing_cases id v w Hv) as (b & w1 & Hc & Hb).
  assert (Hcancel : VideoRoutes.cancel userId id w
                    = (Ok (VideoRoutes.Status (if b then 200 else 400)), w1)).
  { unfold VideoRoutes.cancel, bind, findById. rewrite Hv, He. cbn [negb].
    rewrite Hc. destruct b; reflexivity. }
  destruct (Hdel w) as (w0 & Hd & Hvid).
  assert (Hdelete : exists code w2,
            VideoRoutes.deleteVideo deleteVideoFiles userId id w
            = (Ok (VideoRoutes.Status code), w2)
            /\ if Video.notProcessing (Video.status v)
               then code = 200 /\ videos w2 = delete id (videos w)
               else code = 400 /\ w2 = w).
  { unfold VideoRoutes.deleteVideo, bind, findById. rewrite Hv, He. cbn [negb].
    destruct (Video.notProcessing (Video.status v)); cbn [negb].
    - rewrite Hd. cbn. eexists _, _. split; [reflexivity|]. cbn.
      rewrite Hvid. auto.
    - eexists _, _. split; [reflexivity|]. auto. }
  destruct Hdelete as (code & w2 & Hdelete & Hcode).
  exists data, (if b then 200 else 400), code, w1, w2.
  repeat (split; [assumption|]). rewrite Hproc. revert Hb Hcode.
  destruct (Video.notProcessing (Video.status v)); cbn [negb].
  - intros [-> ->] [-> Hvs]. split; [discriminate|]. auto.
  - intros [-> Hst] [-> ->]. split; [auto|discriminate].
Qed.

Lemma cancel_or_delete_witness :
  exists data code_cancel code_delete w1 w2,
    VideoRoutes.status "u1" "v1" Scenario.world2
    = (Ok (VideoRoutes.Json data), Scenario.world2)
    /\ VideoRoutes.cancel "u1" "v1" Scenario.world2
       = (Ok (VideoRoutes.Status code_cancel), w1)
    /\ VideoRoutes.deleteVideo (fun _ _ => ret tt) "u1" "v1" Scenario.world2
       = (Ok (VideoRoutes.Status code_delete), w2)
    /\ (VideoRoutes.sd_isProcessing data = true ->
        code_cancel = 200 /\ code_delete = 400 /\ w2 = Scenario.world2
        /\ Video.status <$> videos w1 !! "v1" = Some VFailed)
    /\ (VideoRoutes.sd_isProcessing data = false ->
        code_cancel = 400 /\ code_delete = 200 /\ w1 = Scenario.world2
        /\ videos w2 = delete "v1" (videos Scenario.world2)).
Proof.
  apply (cancel_or_delete (fun _ _ => ret tt) "u1" "v1" Scenario.video2
           Scenario.world2).
  - reflexivity.
  - reflexivity.
  - intros w0. exists w0. split; reflexivity.
Defined.

(** ** Creating and starting a run *)






(** X10.  [processVideo] on a well-formed ObjectId that names no video throws
    [Video not found: id], and on a known video while the lock cannot be
    acquired it throws [System is busy processing another video]; in both
    cases nothing changes: the video keeps its status, the lock row is
    untouched and nothing is called. *)
Theorem processVideo_refuses env cfg videoId w :
  (videos w !! videoId = None ->
   JS.isObjectIdString videoId = true ->
   ProcessingService.processVideo env cfg videoId w
   = (Throw (JS.newError ("Video not found: " +:+ videoId)), w))
  /\ (is_Some (videos w !! videoId) ->
      ~ lockAvailable w Lock.VIDEO_PROCESSING ->
      ProcessingService.processVideo env cfg videoId w
      = (Throw (JS.newError "System is busy processing another video"), w)).
Proof.
  unfold ProcessingService.processVideo. split.
  - intros Hv _. unfold bind, findById. rewrite Hv. reflexivity.
  - intros [v Hv] Hna. unfold bind at 1. unfold findById. rewrite Hv.
    unfold bind at 1. unfold getNow. unfold bind.
    unfold LockService.acquireVideoProcessingLock.
    rewrite (acquireLock_contended _ _ _ _ _ Hna). reflexivity.
Qed.

Lemma processVideo_refuses_witness :
  ProcessingService.processVideo Scenario.calmEnv defaultConfig
    "507f1f77bcf86cd799439011" Cases.heldWorld
  = (Throw (JS.newError "Video not found: 507f1f77bcf86cd799439011"),
     Cases.heldWorld)
  /\ ProcessingService.processVideo Scenario.calmEnv defaultConfig "v1"
       Cases.heldWorld
     = (Throw (JS.newError "System is busy processing another video"),
        Cases.heldWorld).
Proof.
  split.
  { apply (proj1 (processVideo_refuses Scenario.calmEnv defaultConfig
                    "507f1f77bcf86cd799439011" Cases.heldWorld));
      reflexivity. }
  refine (proj2 (processVideo_refuses Scenario.calmEnv defaultConfig "v1"
                   Cases.heldWorld) _ _).
  - vm_compute. eauto.
  - vm_compute. intros [H|(l & H & [H1|(e & H1 & H2)])]; [discriminate| |].
    + injection H as <-. discriminate.
    + injection H as <-. injection H1 as <-. discriminate.
Defined.

(** ** Restart and recovery *)






Lemma resumeLoop_lastCompleted segments :
  forall i,
    RecoveryService.resumeLoop segments i (i + 1)
    = S (RecoveryInfo.lastCompletedLoop segments i i).
Proof.
  induction segments as [|s r IH]; intros i; cbn.
  - lia.
  - destruct (Segment.status s); try lia.
    replace (i + 2) with (S i + 1) by lia.
    replace (i + 1) with (S i) by lia. apply IH.
Qed.

(** X12.  [getRecoveryInfo] changes nothing; its [lastCompletedSegment] is the
    length of the longest prefix of completed segments and is at most
    the number of segments, and [totalSegments] is the stored count.  For
    a video in status generating, [recoverVideo] resumes from
    [lastCompletedSegment + 1]. *)
Theorem getRecoveryInfo_resume_point env cfg vid v w :
  videos w !! vid = Some v ->
  exists info,
    RecoveryInfo.getRecoveryInfo vid w = (Ok info, w)
    /\ Forall (fun s => Segment.status s = SCompleted)
              (take (RecoveryInfo.lastCompletedSegment info)
                    (Video.segments v))
    /\ (forall s,
          Video.segments v !! RecoveryInfo.lastCompletedSegment info = Some s ->
          Segment.status s <> SCompleted)
    /\ RecoveryInfo.lastCompletedSegment info <= length (Video.segments v)
    /\ RecoveryInfo.totalSegments info = Video.segmentCount v
    /\ (Video.status v = VGenerating ->
        exists res w',
          RecoveryService.recoverVideo env cfg vid w = (Ok res, w')
          /\ RecoveryService.resumeFrom res
             = Some (RecoveryInfo.lastCompletedSegment info + 1)).
Proof.
  intros Hv. unfold RecoveryInfo.getRecoveryInfo, bind, findById. rewrite Hv.
  eexists. split; [reflexivity|].
  cbn [RecoveryInfo.lastCompletedSegment RecoveryInfo.totalSegments].
  destruct (resumeLoop_prefix (Video.segments v) 0)
    as (k & Hall & Hnext & Hres).
  pose proof (resumeLoop_lastCompleted (Video.segments v) 0) as Hlast.
  cbn [Nat.add] in Hres, Hlast. rewrite Hres in Hlast.
  assert (Hk : RecoveryInfo.lastCompletedLoop (Video.segments v) 0 0 = k)
    by lia.
  rewrite Hk. split; [exact Hall|]. split; [exact Hnext|].
  split.
  { destruct (decide (k <= length (Video.segments v))) as [|Hgt]; [assumption|].
    exfalso.
    assert (Hlen : length (Video.segments v) < k) by lia.
    clear -Hres Hlen.
    assert (Hb : forall l i, RecoveryService.resumeLoop l i (i + 1)
                             <= i + length l + 1).
    { induction l as [|s r IH]; intros i; cbn; [lia|].
      destruct (Segment.status s); try lia.
      replace (i + 2) with (S i + 1) by lia. specialize (IH (S i)). lia. }
    specialize (Hb (Video.segments v) 0). cbn [Nat.add] in Hb. lia. }
  split; [reflexivity|].
  intros Hs. unfold RecoveryService.recoverVideo, bind, findById.
  rewrite Hv, Hs. unfold RecoveryService.recoverFromGeneration, bind.
  rewrite findByIdAndUpdate_run. eexists _, _. split; [reflexivity|].
  cbn [RecoveryService.resumeFrom]. rewrite Hres. f_equal; lia.
Qed.

Lemma getRecoveryInfo_resume_point_witness :
  exists info,
    RecoveryInfo.getRecoveryInfo "v1" Cases.generatingWorld
    = (Ok info, Cases.generatingWorld)
    /\ RecoveryInfo.totalSegments info = 2
    /\ exists res w',
         RecoveryService.recoverVideo Scenario.calmEnv defaultConfig "v1"
           Cases.generatingWorld = (Ok res, w')
         /\ RecoveryService.resumeFrom res
            = Some (RecoveryInfo.lastCompletedSegment info + 1).
Proof.
  destruct (getRecoveryInfo_resume_point Scenario.calmEnv defaultConfig "v1"
              (Video.apply (Video.SetStatus VGenerating) Scenario.video2)
              Cases.generatingWorld)
    as (info & Hrun & _ & _ & _ & Htotal & Hres).
  - reflexivity.
  - exists info. split; [exact Hrun|]. split; [exact Htotal|].
    apply Hres. reflexivity.
Defined.

(** X13.  [recoverVideo] recovers a stored video exactly when its status is
    [generating], and then [canRecover] of [getRecoveryInfo] is true.
    [canRecover] is also true for five statuses that [recoverVideo] does
    not recover: for [failed] it refuses, and for [stitching], [audio],
    [merging] and [transcoding] it throws the [TypeError] of [path.join];
    in all five nothing changes.  When [canRecover] is false
    [recoverVideo] refuses and changes nothing. *)
Theorem canRecover_and_recoverVideo env cfg vid v w :
  videos w !! vid = Some v ->
  exists info r w',
    RecoveryInfo.getRecoveryInfo vid w = (Ok info, w)
    /\ RecoveryService.recoverVideo env cfg vid w = (r, w')
    /\ ((exists res, r = Ok res /\ RecoveryService.recovered res = true)
        <-> Video.status v = VGenerating)
    /\ (Video.status v = VGenerating -> RecoveryInfo.canRecover info = true)
    /\ (RecoveryInfo.canRecover info = true ->
        Video.status v <> VGenerating ->
        w' = w
        /\ r = if decide (Video.status v = VFailed)
               then Ok (RecoveryService.mkResult false
                          "Video not in recoverable state" None)
               else Throw StorageService.invalidArgType)
    /\ (RecoveryInfo.canRecover info = false ->
        w' = w
        /\ r = Ok (RecoveryService.mkResult false
                     "Video not in recoverable state" None)).
Proof.
  intros Hv. unfold RecoveryInfo.getRecoveryInfo, bind, findById. rewrite Hv.
  rewrite (recoverVideo_stored env cfg vid v w Hv).
  destruct (Video.status v) eqn:Hs.
  all: eexists _, _, _; split; [reflexivity|].
  all: cbn [RecoveryInfo.canRecover RecoveryInfo.recoverable].
  all: split; [reflexivity|].
  all: split;
    [split; [intros (res & Hres & Hrec);
             first [reflexivity|discriminate Hres
                   |injection Hres as <-; discriminate Hrec]
            |first [discriminate|intros _; eexists; split; reflexivity]]|].
  all: split; [first [discriminate|reflexivity]|].
  all: split; [first [discriminate
                     |intros _ Hne; first [congruence|split; reflexivity]]|].
  all: first [discriminate|intros _; split; reflexivity].
Qed.

Lemma canRecover_and_recoverVideo_witness :
  exists info res w',
    RecoveryInfo.getRecoveryInfo "v1" Cases.generatingWorld
    = (Ok info, Cases.generatingWorld)
    /\ RecoveryService.recoverVideo Scenario.calmEnv defaultConfig "v1"
         Cases.generatingWorld = (Ok res, w')
    /\ RecoveryInfo.canRecover info = true
    /\ RecoveryService.recovered res = true.
Proof.
  destruct (canRecover_and_recoverVideo Scenario.calmEnv defaultConfig "v1"
              (Video.apply (Video.SetStatus VGenerating) Scenario.video2)
              Cases.generatingWorld)
    as (info & r & w' & Hinfo & Hrun & Hrec & Hcan & _).
  - reflexivity.
  - destruct (proj2 Hrec eq_refl) as (res & -> & Hres).
    exists info, res, w'. split; [exact Hinfo|]. split; [exact Hrun|].
    split; [apply Hcan; reflexivity|exact Hres].
Defined.

(** ** The retry loop of the orchestrator *)

Lemma await_segmentOf env e dt w w1 vid n :
  await env e dt w = (Ok tt, w1) -> segmentOf w1 vid n = segmentOf w vid n.
Proof.
  intros Ha.
  destruct (await_run env e dt w) as (w1' & cs & Ha' & _ & _ & Hv & _).
  rewrite Ha in Ha'. injection Ha' as <-.
  unfold segmentOf. destruct (Hv vid) as [->|(v & -> & ->)]; done.
Qed.

Lemma updateSegment_segmentOf vid n us w :
  exists w',
    updateSegment vid n us w = (Ok tt, w')
    /\ trace w' = trace w /\ locks w' = locks w /\ now w' = now w
    /\ segmentOf w' vid n = Segment.applyAll us <$> segmentOf w vid n.
Proof.
  unfold updateSegment, segmentOf.
  destruct (videos w !! vid) as [v|] eqn:Hv.
  2:{ exists w. rewrite Hv. by repeat split. }
  pose proof (find_updateFirst n us (Video.segments v)) as Hf.
  destruct (Segment.updateFirst n us (Video.segments v)) as [l|].
  - eexists. split; [reflexivity|]. cbn [videos locks now trace].
    rewrite lookup_insert_eq. cbn [Video.apply Video.segments].
    destruct Hf as [-> _]. by repeat split.
  - exists w. rewrite Hv, Hf. by repeat split.
Qed.

Lemma sleeps_event_cancels e cs :
  Forall (fun c => isCancel c = true) cs ->
  sleeps (e :: cs) = match e with EvSleep ms => [ms] | _ => [] end.
Proof.
  intros Hc. change (e :: cs) with ([e] ++ cs).
  rewrite sleeps_app, (sleeps_cancels _ Hc), app_nil_r.
  destruct e; reflexivity.
Qed.

Section SegmentAttempts.

Variable env : Env.
Variable cfg : Config.
Variables (scenePrompt : string) (n : nat) (outputPath : string).
Variables (prev : option string) (vid : string) (duration : Z).

Lemma sleep_segmentOf ms w :
  exists w' evs,
    sleep env ms w = (Ok tt, w')
    /\ trace w' = trace w ++ evs /\ sleeps evs = [ms]
    /\ segmentOf w' vid n = segmentOf w vid n.
Proof.
  unfold sleep.
  destruct (await_run env (EvSleep ms) ms w) as (w1 & cs & Ha & Ht & Hc & _).
  exists w1, (EvSleep ms :: cs). split; [exact Ha|]. split; [exact Ht|].
  split; [apply (sleeps_event_cancels (EvSleep ms)); exact Hc|].
  apply (await_segmentOf _ _ _ _ _ _ _ Ha).
Qed.

Lemma generateAndSaveSegment_segmentOf attempt w :
  exists w' evs,
    SegmentGenerationService.generateAndSaveSegment env scenePrompt n
      outputPath prev duration attempt
      (fun jobId =>
         ProcessingService.updateSegmentStatus vid n
           [Segment.SetSoraJobId jobId]) w
    = (generated env n attempt, w')
    /\ trace w' = trace w ++ evs /\ sleeps evs = []
    /\ segmentOf w' vid n
       = match sora env n attempt with
         | Started jobId _ => Segment.applyAll [Segment.SetSoraJobId jobId]
         | StartThrows _ => fun s => s
         end <$> segmentOf w vid n.
Proof.
  unfold SegmentGenerationService.generateAndSaveSegment, external, generated.
  unfold bind at 1.
  match goal with |- context [await env ?e ?dt w] =>
    destruct (await_run env e dt w) as (w1 & cs & Ha & Ht & Hc & _);
    pose proof (await_segmentOf _ _ _ _ _ vid n Ha) as Hs;
    pose proof (sleeps_event_cancels e cs Hc) as Hsl
  end.
  rewrite Ha. cbn in Hsl.
  destruct (sora env n attempt) as [e|jobId fin].
  - eexists w1, _. split; [reflexivity|]. split; [exact Ht|].
    split; [exact Hsl|]. rewrite Hs. by destruct (segmentOf w vid n).
  - unfold bind, tryCatch, ProcessingService.updateSegmentStatus.
    destruct (updateSegment_segmentOf vid n [Segment.SetSoraJobId jobId] w1)
      as (w2 & -> & Ht2 & _ & _ & Hs2).
    exists w2. eexists. rewrite Ht2, Hs2, Hs.
    split; [by destruct fin|]. split; [exact Ht|]. split; [exact Hsl|done].
Qed.

Lemma generateSegmentAttempt_segment attempt s w :
  segmentOf w vid n = Some s ->
  exists r w' evs s',
    ProcessingService.generateSegmentAttempt env cfg scenePrompt n outputPath
      prev vid duration attempt w = (Ok r, w')
    /\ trace w' = trace w ++ evs
    /\ segmentOf w' vid n = Some s'
    /\ Segment.retryCount s' = attempt - 1
    /\ match generated env n attempt with
       | Ok g =>
           match SegmentGenerationService.status g with
           | SegmentGenerationService.Completed =>
               r = Some (ProcessingService.mkSegmentResult
                           SegmentGenerationService.Completed None)
               /\ sleeps evs = []
               /\ Segment.status s' = SCompleted
               /\ Segment.filePath s' = Some outputPath
               /\ Segment.soraJobId s'
                  = Some (SegmentGenerationService.jobId g)
           | SegmentGenerationService.Failed =>
               r = None
               /\ sleeps evs
                  = (if attempt <? ProcessingService.maxRetries cfg
                     then [5000 * Z.of_nat attempt]%Z else [])
               /\ Segment.status s' = SGenerating
           end
       | Throw e =>
           if attempt =? ProcessingService.maxRetries cfg
           then r = Some (ProcessingService.mkSegmentResult
                            SegmentGenerationService.Failed
                            (Some (JS.message e)))
                /\ sleeps evs = []
                /\ Segment.status s' = SFailed
                /\ Segment.error s' = Some (JS.message e)
           else r = None
                /\ sleeps evs = [5000 * Z.of_nat attempt]%Z
                /\ Segment.status s' = SGenerating
       end.
Proof.
  intros Hs0. unfold ProcessingService.generateSegmentAttempt.
  unfold tryCatch. unfold bind at 1. unfold getNow. unfold bind at 1.
  unfold ProcessingService.updateSegmentStatus at 1.
  match goal with |- context [updateSegment vid n ?us w] =>
    destruct (updateSegment_segmentOf vid n us w)
      as (w1 & -> & Ht1 & _ & _ & Hs1) end.
  rewrite Hs0 in Hs1. cbn [fmap option_fmap option_map] in Hs1.
  unfold bind at 1.
  destruct (generateAndSaveSegment_segmentOf attempt w1)
    as (w2 & evs2 & -> & Ht2 & Hsl2 & Hs2).
  rewrite Hs1 in Hs2. cbn [fmap option_fmap option_map] in Hs2.
  rewrite Ht1 in Ht2.
  assert (Hrc2 : exists s2, segmentOf w2 vid n = Some s2
                            /\ Segment.retryCount s2 = attempt - 1
                            /\ Segment.status s2 = SGenerating).
  { rewrite Hs2. eexists. split; [reflexivity|].
    destruct (sora env n attempt); split; reflexivity. }
  clear Hs2 Hs1. destruct Hrc2 as (s2 & Hs2 & Hrc2 & Hst2).
  destruct (generated env n attempt) as [g|e].
  - destruct (SegmentGenerationService.status g).
    + unfold bind, getNow, ProcessingService.updateSegmentStatus.
      match goal with |- context [updateSegment vid n ?us ?w0] =>
        destruct (updateSegment_segmentOf vid n us w0)
          as (w3 & -> & Ht3 & _ & _ & Hs3) end.
      rewrite Hs2 in Hs3.
      eexists _, w3, evs2, _. split; [reflexivity|].
      split; [by rewrite Ht3|].
      split; [exact Hs3|]. cbn. by rewrite Hsl2, Hrc2.
    + destruct (attempt <? ProcessingService.maxRetries cfg).
      * unfold bind.
        destruct (sleep_segmentOf (5000 * Z.of_nat attempt) w2)
          as (w3 & evs3 & -> & Ht3 & Hsl3 & Hs3).
        eexists _, w3, (evs2 ++ evs3), s2. split; [reflexivity|].
        split; [by rewrite Ht3, Ht2, <- app_assoc|].
        split; [by rewrite Hs3|]. split; [exact Hrc2|].
        by rewrite sleeps_app, Hsl2, Hsl3.
      * eexists _, w2, evs2, s2. split; [reflexivity|].
        split; [exact Ht2|]. by rewrite Hsl2.
  - destruct (attempt =? ProcessingService.maxRetries cfg).
    + unfold bind. unfold ProcessingService.updateSegmentStatus.
      match goal with |- context [updateSegment vid n ?us ?w0] =>
        destruct (updateSegment_segmentOf vid n us w0)
          as (w3 & -> & Ht3 & _ & _ & Hs3) end.
      rewrite Hs2 in Hs3.
      eexists _, w3, evs2, _. split; [reflexivity|].
      split; [by rewrite Ht3|]. split; [exact Hs3|]. cbn.
      by rewrite Hsl2, Hrc2.
    + unfold bind.
      destruct (sleep_segmentOf (5000 * Z.of_nat attempt) w2)
        as (w3 & evs3 & -> & Ht3 & Hsl3 & Hs3).
      eexists _, w3, (evs2 ++ evs3), s2. split; [reflexivity|].
      split; [by rewrite Ht3, Ht2, <- app_assoc|].
      split; [by rewrite Hs3|]. split; [exact Hrc2|].
      by rewrite sleeps_app, Hsl2, Hsl3.
Qed.

End SegmentAttempts.

Lemma endingAttempt_ge env n remaining :
  forall attempt,
    0 < remaining ->
    attempt <= endingAttempt env n remaining attempt < attempt + remaining.
Proof.
  induction remaining as [|r IH]; intros attempt Hr; [lia|].
  cbn [endingAttempt]. destruct (soraCompletes env n attempt); [lia|].
  destruct r as [|r']; [lia|]. specialize (IH (S attempt)). lia.
Qed.

Lemma generateSegmentAttempts_segment env cfg scenePrompt n outputPath prev
    vid duration remaining :
  forall attempt s w,
    0 < remaining ->
    attempt + remaining = S (ProcessingService.maxRetries cfg) ->
    segmentOf w vid n = Some s ->
    let a := endingAttempt env n remaining attempt in
    exists res w' evs s',
      ProcessingService.generateSegmentAttempts env cfg scenePrompt n
        outputPath prev vid duration remaining attempt w = (Ok res, w')
      /\ trace w' = trace w ++ evs
      /\ sleeps evs
         = List.map (fun j => (5000 * Z.of_nat j)%Z) (seq attempt (a - attempt))
      /\ segmentOf w' vid n = Some s'
      /\ Segment.retryCount s' = a - 1
      /\ match generated env n a with
         | Ok g =>
             match SegmentGenerationService.status g with
             | SegmentGenerationService.Completed =>
                 res = ProcessingService.mkSegmentResult
                         SegmentGenerationService.Completed None
                 /\ Segment.status s' = SCompleted
                 /\ Segment.filePath s' = Some outputPath
                 /\ Segment.soraJobId s'
                    = Some (SegmentGenerationService.jobId g)
             | SegmentGenerationService.Failed =>
                 res = ProcessingService.mkSegmentResult
                         SegmentGenerationService.Failed
                         (Some "Max retries exceeded")
                 /\ Segment.status s' = SGenerating
             end
         | Throw e =>
             res = ProcessingService.mkSegmentResult
                     SegmentGenerationService.Failed (Some (JS.message e))
             /\ Segment.status s' = SFailed
             /\ Segment.error s' = Some (JS.message e)
         end.
Proof.
  induction remaining as [|r IH]; intros attempt s w Hr Hsum Hs; [lia|].
  cbn zeta. cbn [ProcessingService.generateSegmentAttempts endingAttempt].
  destruct (generateSegmentAttempt_segment env cfg scenePrompt n outputPath
              prev vid duration attempt s w Hs)
    as (r1 & w1 & evs1 & s1 & Hrun & Ht1 & Hs1 & Hrc1 & Hcase).
  unfold bind at 1. rewrite Hrun.
  destruct (soraCompletes env n attempt) eqn:Hsc.
  - destruct (soraCompletes_generated env n attempt Hsc) as (jobId & Hg).
    rewrite Hg in Hcase |- *. cbn in Hcase |- *.
    destruct Hcase as (-> & Hsl & Hst & Hfp & Hjob).
    exists (ProcessingService.mkSegmentResult
              SegmentGenerationService.Completed None), w1, evs1, s1.
    replace (attempt - attempt) with 0 by lia.
    by repeat split.
  - destruct (not_soraCompletes_generated env n attempt Hsc)
      as [(e & Hg)|(g & Hg & Hgs)].
    + rewrite Hg in Hcase. destruct r as [|r'].
      * assert (Hlast : attempt = ProcessingService.maxRetries cfg) by lia.
        rewrite Hlast, Nat.eqb_refl in Hcase.
        destruct Hcase as (-> & Hsl & Hst & Herr).
        eexists _, w1, evs1, s1. rewrite Hg.
        replace (attempt - attempt) with 0 by lia.
        split; [reflexivity|]. by repeat split.
      * assert (Hne : (attempt =? ProcessingService.maxRetries cfg) = false)
          by (apply Nat.eqb_neq; lia).
        rewrite Hne in Hcase. destruct Hcase as (-> & Hsl & Hst).
        destruct (IH (S attempt) s1 w1 ltac:(lia) ltac:(lia) Hs1)
          as (res & w' & evs & s' & Hrun' & Ht' & Hsl' & Hs' & Hrc' & Hcase').
        cbn zeta in *.
        pose proof (endingAttempt_ge env n (S r') (S attempt) ltac:(lia))
          as Hge.
        exists res, w', (evs1 ++ evs), s'. split; [exact Hrun'|].
        split; [by rewrite Ht', Ht1, <- app_assoc|].
        split.
        { rewrite sleeps_app, Hsl, Hsl'.
          replace (endingAttempt env n (S r') (S attempt) - attempt)
            with (S (endingAttempt env n (S r') (S attempt) - S attempt))
            by lia.
          reflexivity. }
        by repeat split.
    + rewrite Hg, Hgs in Hcase. destruct Hcase as (-> & Hsl & Hst).
      destruct r as [|r'].
      * assert (Hlast : attempt = ProcessingService.maxRetries cfg) by lia.
        replace (attempt <? ProcessingService.maxRetries cfg) with false
          in Hsl by (symmetry; apply Nat.ltb_ge; lia).
        cbn [ProcessingService.generateSegmentAttempts].
        eexists _, w1, evs1, s1. rewrite Hg, Hgs.
        replace (attempt - attempt) with 0 by lia.
        split; [reflexivity|]. by repeat split.
      * replace (attempt <? ProcessingService.maxRetries cfg) with true
          in Hsl by (symmetry; apply Nat.ltb_lt; lia).
        destruct (IH (S attempt) s1 w1 ltac:(lia) ltac:(lia) Hs1)
          as (res & w' & evs & s' & Hrun' & Ht' & Hsl' & Hs' & Hrc' & Hcase').
        cbn zeta in *.
        pose proof (endingAttempt_ge env n (S r') (S attempt) ltac:(lia))
          as Hge.
        exists res, w', (evs1 ++ evs), s'. split; [exact Hrun'|].
        split; [by rewrite Ht', Ht1, <- app_assoc|].
        split.
        { rewrite sleeps_app, Hsl, Hsl'.
          replace (endingAttempt env n (S r') (S attempt) - attempt)
            with (S (endingAttempt env n (S r') (S attempt) - S attempt))
            by lia.
          reflexivity. }
        by repeat split.
Qed.

(** X14.  [generateSegmentWithRetry] on an existing segment, with at least one
    attempt allowed, never throws.  Its loop ends at the first attempt
    [a] that completes, or else at the last one; it sleeps [5000 * j]
    after each earlier attempt [j], and leaves [retryCount = a - 1].
    When attempt [a] completes, the result is completed and the segment
    is completed with the output path and the job id.  When the provider
    answers failed, the result is failed with [Max retries exceeded] and
    the segment stays generating.  When attempt [a] throws, the result
    is failed with the message of the error and the segment is failed
    with that message. *)
Theorem generateSegmentWithRetry_segment env cfg scenePrompt n outputPath prev
    vid duration s w :
  segmentOf w vid n = Some s ->
  0 < cfg_maxRetries cfg ->
  let a := endingAttempt env n (cfg_maxRetries cfg) 1 in
  exists res w' s',
    ProcessingService.generateSegmentWithRetry env cfg scenePrompt n
      outputPath prev vid duration w = (Ok res, w')
    /\ sleeps (newEvents w w')
       = List.map (fun j => (5000 * Z.of_nat j)%Z) (seq 1 (a - 1))
    /\ segmentOf w' vid n = Some s'
    /\ Segment.retryCount s' = a - 1
    /\ match generated env n a with
       | Ok g =>
           match SegmentGenerationService.status g with
           | SegmentGenerationService.Completed =>
               res = ProcessingService.mkSegmentResult
                       SegmentGenerationService.Completed None
               /\ Segment.status s' = SCompleted
               /\ Segment.filePath s' = Some outputPath
               /\ Segment.soraJobId s'
                  = Some (SegmentGenerationService.jobId g)
           | SegmentGenerationService.Failed =>
               res = ProcessingService.mkSegmentResult
                       SegmentGenerationService.Failed
                       (Some "Max retries exceeded")
               /\ Segment.status s' = SGenerating
           end
       | Throw e =>
           res = ProcessingService.mkSegmentResult
                   SegmentGenerationService.Failed (Some (JS.message e))
           /\ Segment.status s' = SFailed
           /\ Segment.error s' = Some (JS.message e)
       end.
Proof.
  intros Hs Hmax. cbn zeta. unfold ProcessingService.generateSegmentWithRetry.
  destruct (generateSegmentAttempts_segment env cfg scenePrompt n outputPath
              prev vid duration (ProcessingService.maxRetries cfg) 1 s w
              Hmax ltac:(lia) Hs)
    as (res & w' & evs & s' & Hrun & Ht & Hsl & Hs' & Hrc & Hcase).
  exists res, w', s'. split; [exact Hrun|].
  rewrite (newEvents_app _ _ _ Ht). by repeat split.
Qed.

Lemma generateSegmentWithRetry_segment_witness :
  exists res w' s',
    ProcessingService.generateSegmentWithRetry Cases.flakyEnv defaultConfig
      "scene 1" 1 "segment_001.mp4" None "v1" 12 Scenario.world2
    = (Ok res, w')
    /\ sleeps (newEvents Scenario.world2 w') = [5000%Z]
    /\ segmentOf w' "v1" 1 = Some s'
    /\ Segment.retryCount s' = 1
    /\ res = ProcessingService.mkSegmentResult
               SegmentGenerationService.Completed None
    /\ Segment.status s' = SCompleted
    /\ Segment.filePath s' = Some "segment_001.mp4".
Proof.
  assert (Hmax : 0 < cfg_maxRetries defaultConfig) by (simpl; lia).
  destruct (generateSegmentWithRetry_segment Cases.flakyEnv defaultConfig
              "scene 1" 1 "segment_001.mp4" None "v1" 12 (Segment.fresh 1)
              Scenario.world2 eq_refl Hmax)
    as (res & w' & s' & Hrun & Hsl & Hs & Hrc & Hcase).
  simpl in Hcase, Hsl, Hrc. destruct Hcase as (Hres & Hst & Hfp & _).
  exists res, w', s'. repeat split; assumption.
Defined.

(** ** The outcome of the retry service *)

Section WithRetryOutcome.

Context {T : Type} (env : Env) (c : RetryService.RetryConfig).
Variable fn : nat -> Res T.
Variable o : RetryService.Options.

Lemma whenSegment_segmentOf (k : string -> nat -> M unit)
    (f : Segment.t -> Segment.t) w :
  (forall v n w0, exists w1,
      k v n w0 = (Ok tt, w1) /\ trace w1 = trace w0
      /\ segmentOf w1 v n = f <$> segmentOf w0 v n) ->
  exists w',
    RetryService.whenSegment o k w = (Ok tt, w')
    /\ trace w' = trace w
    /\ (forall v n, RetryService.videoId o = Some v -> v <> "" ->
                    RetryService.segmentNumber o = Some n ->
                    segmentOf w' v n = f <$> segmentOf w v n).
Proof.
  intros Hk. unfold RetryService.whenSegment.
  destruct (RetryService.videoId o) as [v|]; [|by exists w].
  destruct (RetryService.segmentNumber o) as [n|]; [|by exists w].
  unfold JS.truthy. destruct (String.eqb_spec v "") as [->|Hne]; cbn [negb].
  { exists w. split; [done|]. split; [done|]. by intros ? ? [= <-]. }
  destruct (Hk v n w) as (w' & -> & Ht & Hs).
  exists w'. split; [done|]. split; [done|].
  by intros ? ? [= <-] _ [= <-].
Qed.

Lemma markSegmentFailed_segmentOf msg v n w0 :
  exists w1,
    RetryService.markSegmentFailed v n msg w0 = (Ok tt, w1)
    /\ trace w1 = trace w0
    /\ segmentOf w1 v n
       = Segment.applyAll [Segment.SetStatus SFailed;
                           Segment.SetError (Some msg)]
         <$> segmentOf w0 v n.
Proof.
  unfold RetryService.markSegmentFailed.
  destruct (updateSegment_segmentOf v n
              [Segment.SetStatus SFailed; Segment.SetError (Some msg)] w0)
    as (w1 & -> & Ht & _ & _ & Hs).
  by exists w1.
Qed.

Lemma incrementRetryCount_segmentOf v n w0 :
  exists w1,
    RetryService.incrementRetryCount v n w0 = (Ok tt, w1)
    /\ trace w1 = trace w0
    /\ segmentOf w1 v n
       = Segment.applyAll [Segment.IncRetryCount 1] <$> segmentOf w0 v n.
Proof.
  unfold RetryService.incrementRetryCount.
  destruct (updateSegment_segmentOf v n [Segment.IncRetryCount 1] w0)
    as (w1 & -> & Ht & _ & _ & Hs).
  by exists w1.
Qed.

(** The state of the segment named by the options, as to its status and
    error, after [withRetryFrom]. *)
Lemma withRetryFrom_outcome remaining :
  forall attempt lastError w,
    0 < remaining ->
    attempt + remaining = S (RetryService.maxRetries c) ->
    let k := retriesFrom c fn remaining attempt in
    exists w',
      RetryService.withRetryFrom env c fn o remaining attempt lastError w
      = (fn (attempt + k), w')
      /\ attempt + k <= RetryService.maxRetries c
      /\ (forall v n s,
            RetryService.videoId o = Some v -> v <> "" ->
            RetryService.segmentNumber o = Some n ->
            segmentOf w v n = Some s ->
            exists s',
              segmentOf w' v n = Some s'
              /\ Segment.retryCount s' = Segment.retryCount s + k
              /\ match fn (attempt + k) with
                 | Ok _ =>
                     Segment.status s' = Segment.status s
                     /\ Segment.error s' = Segment.error s
                 | Throw e =>
                     Segment.status s' = SFailed
                     /\ Segment.error s' = Some (JS.message e)
                 end).
Proof.
  induction remaining as [|remaining IH]; intros attempt lastError w Hr Hsum;
    [lia|].
  cbn zeta. cbn [RetryService.withRetryFrom retriesFrom].
  unfold tryCatch, external, bind.
  set (e := EvOperation (RetryService.operation o) attempt).
  destruct (await_run env e (elapsed env e) w) as (w1 & cs1 & Ha & _).
  assert (Hs1 : forall v n, segmentOf w1 v n = segmentOf w v n).
  { intros v n. by apply (await_segmentOf env e (elapsed env e)). }
  rewrite Ha. unfold liftRes.
  destruct (fn attempt) as [a|error] eqn:Hfn.
  { exists w1. rewrite Nat.add_0_r, Hfn. split; [done|]. split; [lia|].
    intros v n s _ _ _ Hs. exists s. rewrite Hs1. split; [done|].
    split; [lia|done]. }
  assert (Hfail : exists w2,
    (RetryService.whenSegment o
       (fun v n => RetryService.markSegmentFailed v n (JS.message error));;
     @throw T error) w1 = (Throw error, w2)
    /\ forall v n s,
         RetryService.videoId o = Some v -> v <> "" ->
         RetryService.segmentNumber o = Some n ->
         segmentOf w v n = Some s ->
         exists s', segmentOf w2 v n = Some s'
                    /\ Segment.retryCount s' = Segment.retryCount s + 0
                    /\ Segment.status s' = SFailed
                    /\ Segment.error s' = Some (JS.message error)).
  { destruct (whenSegment_segmentOf
                (fun v n => RetryService.markSegmentFailed v n
                              (JS.message error))
                (Segment.applyAll [Segment.SetStatus SFailed;
                                   Segment.SetError (Some (JS.message error))])
                w1 (markSegmentFailed_segmentOf (JS.message error)))
      as (w2 & Hw & _ & Hs2).
    exists w2. unfold bind. rewrite Hw. split; [done|].
    intros v n s Hv Hne Hn Hs. rewrite (Hs2 v n Hv Hne Hn), Hs1, Hs.
    eexists. split; [done|]. cbn. split; [lia|done]. }
  unfold bind in Hfail.
  destruct (RetryService.isRetryableError error) eqn:Hre; cbn [negb orb andb].
  2:{ destruct Hfail as (w2 & -> & Hs2). exists w2.
      rewrite Nat.add_0_r, Hfn. split; [done|]. split; [lia|]. exact Hs2. }
  destruct (attempt =? RetryService.maxRetries c) eqn:Hlast; cbn [negb].
  { destruct Hfail as (w2 & -> & Hs2). exists w2.
    rewrite Nat.add_0_r, Hfn. split; [done|]. split; [lia|]. exact Hs2. }
  apply Nat.eqb_neq in Hlast. clear Hfail.
  destruct (whenSegment_segmentOf RetryService.incrementRetryCount
              (Segment.applyAll [Segment.IncRetryCount 1]) w1
              incrementRetryCount_segmentOf)
    as (w2 & -> & _ & Hs2).
  unfold sleep.
  set (d := RetryService.backoff c attempt).
  destruct (await_run env (EvSleep d) d w2) as (w3 & cs3 & Hsl & _).
  assert (Hs3 : forall v n, segmentOf w3 v n = segmentOf w2 v n).
  { intros v n. by apply (await_segmentOf env (EvSleep d) d). }
  rewrite Hsl.
  destruct (IH (S attempt) (Some error) w3 ltac:(lia) ltac:(lia))
    as (w' & Hrun & Hle & Hseg).
  cbn zeta in *.
  replace (attempt + S (retriesFrom c fn remaining (S attempt)))
    with (S attempt + retriesFrom c fn remaining (S attempt)) by lia.
  exists w'. split; [exact Hrun|]. split; [exact Hle|].
  intros v n s Hv Hne Hn Hs.
  destruct (Hseg v n (Segment.applyAll [Segment.IncRetryCount 1] s)
              Hv Hne Hn) as (s' & Hs' & Hrc & Hcase).
  { by rewrite Hs3, (Hs2 v n Hv Hne Hn), Hs1, Hs. }
  exists s'. split; [exact Hs'|]. split; [|exact Hcase].
  rewrite Hrc. cbn. lia.
Qed.

End WithRetryOutcome.



(** X16.  [retryFailedSegment] throws [Video not found], [Segment not found] or
    [Segment n has exceeded max retry attempts] without changing
    anything when the id is a well-formed ObjectId that names no video,
    the segment is unknown, or its [retryCount] has reached [maxRetries].
    Otherwise it returns what the generator answers at attempt [k + 1]
    after [k] retries, with [retryCount] raised by [k]: on success the
    segment is left generating with no error, on failure it is failed
    with the message of the error. *)
Theorem retryFailedSegment_guards env c videoId n generateFn w :
  (videos w !! videoId = None ->
   JS.isObjectIdString videoId = true ->
   RetryService.retryFailedSegment env c videoId n generateFn w
   = (Throw (JS.newError "Video not found"), w))
  /\ (is_Some (videos w !! videoId) -> segmentOf w videoId n = None ->
      RetryService.retryFailedSegment env c videoId n generateFn w
      = (Throw (JS.newError "Segment not found"), w))
  /\ (forall s,
        segmentOf w videoId n = Some s ->
        RetryService.maxRetries c <= Segment.retryCount s ->
        RetryService.retryFailedSegment env c videoId n generateFn w
        = (Throw (JS.newError ("Segment " +:+ JS.ofNat n
                               +:+ " has exceeded max retry attempts")), w))
  /\ (forall s,
        segmentOf w videoId n = Some s ->
        Segment.retryCount s < RetryService.maxRetries c ->
        videoId <> "" ->
        let k := retriesFrom c generateFn (RetryService.maxRetries c) 1 in
        exists w' s',
          RetryService.retryFailedSegment env c videoId n generateFn w
          = (generateFn (k + 1), w')
          /\ segmentOf w' videoId n = Some s'
          /\ Segment.retryCount s' = Segment.retryCount s + k
          /\ match generateFn (k + 1) with
             | Ok _ => Segment.status s' = SGenerating
                       /\ Segment.error s' = None
             | Throw e => Segment.status s' = SFailed
                          /\ Segment.error s' = Some (JS.message e)
             end).
Proof.
  unfold RetryService.retryFailedSegment, segmentOf, bind, findById.
  destruct (videos w !! videoId) as [v|] eqn:Hv.
  2:{ split; [done|]. split; [by intros [? [=]]|]. split; by intros. }
  split; [done|]. split; [by intros _ ->|].
  split.
  - intros s -> Hle.
    replace (RetryService.maxRetries c <=? Segment.retryCount s) with true
      by (symmetry; apply Nat.leb_le; exact Hle).
    reflexivity.
  - intros s Hs Hlt Hne. rewrite Hs.
    replace (RetryService.maxRetries c <=? Segment.retryCount s) with false
      by (symmetry; apply Nat.leb_gt; exact Hlt).
    match goal with |- context [updateSegment videoId n ?us w] =>
      destruct (updateSegment_segmentOf videoId n us w)
        as (w1 & -> & _ & _ & _ & Hs1) end.
    assert (Hseg : segmentOf w videoId n = Some s)
      by (unfold segmentOf; rewrite Hv; exact Hs).
    rewrite Hseg in Hs1. cbn [fmap option_fmap option_map] in Hs1.
    unfold RetryService.withRetry.
    match goal with
    | |- context [RetryService.withRetryFrom env c generateFn ?o _ 1 None w1] =>
        destruct (withRetryFrom_outcome env c generateFn o
                    (RetryService.maxRetries c) 1 None w1
                    ltac:(lia) ltac:(lia)) as (w' & Hrun & _ & Hout)
    end.
    cbn zeta in *. rewrite Hrun.
    destruct (Hout videoId n _ eq_refl Hne eq_refl Hs1)
      as (s' & Hs' & Hrc & Hcase).
    replace (retriesFrom c generateFn (RetryService.maxRetries c) 1 + 1)
      with (1 + retriesFrom c generateFn (RetryService.maxRetries c) 1)
      by lia.
    exists w', s'. split; [reflexivity|].
    split; [exact Hs'|]. split; [exact Hrc|].
    destruct (generateFn _); exact Hcase.
Qed.

Lemma retryFailedSegment_guards_witness :
  RetryService.retryFailedSegment Scenario.calmEnv
    RetryService.DEFAULT_RETRY_CONFIG "507f1f77bcf86cd799439011" 1
    Cases.alwaysTimeout Scenario.world2
  = (Throw (JS.newError "Video not found"), Scenario.world2)
  /\ exists w' s',
       RetryService.retryFailedSegment Scenario.calmEnv
         RetryService.DEFAULT_RETRY_CONFIG "v1" 1 Cases.alwaysTimeout
         Scenario.world2
       = (Throw (JS.newError "API timeout"), w')
       /\ segmentOf w' "v1" 1 = Some s'
       /\ Segment.retryCount s' = 2
       /\ Segment.status s' = SFailed
       /\ Segment.error s' = Some "API timeout".
Proof.
  split.
  { apply (proj1 (retryFailedSegment_guards Scenario.calmEnv
                    RetryService.DEFAULT_RETRY_CONFIG
                    "507f1f77bcf86cd799439011" 1 Cases.alwaysTimeout
                    Scenario.world2)); reflexivity. }
  assert (Hlt : Segment.retryCount (Segment.fresh 1)
                < RetryService.maxRetries RetryService.DEFAULT_RETRY_CONFIG)
    by (simpl; lia).
  assert (Hne : "v1" <> "") by discriminate.
  destruct (proj2 (proj2 (proj2
              (retryFailedSegment_guards Scenario.calmEnv
                 RetryService.DEFAULT_RETRY_CONFIG "v1" 1 Cases.alwaysTimeout
                 Scenario.world2))) (Segment.fresh 1) eq_refl Hlt Hne)
    as (w' & s' & Hrun & Hs' & Hrc & Hst & Herr).
  exists w', s'. auto.
Defined.

(** ** A run in which everything works *)



Section HappyPath.

#[local] Existing Instance Quiet_preorder.

Variable env : Env.
Variable cfg : Config.
Variable vid : string.


Hypothesis noCancel : forall e, cancelDuring env e = None.
Hypothesis noFailure : forall e, fails env e = None.










End HappyPath.



(** ** Progress and the fallback scenes *)

(** X18.  The progress reported while segment [i + 1] of [total] is generated
    lies between 5 and 70 and does not decrease from one segment to the
    next. *)
Theorem segmentProgress_range total :
  (forall i, i < total ->
     (5 <= ProcessingService.segmentProgress i total <= 70)%Z)
  /\ (forall i j, i <= j -> 0 < total ->
        (ProcessingService.segmentProgress i total
         <= ProcessingService.segmentProgress j total)%Z).
Proof.
  unfold ProcessingService.segmentProgress. split.
  - intros i Hi. split.
    + apply Z.div_le_lower_bound; lia.
    + apply Z.lt_succ_r. apply Z.div_lt_upper_bound; lia.
  - intros i j Hij Ht. apply Z.div_le_mono; lia.
Qed.

Lemma segmentProgress_range_witness :
  (5 <= ProcessingService.segmentProgress 9 10 <= 70)%Z.
Proof. apply (proj1 (segmentProgress_range 10) 9). lia. Defined.

Lemma fallback_lookup cfg prompt d i s :
  SceneDecompositionService.scenes
    (SceneDecompositionService.generateFallbackScenes cfg prompt d) !! i
  = Some s ->
  i < SceneDecompositionService.segmentCountOf cfg d
  /\ s = SceneDecompositionService.fallbackScene prompt
           (SceneDecompositionService.segmentDurationOf cfg d)
           (SceneDecompositionService.segmentCountOf cfg d) i.
Proof.
  unfold SceneDecompositionService.generateFallbackScenes. cbn.
  intros Hs. change (List.map ?f ?l) with (f <$> l) in Hs.
  rewrite list_lookup_fmap in Hs.
  destruct (seq 0 _ !! i) as [k|] eqn:Hk; [|discriminate].
  apply lookup_seq in Hk as [-> Hlt]. cbn in Hs. injection Hs as <-.
  split; [exact Hlt|reflexivity].
Qed.

(** X19.  For positive durations the fallback decomposition is not empty; its
    scenes are numbered from 1, scene [i + 1] spans from [i] to [i + 1]
    segment durations, the last scene starts before the target duration
    and ends at or after it, and no scene carries a narration text, so a
    run on fallback scenes takes its script from the narration writer. *)
Theorem generateFallbackScenes_timeline cfg prompt d :
  (0 < cfg_segment cfg)%Z -> (0 < d)%Z ->
  let result := SceneDecompositionService.generateFallbackScenes cfg prompt d in
  let scenes := SceneDecompositionService.scenes result in
  let sd := SceneDecompositionService.segmentDurationOf cfg d in
  scenes <> []
  /\ (forall i s, scenes !! i = Some s ->
        Scene.sceneNumber s = i + 1
        /\ Scene.startTime s = (Z.of_nat i * sd)%Z
        /\ Scene.endTime s = (Z.of_nat i * sd + sd)%Z
        /\ Scene.narrationText s = None)
  /\ (forall s, last scenes = Some s ->
        (Scene.startTime s < d <= Scene.endTime s)%Z)
  /\ ProcessingService.hasUserNarration scenes = false.
Proof.
  intros Hseg Hd. cbv zeta.
  set (sd := SceneDecompositionService.segmentDurationOf cfg d).
  set (n := SceneDecompositionService.segmentCountOf cfg d).
  assert (Hsd : (0 < sd)%Z).
  { unfold sd, SceneDecompositionService.segmentDurationOf.
    destruct (d =? 5)%Z; lia. }
  assert (Hbounds : (sd * (Z.of_nat n - 1) < d <= sd * Z.of_nat n)%Z).
  { pose proof (ceilDiv_bounds d sd Hsd) as Hb.
    unfold n, SceneDecompositionService.segmentCountOf. fold sd.
    rewrite Z2Nat.id; [exact Hb|]. nia. }
  assert (Hn : 0 < n) by nia.
  assert (Hlen : length (SceneDecompositionService.scenes
                           (SceneDecompositionService.generateFallbackScenes
                              cfg prompt d)) = n).
  { cbn. by rewrite length_map, length_seq. }
  split; [|split; [|split]].
  - intros Hnil. rewrite Hnil in Hlen. cbn in Hlen. lia.
  - intros i s Hs. apply fallback_lookup in Hs as [_ ->]. cbn.
    repeat split; lia.
  - intros s Hs. rewrite last_lookup, Hlen in Hs.
    apply fallback_lookup in Hs as [_ ->]. cbn. fold sd n. nia.
  - unfold ProcessingService.hasUserNarration.
    apply not_true_is_false. intros Hex. apply existsb_exists in Hex.
    destruct Hex as (s & Hin & Hnar). apply list_elem_of_In in Hin.
    apply list_elem_of_lookup in Hin as (i & Hi).
    apply fallback_lookup in Hi as [_ ->]. discriminate.
Qed.

Lemma generateFallbackScenes_timeline_witness :
  ProcessingService.hasUserNarration
    (SceneDecompositionService.scenes
       (SceneDecompositionService.generateFallbackScenes defaultConfig
          "A majestic eagle soaring" 30)) = false.
Proof.
  assert (H1 : (0 < cfg_segment defaultConfig)%Z) by (simpl; lia).
  assert (H2 : (0 < 30)%Z) by lia.
  exact (proj2 (proj2 (proj2 (generateFallbackScenes_timeline defaultConfig
                                "A majestic eagle soaring" 30 H1 H2)))).
Defined.

(** ** Storage paths *)

Lemma append_cons c s t : String c s +:+ t = String c (s +:+ t).
Proof. reflexivity. Qed.

Lemma append_length s t :
  String.length (s +:+ t) = String.length s + String.length t.
Proof.
  induction s as [|c s IH]; [reflexivity|].
  rewrite append_cons. cbn. by rewrite IH.
Qed.

Lemma append_inj_length s s' t t' :
  String.length s = String.length s' ->
  s +:+ t = s' +:+ t' -> s = s' /\ t = t'.
Proof.
  revert s'. induction s as [|c s IH]; intros [|c' s'] Hlen Heq;
    try discriminate.
  - done.
  - rewrite !append_cons in Heq. injection Heq as -> Heq.
    cbn in Hlen. destruct (IH s' ltac:(lia) Heq) as [-> ->]. done.
Qed.

Lemma append_inj_r s s' t : s +:+ t = s' +:+ t -> s = s'.
Proof.
  intros Heq. apply (append_inj_length s s' t t); [|exact Heq].
  apply (f_equal String.length) in Heq. rewrite !append_length in Heq. lia.
Qed.

(** A positive number is printed without a leading zero. *)
Lemma pretty_N_go_leading x :
  forall s, (0 < x)%N ->
    exists c r, pretty_N_go x s = String c r /\ c <> "0"%char.
Proof.
  induction (N.lt_wf_0 x) as [x _ IH]; intros s Hx.
  rewrite pretty_N_go_step by done.
  assert (0 < x < 10 \/ 10 <= x)%N as [Hs|Hl] by lia.
  - replace (x `div` 10)%N with 0%N by (symmetry; apply N.div_small; lia).
    rewrite pretty_N_go_0. eexists _, _. split; [reflexivity|].
    replace (x `mod` 10)%N with x by (symmetry; apply N.mod_small; lia).
    assert (Hx9 : (x = 1 \/ x = 2 \/ x = 3 \/ x = 4 \/ x = 5 \/ x = 6
                   \/ x = 7 \/ x = 8 \/ x = 9)%N) by lia.
    repeat (destruct Hx9 as [->|Hx9]; [discriminate|]).
    subst x. discriminate.
  - apply IH.
    + apply N.div_lt; lia.
    + apply N.div_str_pos. lia.
Qed.

Lemma ofNat_leading n :
  2 <= String.length (JS.ofNat n) ->
  exists c r, JS.ofNat n = String c r /\ c <> "0"%char.
Proof.
  assert (Hp : JS.ofNat n
               = if decide (N.of_nat n = 0%N) then "0"
                 else pretty_N_go (N.of_nat n) "") by reflexivity.
  rewrite Hp. destruct (decide (N.of_nat n = 0%N)) as [_|Hne].
  - cbn. lia.
  - intros _. apply pretty_N_go_leading. lia.
Qed.

Lemma padStart3_inj n m : JS.padStart3 n = JS.padStart3 m -> n = m.
Proof.
  intros Heq. apply (inj pretty). change (JS.ofNat n = JS.ofNat m).
  revert Heq. unfold JS.padStart3.
  pose proof (ofNat_leading n) as Hn. pose proof (ofNat_leading m) as Hm.
  destruct (String.length (JS.ofNat n)) as [|[|[|ln]]] eqn:Hln;
    destruct (String.length (JS.ofNat m)) as [|[|[|lm]]] eqn:Hlm;
    try done.
  all: try (destruct (Hn ltac:(lia)) as (c & r & Hs & Hc)).
  all: try (destruct (Hm ltac:(lia)) as (c' & r' & Hs' & Hc')).
  all: rewrite ?Hs, ?Hs'; rewrite ?append_cons; cbn; intros Heq;
    try (by injection Heq as ->).
  all: try (injection Heq as Heq; by apply String.app_inj in Heq).
  all: try (injection Heq as ? Heq'; congruence).
  all: try (injection Heq as ?; congruence).
  all: apply (f_equal String.length) in Heq;
    cbn in Heq; rewrite ?append_length in Heq; cbn in Heq;
    rewrite ?Hln, ?Hlm in Heq; lia.
Qed.

Lemma stripPrefix_append p r :
  StorageService.stripPrefix p (p +:+ "/" +:+ r) = r.
Proof.
  induction p as [|c p IH]; [reflexivity|].
  rewrite append_cons. cbn [StorageService.stripPrefix].
  by rewrite Ascii.eqb_refl.
Qed.

Lemma pathJoin_cons a b l :
  StorageService.pathJoin (a :: b :: l)
  = a +:+ "/" +:+ StorageService.pathJoin (b :: l).
Proof. reflexivity. Qed.

Lemma append_assoc_str (a b c : string) : (a +:+ b) +:+ c = a +:+ (b +:+ c).
Proof.
  induction a as [|x a IH]; [reflexivity|].
  rewrite !append_cons. by rewrite IH.
Qed.

(** X20.  The path of a segment lies in the segments directory of
    [getVideoPaths]; different segment numbers give different paths; the
    public URL of a segment or of the final video is the base URL
    followed by [/uploads/] and the path below the upload directory. *)
Theorem storage_paths cfg userId videoId :
  let paths := StorageService.getVideoPaths cfg userId videoId in
  let file := fun n => "segment_" +:+ JS.padStart3 n +:+ ".mp4" in
  (forall n,
     StorageService.getSegmentPath cfg userId videoId n
     = StorageService.pathJoin [StorageService.segmentsDir paths; file n])
  /\ (forall n m,
        StorageService.getSegmentPath cfg userId videoId n
        = StorageService.getSegmentPath cfg userId videoId m ->
        n = m)
  /\ (forall n,
        StorageService.getPublicUrl cfg
          (StorageService.getSegmentPath cfg userId videoId n)
        = "http://localhost:" +:+ JS.ofNat (cfg_port cfg) +:+ "/uploads/"
          +:+ StorageService.pathJoin
                ["videos"; userId; videoId; "segments"; file n])
  /\ StorageService.getPublicUrl cfg (StorageService.final720p paths)
     = "http://localhost:" +:+ JS.ofNat (cfg_port cfg) +:+ "/uploads/"
       +:+ StorageService.pathJoin
             ["videos"; userId; videoId; "final_720p.mp4"].
Proof.
  cbv zeta. unfold StorageService.getSegmentPath, StorageService.getVideoPaths.
  cbn [StorageService.segmentsDir StorageService.final720p].
  split; [|split; [|split]].
  - intros n. rewrite !pathJoin_cons.
    unfold StorageService.pathJoin, JS.join. cbn [String.concat].
    by rewrite !append_assoc_str.
  - intros n m. rewrite !pathJoin_cons. intros Heq.
    repeat apply String.app_inj in Heq. apply append_inj_r in Heq.
    by apply padStart3_inj.
  - intros n. unfold StorageService.getPublicUrl.
    rewrite (pathJoin_cons (cfg_uploadDir cfg)), stripPrefix_append. done.
  - unfold StorageService.getPublicUrl.
    rewrite (pathJoin_cons (StorageService.pathJoin _)).
    rewrite (pathJoin_cons (cfg_uploadDir cfg)), append_assoc_str.
    rewrite append_assoc_str, stripPrefix_append.
    rewrite !pathJoin_cons.
    unfold StorageService.pathJoin, JS.join. cbn [String.concat].
    by rewrite !append_assoc_str.
Qed.

(** ** Progress written and read *)

(** X21.  After [updateProgress] on a stored video, [getProcessingStatus] reads
    back the phase, the progress, the current segment (the former one
    when none was given) and the message (the name of the phase when the
    message is missing or empty).  [completedAt] is set to the clock
    exactly when the phase is completed; the error message, segments,
    scenes and files of the video, the other videos, the locks, the clock
    and the log are unchanged. *)
Theorem updateProgress_then_status videoId phase progress message
    currentSegment v w :
  videos w !! videoId = Some v ->
  exists w' v',
    ProcessingService.updateProgress videoId phase progress message
      currentSegment w = (Ok tt, w')
    /\ ProcessingService.getProcessingStatus videoId w'
       = (Ok (Some (ProcessingService.mkProcessingProgress phase progress
                      (default (Video.currentSegment v) currentSegment)
                      (Some (match message with
                             | Some m =>
                                 if String.eqb m ""
                                 then ProcessingService.phaseName phase
                                 else m
                             | None => ProcessingService.phaseName phase
                             end)))), w')
    /\ videos w' !! videoId = Some v'
    /\ Video.completedAt v'
       = (if decide (phase = VCompleted) then Some (now w)
          else Video.completedAt v)
    /\ Video.errorMessage v' = Video.errorMessage v
    /\ Video.segments v' = Video.segments v
    /\ Video.scenes v' = Video.scenes v
    /\ Video.files v' = Video.files v
    /\ (forall id, id <> videoId -> videos w' !! id = videos w !! id)
    /\ locks w' = locks w /\ now w' = now w /\ trace w' = trace w.
Proof.
  intros Hv. unfold ProcessingService.updateProgress, bind, getNow.
  rewrite findByIdAndUpdate_run. eexists _, _. split; [reflexivity|].
  unfold ProcessingService.getProcessingStatus, bind, findById.
  cbn [videos locks now trace]. rewrite lookup_alter_eq, Hv.
  cbn [fmap option_fmap option_map].
  split.
  { unfold ret. f_equal. f_equal. f_equal.
    unfold SceneDecompositionService.orElse, JS.truthy.
    destruct phase, currentSegment, message as [m|]; cbn;
      try destruct (String.eqb m ""); reflexivity. }
  split; [reflexivity|].
  split.
  { destruct phase, currentSegment;
      (destruct (decide _) as [?|?]; [|try congruence]); try discriminate;
      reflexivity. }
  split; [by destruct phase, currentSegment|].
  split; [by destruct phase, currentSegment|].
  split; [by destruct phase, currentSegment|].
  split; [by destruct phase, currentSegment|].
  split; [intros id Hne; by rewrite lookup_alter_ne|]. done.
Qed.

Lemma updateProgress_then_status_witness :
  exists w' v',
    ProcessingService.updateProgress "v1" VStitching 70 (Some "") None
      Scenario.world2 = (Ok tt, w')
    /\ ProcessingService.getProcessingStatus "v1" w'
       = (Ok (Some (ProcessingService.mkProcessingProgress VStitching 70 0
                      (Some "stitching"))), w')
    /\ videos w' !! "v1" = Some v'
    /\ Video.segments v' = Video.segments Scenario.video2.
Proof.
  destruct (updateProgress_then_status "v1" VStitching 70 (Some "") None
              Scenario.video2 Scenario.world2 eq_refl)
    as (w' & v' & Hrun & Hstatus & Hv' & _ & _ & Hseg & _).
  exists w', v'. auto.
Defined.

(** ** Polling the provider *)

Lemma external_log env e w :
  exists w' evs,
    external env e w = (Ok tt, w')
    /\ trace w' = trace w ++ evs
    /\ sleeps evs = match e with EvSleep ms => [ms] | _ => [] end.
Proof.
  unfold external.
  destruct (await_run env e (elapsed env e) w) as (w1 & cs & Ha & Ht & Hc & _).
  exists w1, (e :: cs). split; [exact Ha|]. split; [exact Ht|].
  by apply sleeps_event_cancels.
Qed.

Lemma sleep_log env ms w :
  exists w' evs,
    sleep env ms w = (Ok tt, w')
    /\ trace w' = trace w ++ evs /\ sleeps evs = [ms].
Proof.
  unfold sleep.
  destruct (await_run env (EvSleep ms) ms w) as (w1 & cs & Ha & Ht & Hc & _).
  exists w1, (EvSleep ms :: cs). split; [exact Ha|]. split; [exact Ht|].
  by apply (sleeps_event_cancels (EvSleep ms)).
Qed.

Section PollingFacts.

Variable env : Env.
Variables pollingIntervalMs segmentTimeoutMs : Z.
Variable checkJobStatus : nat -> Res SegmentGenerationService.JobStatus.
Variable downloadVideo : nat -> Res unit.
Variable jobId : string.

Lemma pollOnce_log attempt w :
  attempt <= SegmentGenerationService.maxAttempts pollingIntervalMs
               segmentTimeoutMs ->
  exists r w' evs,
    SegmentGenerationService.pollOnce env pollingIntervalMs segmentTimeoutMs
      checkJobStatus downloadVideo jobId attempt w = (Ok r, w')
    /\ trace w' = trace w ++ evs
    /\ match r with
       | Some res =>
           sleeps evs = []
           /\ SegmentGenerationService.jobId res = jobId
           /\ unfinished (checkJobStatus attempt) = false
           /\ (SegmentGenerationService.status res
               = SegmentGenerationService.Completed ->
               (exists g gs,
                  checkJobStatus attempt
                  = Ok (SegmentGenerationService.JobSucceeded (g :: gs)))
               /\ downloadVideo attempt = Ok tt)
       | None =>
           sleeps evs
           = if attempt <? SegmentGenerationService.maxAttempts
                             pollingIntervalMs segmentTimeoutMs
             then [pollingIntervalMs] else []
       end
    /\ (unfinished (checkJobStatus attempt) = true -> r = None).
Proof.
  intros Hle. unfold SegmentGenerationService.pollOnce, tryCatch.
  unfold bind at 1.
  destruct (external_log env (EvOperation "checkJobStatus" attempt) w)
    as (w1 & evs1 & -> & Ht1 & Hsl1).
  unfold bind at 1. unfold liftRes at 1.
  set (maxA := SegmentGenerationService.maxAttempts pollingIntervalMs
                 segmentTimeoutMs) in *.
  assert (Hcatch : forall error w2 evs2,
    trace w2 = trace w ++ evs2 -> sleeps evs2 = [] ->
    exists r w' evs,
      (if attempt =? maxA
       then ret (Some (SegmentGenerationService.mkResult jobId
                         SegmentGenerationService.Failed
                         (Some ("Polling failed: " +:+ JS.message error))))
       else sleep env pollingIntervalMs;; ret None) w2 = (Ok r, w')
      /\ trace w' = trace w ++ evs
      /\ match r with
         | Some res =>
             sleeps evs = []
             /\ SegmentGenerationService.jobId res = jobId
             /\ (SegmentGenerationService.status res
                 = SegmentGenerationService.Completed -> False)
         | None => sleeps evs = if attempt <? maxA then [pollingIntervalMs]
                                else []
         end).
  { intros error w2 evs2 Ht2 Hsl2.
    destruct (attempt =? maxA) eqn:Hlast.
    - eexists _, w2, evs2. split; [reflexivity|]. split; [exact Ht2|].
      cbn. by repeat split.
    - apply Nat.eqb_neq in Hlast.
      destruct (sleep_log env pollingIntervalMs w2)
        as (w3 & evs3 & Hs & Ht3 & Hsl3).
      unfold bind. rewrite Hs.
      eexists _, w3, (evs2 ++ evs3). split; [reflexivity|].
      split; [by rewrite Ht3, Ht2, <- app_assoc|].
      rewrite sleeps_app, Hsl2, Hsl3.
      replace (attempt <? maxA) with true
        by (symmetry; apply Nat.ltb_lt; lia).
      done. }
  destruct (checkJobStatus attempt) as [[| |[|g gs]|message]|error] eqn:Hcheck.
  - destruct (attempt <? maxA) eqn:Hlt.
    + destruct (sleep_log env pollingIntervalMs w1)
        as (w3 & evs3 & Hs & Ht3 & Hsl3).
      unfold bind. rewrite Hs.
      eexists _, w3, (evs1 ++ evs3). split; [reflexivity|].
      split; [by rewrite Ht3, Ht1, <- app_assoc|].
      rewrite sleeps_app, Hsl1, Hsl3. done.
    + eexists _, w1, evs1. split; [reflexivity|]. split; [exact Ht1|].
      by rewrite Hsl1.
  - destruct (attempt <? maxA) eqn:Hlt.
    + destruct (sleep_log env pollingIntervalMs w1)
        as (w3 & evs3 & Hs & Ht3 & Hsl3).
      unfold bind. rewrite Hs.
      eexists _, w3, (evs1 ++ evs3). split; [reflexivity|].
      split; [by rewrite Ht3, Ht1, <- app_assoc|].
      rewrite sleeps_app, Hsl1, Hsl3. done.
    + eexists _, w1, evs1. split; [reflexivity|]. split; [exact Ht1|].
      by rewrite Hsl1.
  - eexists _, w1, evs1. split; [reflexivity|]. split; [exact Ht1|].
    cbn. by repeat split.
  - unfold bind at 1.
    destruct (external_log env (EvOperation "downloadVideo" attempt) w1)
      as (w2 & evs2 & -> & Ht2 & Hsl2).
    assert (Ht12 : trace w2 = trace w ++ (evs1 ++ evs2))
      by (by rewrite Ht2, Ht1, <- app_assoc).
    assert (Hsl12 : sleeps (evs1 ++ evs2) = [])
      by (by rewrite sleeps_app, Hsl1, Hsl2).
    unfold bind, liftRes.
    destruct (downloadVideo attempt) as [[]|error] eqn:Hdown.
    + eexists _, w2, (evs1 ++ evs2). split; [reflexivity|].
      split; [exact Ht12|]. cbn. split; [|done].
      repeat split; [exact Hsl12|]. by eexists _, _.
    + destruct (Hcatch error w2 (evs1 ++ evs2) Ht12 Hsl12)
        as (r & w' & evs & Hrun & Ht & Hcase).
      exists r, w', evs. split; [exact Hrun|]. split; [exact Ht|].
      split; [|done]. destruct r as [res|]; [|exact Hcase].
      destruct Hcase as (? & ? & Hno). repeat split; try done.
      all: by intros Hc; destruct (Hno Hc).
  - eexists _, w1, evs1. split; [reflexivity|]. split; [exact Ht1|].
    cbn. by repeat split.
  - destruct (Hcatch error w1 evs1 Ht1 Hsl1)
      as (r & w' & evs & Hrun & Ht & Hcase).
    exists r, w', evs. split; [exact Hrun|]. split; [exact Ht|].
    split; [|done]. destruct r as [res|]; [|exact Hcase].
    destruct Hcase as (? & ? & Hno). repeat split; try done.
    all: by intros Hc; destruct (Hno Hc).
Qed.

Lemma pollFrom_log remaining :
  forall attempt w,
    attempt + remaining
    = S (SegmentGenerationService.maxAttempts pollingIntervalMs
           segmentTimeoutMs) ->
    exists res w' evs,
      SegmentGenerationService.pollFrom env pollingIntervalMs segmentTimeoutMs
        checkJobStatus downloadVideo jobId remaining attempt w = (Ok res, w')
      /\ trace w' = trace w ++ evs
      /\ Forall (fun ms => ms = pollingIntervalMs) (sleeps evs)
      /\ length (sleeps evs) <= remaining - 1
      /\ SegmentGenerationService.jobId res = jobId
      /\ (SegmentGenerationService.status res
          = SegmentGenerationService.Completed ->
          exists a g gs,
            attempt <= a < attempt + remaining
            /\ checkJobStatus a
               = Ok (SegmentGenerationService.JobSucceeded (g :: gs))
            /\ downloadVideo a = Ok tt)
      /\ ((forall a, attempt <= a < attempt + remaining ->
                     unfinished (checkJobStatus a) = true) ->
          res = SegmentGenerationService.mkResult jobId
                  SegmentGenerationService.Failed
                  (Some "Segment generation timeout")
          /\ length (sleeps evs) = remaining - 1).
Proof.
  induction remaining as [|r IH]; intros attempt w Hsum.
  - eexists _, w, []. split; [reflexivity|]. rewrite app_nil_r.
    cbn. by repeat split.
  - cbn [SegmentGenerationService.pollFrom]. unfold bind.
    destruct (pollOnce_log attempt w ltac:(lia))
      as (r1 & w1 & evs1 & -> & Ht1 & Hcase & Hpend).
    destruct r1 as [res|].
    + destruct Hcase as (Hsl & Hjob & Hfin & Hdone).
      exists res, w1, evs1. split; [reflexivity|]. split; [exact Ht1|].
      rewrite Hsl. cbn [length]. split; [constructor|]. split; [lia|].
      split; [exact Hjob|]. split.
      * intros Hc. destruct (Hdone Hc) as [(g & gs & Hg) Hd].
        exists attempt, g, gs. split; [lia|]. done.
      * intros Hall. specialize (Hall attempt ltac:(lia)). congruence.
    + destruct (IH (S attempt) w1 ltac:(lia))
        as (res & w' & evs & Hrun & Ht & Hall & Hlen & Hjob & Hdone & Htimeout).
      exists res, w', (evs1 ++ evs). split; [exact Hrun|].
      split; [by rewrite Ht, Ht1, <- app_assoc|].
      rewrite sleeps_app, Hcase, length_app.
      destruct r as [|r'].
      * replace (attempt <? _) with false
          by (symmetry; apply Nat.ltb_ge; lia).
        cbn [app length]. split; [exact Hall|]. split; [lia|].
        split; [exact Hjob|]. split.
        -- intros Hc. destruct (Hdone Hc) as (a & g & gs & Ha & Hrest).
           exists a, g, gs. split; [lia|exact Hrest].
        -- intros Hp. apply Htimeout. intros a Ha. apply Hp. lia.
      * replace (attempt <? _) with true
          by (symmetry; apply Nat.ltb_lt; lia).
        cbn [app length]. split; [by constructor|]. split; [cbn in Hlen; lia|].
        split; [exact Hjob|]. split.
        -- intros Hc. destruct (Hdone Hc) as (a & g & gs & Ha & Hrest).
           exists a, g, gs. split; [lia|exact Hrest].
        -- intros Hp. destruct Htimeout as [-> Hl].
           { intros a Ha. apply Hp. lia. }
           split; [done|]. cbn in Hl |- *. lia.
Qed.

End PollingFacts.

(** X22.  For a positive polling interval and timeout, [pollForCompletion]
    never throws and answers for the job it was given; it sleeps the
    polling interval fewer than [maxAttempts] times, for less than the
    timeout in total.  It answers completed only when some status check
    within [maxAttempts] reported a generation and its download
    succeeded.  When every check reports the job as unfinished it answers
    failed with [Segment generation timeout] after [maxAttempts - 1]
    sleeps. *)
Theorem pollForCompletion_bounded env pollingIntervalMs segmentTimeoutMs
    checkJobStatus downloadVideo jobId segmentNumber w :
  (0 < pollingIntervalMs)%Z -> (0 < segmentTimeoutMs)%Z ->
  let maxAttempts :=
    SegmentGenerationService.maxAttempts pollingIntervalMs segmentTimeoutMs in
  exists res w',
    SegmentGenerationService.pollForCompletion env pollingIntervalMs
      segmentTimeoutMs checkJobStatus downloadVideo jobId segmentNumber w
    = (Ok res, w')
    /\ SegmentGenerationService.jobId res = jobId
    /\ Forall (fun ms => ms = pollingIntervalMs) (sleeps (newEvents w w'))
    /\ length (sleeps (newEvents w w')) < maxAttempts
    /\ (Z.of_nat (length (sleeps (newEvents w w'))) * pollingIntervalMs
        < segmentTimeoutMs)%Z
    /\ (SegmentGenerationService.status res
        = SegmentGenerationService.Completed ->
        exists a g gs,
          1 <= a <= maxAttempts
          /\ checkJobStatus a
             = Ok (SegmentGenerationService.JobSucceeded (g :: gs))
          /\ downloadVideo a = Ok tt)
    /\ ((forall a, 1 <= a <= maxAttempts ->
                   unfinished (checkJobStatus a) = true) ->
        res = SegmentGenerationService.mkResult jobId
                SegmentGenerationService.Failed
                (Some "Segment generation timeout")
        /\ length (sleeps (newEvents w w')) = maxAttempts - 1).
Proof.
  intros Hi Ht. cbv zeta.
  unfold SegmentGenerationService.pollForCompletion.
  set (maxA := SegmentGenerationService.maxAttempts pollingIntervalMs
                 segmentTimeoutMs).
  pose proof (ceilDiv_bounds segmentTimeoutMs pollingIntervalMs Hi) as Hb.
  assert (Hmax : Z.of_nat maxA = JS.ceilDiv segmentTimeoutMs pollingIntervalMs).
  { unfold maxA, SegmentGenerationService.maxAttempts.
    rewrite Z2Nat.id; [done|]. nia. }
  assert (Hpos : 0 < maxA) by nia.
  destruct (pollFrom_log env pollingIntervalMs segmentTimeoutMs checkJobStatus
              downloadVideo jobId maxA 1 w ltac:(fold maxA; lia))
    as (res & w' & evs & Hrun & Htr & Hall & Hlen & Hjob & Hdone & Htimeout).
  exists res, w'. split; [exact Hrun|].
  rewrite (newEvents_app _ _ _ Htr).
  split; [exact Hjob|]. split; [exact Hall|]. split; [lia|].
  split; [nia|]. split.
  - intros Hc. destruct (Hdone Hc) as (a & g & gs & Ha & Hrest).
    exists a, g, gs. split; [lia|exact Hrest].
  - intros Hp. apply Htimeout. intros a Ha. apply Hp. lia.
Qed.

Lemma pollForCompletion_bounded_witness :
  exists res w',
    SegmentGenerationService.pollForCompletion Scenario.calmEnv 10000 900000
      (fun _ => Ok SegmentGenerationService.JobRunning) (fun _ => Ok tt)
      "job" 1 Scenario.world2
    = (Ok res, w')
    /\ res = SegmentGenerationService.mkResult "job"
               SegmentGenerationService.Failed
               (Some "Segment generation timeout")
    /\ length (sleeps (newEvents Scenario.world2 w')) = 89.
Proof.
  destruct (pollForCompletion_bounded Scenario.calmEnv 10000 900000
              (fun _ => Ok SegmentGenerationService.JobRunning)
              (fun _ => Ok tt) "job" 1 Scenario.world2)
    as (res & w' & Hrun & _ & _ & _ & _ & _ & Htimeout); [lia|lia|].
  exists res, w'. split; [exact Hrun|].
  apply Htimeout. intros a _. reflexivity.
Defined.

(** ** The segment cache *)

Section CacheFacts.

Variable sha256hex16 : string -> string.
Variable extname : string -> string.
Variable cacheDir : string.

Lemma removeEntry_lookup key c j :
  SegmentCacheService.entries (SegmentCacheService.removeEntry key c) !! j
  = delete key (SegmentCacheService.entries c) !! j.
Proof.
  unfold SegmentCacheService.removeEntry.
  destruct (SegmentCacheService.entries c !! key) as [entry|] eqn:He;
    [reflexivity|].
  destruct (decide (j = key)) as [->|Hne].
  - by rewrite lookup_delete_eq.
  - by rewrite lookup_delete_ne.
Qed.

Lemma removeEntry_disk key c :
  SegmentCacheService.disk (SegmentCacheService.removeEntry key c)
  ⊆ SegmentCacheService.disk c.
Proof.
  unfold SegmentCacheService.removeEntry.
  destruct (SegmentCacheService.entries c !! key); cbn.
  - apply subseteq_difference_l. reflexivity.
  - reflexivity.
Qed.

(** X23.  [store] throws [ENOENT] and changes nothing when the source file
    or the cache directory does not exist.  When both exist it answers
    the path of the copy in the cache directory, and that file exists
    afterwards.  As long as the manifest keeps that entry: up to seven
    days after the store, with the file still there, [getCached] answers
    that path and changes nothing; after seven days it answers nothing,
    drops the entry and the file, and keeps answering nothing. *)
Theorem getCached_after_store now scenePrompt segmentNumber sourcePath
    duration c :
  let key :=
    SegmentCacheService.generateCacheKey sha256hex16 scenePrompt
      segmentNumber in
  let cachedPath :=
    StorageService.pathJoin [cacheDir; key +:+ extname sourcePath] in
  (sourcePath ∉ SegmentCacheService.disk c
   \/ cacheDir ∉ SegmentCacheService.dirs c ->
   SegmentCacheService.store sha256hex16 extname cacheDir now scenePrompt
     segmentNumber sourcePath duration c
   = (Throw SegmentCacheService.noEntry, c))
  /\ (sourcePath ∈ SegmentCacheService.disk c ->
      cacheDir ∈ SegmentCacheService.dirs c ->
      exists c1,
        SegmentCacheService.store sha256hex16 extname cacheDir now
          scenePrompt segmentNumber sourcePath duration c
        = (Ok cachedPath, c1)
        /\ cachedPath ∈ SegmentCacheService.disk c1
        /\ (forall later c2,
              SegmentCacheService.entries c2 !! key
              = SegmentCacheService.entries c1 !! key ->
              ((later <= now + SegmentCacheService.maxAgeMs)%Z ->
               cachedPath ∈ SegmentCacheService.disk c2 ->
               SegmentCacheService.getCached sha256hex16 later scenePrompt
                 segmentNumber c2 = (Some cachedPath, c2))
              /\ ((now + SegmentCacheService.maxAgeMs < later)%Z ->
                  exists c3,
                    SegmentCacheService.getCached sha256hex16 later
                      scenePrompt segmentNumber c2 = (None, c3)
                    /\ SegmentCacheService.entries c3 !! key = None
                    /\ (cachedPath ∉ SegmentCacheService.disk c3)
                    /\ SegmentCacheService.getCached sha256hex16 later
                         scenePrompt segmentNumber c3 = (None, c3)))).
Proof.
  cbv zeta. unfold SegmentCacheService.store. split.
  - intros Hno. rewrite decide_False; [reflexivity|]. tauto.
  - intros Hsrc Hdir. rewrite decide_True by (split; assumption).
    eexists. split; [reflexivity|].
    cbn [SegmentCacheService.disk SegmentCacheService.entries].
    split; [apply elem_of_union_l, elem_of_singleton; reflexivity|].
    intros later c2. rewrite lookup_insert_eq.
    intros Hrow. unfold SegmentCacheService.getCached. rewrite Hrow.
    unfold SegmentCacheService.expired.
    cbn [SegmentCacheService.expiresAt SegmentCacheService.filePath]. split.
    + intros Hle Hfile.
      replace (_ <? later)%Z with false by (symmetry; apply Z.ltb_ge; lia).
      by rewrite decide_True.
    + intros Hlt.
      replace (_ <? later)%Z with true by (symmetry; apply Z.ltb_lt; lia).
      eexists. split; [reflexivity|].
      unfold SegmentCacheService.removeEntry. rewrite Hrow.
      cbn [SegmentCacheService.disk SegmentCacheService.entries
           SegmentCacheService.filePath].
      rewrite lookup_delete_eq. split; [done|]. split; [|done].
      rewrite not_elem_of_difference. right. by apply elem_of_singleton.
Qed.

(** X24.  [getCached] and [isCached] agree and leave the same cache.  A path
    that [getCached] answers names an existing file and is the path of an
    entry of the key that has not expired, and the cache is unchanged; when
    it answers nothing, the key has no entry afterwards.  No entry of
    another key changes, and no file is created. *)
Theorem getCached_safe now scenePrompt segmentNumber c :
  let key :=
    SegmentCacheService.generateCacheKey sha256hex16 scenePrompt
      segmentNumber in
  exists r c',
    SegmentCacheService.getCached sha256hex16 now scenePrompt segmentNumber c
    = (r, c')
    /\ SegmentCacheService.isCached sha256hex16 now scenePrompt
         segmentNumber c
       = (bool_decide (is_Some r), c')
    /\ (forall path, r = Some path ->
          c' = c /\ path ∈ SegmentCacheService.disk c
          /\ exists entry,
               SegmentCacheService.entries c !! key = Some entry
               /\ SegmentCacheService.filePath entry = path
               /\ (now <= SegmentCacheService.expiresAt entry)%Z)
    /\ (r = None -> SegmentCacheService.entries c' !! key = None)
    /\ (forall j, j <> key ->
          SegmentCacheService.entries c' !! j
          = SegmentCacheService.entries c !! j)
    /\ SegmentCacheService.disk c' ⊆ SegmentCacheService.disk c.
Proof.
  cbv zeta. unfold SegmentCacheService.getCached, SegmentCacheService.isCached.
  set (key := SegmentCacheService.generateCacheKey _ _ _).
  assert (Hrm : SegmentCacheService.entries
                  (SegmentCacheService.removeEntry key c) !! key = None)
    by (by rewrite removeEntry_lookup, lookup_delete_eq).
  assert (Hother : forall j, j <> key ->
            SegmentCacheService.entries
              (SegmentCacheService.removeEntry key c) !! j
            = SegmentCacheService.entries c !! j)
    by (intros j Hj; by rewrite removeEntry_lookup, lookup_delete_ne).
  pose proof (removeEntry_disk key c) as Hdisk.
  destruct (SegmentCacheService.entries c !! key) as [entry|] eqn:He.
  - unfold SegmentCacheService.expired.
    destruct (SegmentCacheService.expiresAt entry <? now)%Z eqn:Hx.
    + eexists _, _. split; [reflexivity|]. split; [reflexivity|].
      split; [discriminate|]. done.
    + apply Z.ltb_ge in Hx.
      destruct (decide (SegmentCacheService.filePath entry
                        ∈ SegmentCacheService.disk c)) as [Hin|Hout].
      * eexists _, _. split; [reflexivity|]. split; [reflexivity|].
        split.
        { intros path [= <-]. split; [done|]. split; [done|].
          exists entry. done. }
        split; [discriminate|]. done.
      * eexists _, _. split; [reflexivity|]. split; [reflexivity|].
        split; [discriminate|]. done.
  - eexists _, _. split; [reflexivity|]. split; [reflexivity|].
    split; [discriminate|]. done.
Qed.





End CacheFacts.

Lemma getCached_after_store_witness :
  SegmentCacheService.store (fun s => s) (fun _ => ".mp4") "/cache" 1000
    "an eagle" 1 "/uploads/seg.mp4" 12
    (SegmentCacheService.mkCache ∅ 0 {["/uploads/seg.mp4"]} ∅)
  = (Throw SegmentCacheService.noEntry,
     SegmentCacheService.mkCache ∅ 0 {["/uploads/seg.mp4"]} ∅)
  /\ exists c1,
       SegmentCacheService.store (fun s => s) (fun _ => ".mp4") "/cache" 1000
         "an eagle" 1 "/uploads/seg.mp4" 12
         (SegmentCacheService.mkCache ∅ 0 {["/uploads/seg.mp4"]}
            {["/cache"]})
       = (Ok "/cache/an eagle::1.mp4", c1)
       /\ "/cache/an eagle::1.mp4" ∈ SegmentCacheService.disk c1
       /\ SegmentCacheService.getCached (fun s => s) 2000 "an eagle" 1 c1
          = (Some "/cache/an eagle::1.mp4", c1).
Proof.
  split.
  - apply (proj1 (getCached_after_store (fun s => s) (fun _ => ".mp4")
                    "/cache" 1000 "an eagle" 1 "/uploads/seg.mp4" 12
                    (SegmentCacheService.mkCache ∅ 0 {["/uploads/seg.mp4"]}
                       ∅))).
    right. apply not_elem_of_empty.
  - destruct (proj2 (getCached_after_store (fun s => s) (fun _ => ".mp4")
                       "/cache" 1000 "an eagle" 1 "/uploads/seg.mp4" 12
                       (SegmentCacheService.mkCache ∅ 0
                          {["/uploads/seg.mp4"]} {["/cache"]})))
      as (c1 & Hrun & Hdisk & Hlater).
    + vm_compute. reflexivity.
    + vm_compute. reflexivity.
    + exists c1. split; [exact Hrun|]. split; [exact Hdisk|].
      apply (proj1 (Hlater 2000%Z c1 eq_refl)); [|exact Hdisk].
      vm_compute. discriminate.
Defined.
